(** * xmlcreate: the node hierarchy and its serialization

    A shallow embedding of [src/nodes/XmlNode.ts], [XmlElement.ts] and
    [XmlCdata.ts].  JavaScript objects live in a heap and are referred to by
    their address, so that object identity ([indexOf], [===]) and aliasing are
    those of the program; every method is a function in a state-and-exception
    monad over that heap. *)

From Stdlib Require Import String Ascii NArith ZArith Lia.
From stdpp Require Import prelude.

Local Open Scope Z_scope.

(** ** Strings *)

(** A JavaScript string is a sequence of UTF-16 code units. *)
Definition jsstring := list N.

(** The code units of an ASCII literal. *)
Definition js (s : string) : jsstring := N_of_ascii <$> list_ascii_of_string s.
Arguments js : simpl never.

Definition starts_with (p s : jsstring) : bool := bool_decide (take (length p) s = p).

(** [/sub/.test(s)] for a pattern without metacharacters: does [sub] occur in
    [s]? *)
Fixpoint contains (sub s : jsstring) : bool :=
  starts_with sub s ||
  match s with
  | [] => false
  | _ :: s' => contains sub s'
  end.

(** [s.split(sep)] for a non-empty separator: [skip] counts the code units of
    a separator that was matched and is still being passed over, [cur] is the
    piece being read. *)
Fixpoint split_from (sep : jsstring) (skip : nat) (cur s : jsstring) : list jsstring :=
  match s with
  | [] => [cur]
  | c :: s' =>
      match skip with
      | S k => split_from sep k cur s'
      | O =>
          if starts_with sep s
          then cur :: split_from sep (Nat.pred (length sep)) [] s'
          else split_from sep O (cur ++ [c]) s'
      end
  end.

(** [s.split(sep)]; an empty separator splits between all code units, and
    the empty string then has no piece at all. *)
Definition split (sep s : jsstring) : list jsstring :=
  match sep with
  | [] => (fun c => [c]) <$> s
  | _ :: _ => split_from sep O [] s
  end.

(** [pieces.join(sep)] *)
Fixpoint join (sep : jsstring) (pieces : list jsstring) : jsstring :=
  match pieces with
  | [] => []
  | [p] => p
  | p :: rest => p ++ sep ++ join sep rest
  end.

(** ** Nodes and the heap *)

(** The address of an object on the heap. *)
Abbreviation ref := nat (only parsing).

(** The classes of the hierarchy with the properties each one adds to
    [XmlNode]. [VNode] is a direct instance of the base class. *)
Inductive variant :=
  | VNode
  | VAttribute (name : jsstring)
  | VCdata (data : jsstring)
  | VCharRef (char : jsstring) (hex : bool)
  | VComment (content : jsstring)
  | VElement (name : jsstring)
  | VEntityRef (entity : jsstring)
  | VProcInst (target : jsstring) (content : option jsstring)
  | VText (text : jsstring)
  | VDtdEntity (text : jsstring).

(** [XmlNode]: [_parent] and [_children]. *)
Record node := Node {
  var : variant;
  parent : option ref;
  children : list ref
}.

(** An entry of an array passed as attribute value: [string | XmlNode]. *)
Inductive item :=
  | IStr (s : jsstring)
  | INode (n : ref).

(** [value: string | XmlNode | (string|XmlNode)[]]; an array is an object of
    the caller and is passed by reference. *)
Inductive attrValue :=
  | AStr (s : jsstring)
  | ANode (n : ref)
  | AArr (a : nat).

Record heap := Heap {
  nodes : list node;
  arrays : list (list item)
}.

Definition empty_heap : heap := Heap [] [].

#[global] Instance variant_eq_dec : EqDecision variant.
Proof. solve_decision. Defined.
#[global] Instance node_eq_dec : EqDecision node.
Proof. solve_decision. Defined.
#[global] Instance item_eq_dec : EqDecision item.
Proof. solve_decision. Defined.

(** The classes by name. *)
Inductive kind :=
  | KNode | KAttribute | KCdata | KCharRef | KComment | KElement
  | KEntityRef | KProcInst | KText | KDtdEntity.

#[global] Instance kind_eq_dec : EqDecision kind.
Proof. solve_decision. Defined.

Definition kind_of (v : variant) : kind :=
  match v with
  | VNode => KNode
  | VAttribute _ => KAttribute
  | VCdata _ => KCdata
  | VCharRef _ _ => KCharRef
  | VComment _ => KComment
  | VElement _ => KElement
  | VEntityRef _ => KEntityRef
  | VProcInst _ _ => KProcInst
  | VText _ => KText
  | VDtdEntity _ => KDtdEntity
  end.

(** ** Exceptions *)

(** The kinds of exception the library throws:
    - [InvalidArgument]: [TypeError], an argument is not a node of an accepted
      class (and the plain [Error] of [removeChild] for the same);
    - [InvalidIndex]: [RangeError], index outside the children array;
    - [InvalidName]: [Error], name not allowed in XML names;
    - [InvalidCharacterData]: [Error], characters or sequences not allowed;
    - [DuplicateAttribute]: [Error], attribute name already on the element;
    - [UnsupportedOperation]: [Error], node cannot have children, or
      [toString] of the base class. *)
Inductive error :=
  | InvalidArgument
  | InvalidIndex
  | InvalidName
  | InvalidCharacterData
  | DuplicateAttribute
  | UnsupportedOperation.

#[global] Instance error_eq_dec : EqDecision error.
Proof. solve_decision. Defined.

Inductive outcome (A : Type) :=
  | Ok (a : A)
  | Throw (e : error).
Arguments Ok {A} a.
Arguments Throw {A} e.

(** A method call: runs on a heap, leaves a heap (also when it throws: what
    was written before the [throw] stays written) and returns or throws. *)
Definition M (A : Type) : Type := heap -> heap * outcome A.

Definition ret {A} (a : A) : M A := fun h => (h, Ok a).
Definition throw {A} (e : error) : M A := fun h => (h, Throw e).
Definition bind {A B} (m : M A) (k : A -> M B) : M B :=
  fun h =>
    match m h with
    | (h', Ok a) => k a h'
    | (h', Throw e) => (h', Throw e)
    end.

Notation "'do' x <- m ; k" := (bind m (fun x => k))
  (at level 10, x name, m at level 100, k at level 200).
Notation "'do_' m ; k" := (bind m (fun _ => k))
  (at level 10, m at level 100, k at level 200).

(** *** Heap primitives *)

(** [n instanceof XmlNode]: a reference to an object that was constructed. *)
Definition getNode (n : ref) : M node :=
  fun h =>
    match nodes h !! n with
    | Some nd => (h, Ok nd)
    | None => (h, Throw InvalidArgument)
    end.

Definition with_parent (p : option ref) (nd : node) : node :=
  Node (var nd) p (children nd).
Definition with_children (f : list ref -> list ref) (nd : node) : node :=
  Node (var nd) (parent nd) (f (children nd)).
Definition with_var (v : variant) (nd : node) : node :=
  Node v (parent nd) (children nd).

Definition update (n : ref) (f : node -> node) (h : heap) : heap :=
  Heap (alter f n (nodes h)) (arrays h).

(** [n._parent = p] *)
Definition setParent (n : ref) (p : option ref) : M unit :=
  fun h => (update n (with_parent p) h, Ok tt).

(** [n._children.splice(index, 1)] *)
Definition spliceOut (n : ref) (index : nat) : M unit :=
  fun h => (update n (with_children (delete index)) h, Ok tt).

(** [n._children.splice(index, 0, c)] *)
Definition splice_in (index : nat) (c : ref) (cs : list ref) : list ref :=
  take index cs ++ c :: drop index cs.
Definition spliceIn (n : ref) (index : nat) (c : ref) : M unit :=
  fun h => (update n (with_children (splice_in index c)) h, Ok tt).

(** [new C(...)]: a new object, with [_parent = undefined] and
    [_children = []] as the constructor of [XmlNode] leaves them. *)
Definition alloc (v : variant) : M ref :=
  fun h => (Heap (nodes h ++ [Node v None []]) (arrays h), Ok (length (nodes h))).

(** [cs.indexOf(n)], with [None] for [-1]. *)
Fixpoint indexOf (n : ref) (cs : list ref) : option nat :=
  match cs with
  | [] => None
  | c :: cs' => if decide (c = n) then Some O else S <$> indexOf n cs'
  end.

(** ** [XmlNode]: the operations of the base class *)

Definition permits_children (v : variant) : bool :=
  match v with
  | VNode | VElement _ | VAttribute _ => true
  | _ => false
  end.

(** [XmlNode.removeChild] *)
Definition XmlNode_removeChild (this node : ref) : M bool :=
  do_ getNode node;
  do td <- getNode this;
  match indexOf node (children td) with
  | Some index =>
      do_ setParent node None;
      do_ spliceOut this index;
      ret true
  | None => ret false
  end.

(** Modelled from the spec: the class [XmlAttribute] is not among the sources.
    Section 4.3: an Attribute supports the same child operations as a
    restricted container, so removal is that of the base class. *)
Definition XmlAttribute_removeChild (this node : ref) : M bool :=
  XmlNode_removeChild this node.

(** [this.removeChild(node)], dispatched on the class of [this]. [XmlElement]
    inherits the method; [XmlCdata] overrides it to throw, and so do the other
    classes without children (section 4.1 of the specification). *)
Definition removeChild (this node : ref) : M bool :=
  do td <- getNode this;
  match var td with
  | VNode | VElement _ => XmlNode_removeChild this node
  | VAttribute _ => XmlAttribute_removeChild this node
  | _ => throw UnsupportedOperation
  end.

(** The [index] parameter of [insertChild]: an integer, or left out. *)
Definition index_or_end (index : option Z) (cs : list ref) : Z :=
  match index with
  | Some i => i
  | None => Z.of_nat (length cs)
  end.

(** [XmlNode.insertChild] *)
Definition XmlNode_insertChild (this node : ref) (index : option Z) : M (option ref) :=
  do td <- getNode this;
  let index := index_or_end index (children td) in
  do_ getNode node;
  if bool_decide (index < 0 \/ index > Z.of_nat (length (children td)))
  then throw InvalidIndex
  else
    match indexOf node (children td) with
    | None =>
        do nd <- getNode node;
        do_ match parent nd with
            | Some p => do_ removeChild p node; ret tt
            | None => ret tt
            end;
        do_ setParent node (Some this);
        do_ spliceIn this (Z.to_nat index) node;
        ret (Some node)
    | Some _ => ret None
    end.

(** [XmlNode.removeChildAtIndex] *)
Definition XmlNode_removeChildAtIndex (this : ref) (index : Z) : M ref :=
  do td <- getNode this;
  if bool_decide (index < 0 \/ index >= Z.of_nat (length (children td)))
  then throw InvalidIndex
  else
    match children td !! Z.to_nat index with
    | Some node =>
        do_ setParent node None;
        do_ spliceOut this (Z.to_nat index);
        ret node
    | None => throw InvalidIndex
    end.

(** [XmlNode.remove] *)
Definition XmlNode_remove (this : ref) : M (option ref) :=
  do td <- getNode this;
  match parent td with
  | Some p => do_ removeChild p this; ret (Some p)
  | None => ret None
  end.

(** *** The reading operations of [XmlNode] *)

(** [cs.indexOf(n)], as a number: [-1] when [n] is not in the array. *)
Definition indexOfZ (n : ref) (cs : list ref) : Z :=
  match indexOf n cs with
  | Some i => Z.of_nat i
  | None => -1
  end.

(** [cs[i]]: [undefined] outside the array. *)
Definition at_index (cs : list ref) (i : Z) : option ref :=
  if bool_decide (i < 0) then None else cs !! Z.to_nat i.

(** [XmlNode.children]: a copy of the array. *)
Definition XmlNode_children (this : ref) : M (list ref) :=
  do td <- getNode this;
  ret (children td).

(** [this.children()], dispatched on the class of [this]: [XmlCdata]
    overrides it to throw, and so do the other classes without children. *)
Definition children_method (this : ref) : M (list ref) :=
  do td <- getNode this;
  if permits_children (var td) then XmlNode_children this
  else throw UnsupportedOperation.

(** [XmlNode.next] *)
Definition XmlNode_next (this : ref) : M (option ref) :=
  do td <- getNode this;
  match parent td with
  | None => ret None
  | Some p =>
      do pd <- getNode p;
      if bool_decide (indexOfZ this (children pd) = Z.of_nat (length (children pd)) - 1)
      then ret None
      else ret (at_index (children pd) (indexOfZ this (children pd) + 1))
  end.

(** [XmlNode.prev] *)
Definition XmlNode_prev (this : ref) : M (option ref) :=
  do td <- getNode this;
  match parent td with
  | None => ret None
  | Some p =>
      do pd <- getNode p;
      if bool_decide (indexOfZ this (children pd) = 0)
      then ret None
      else ret (at_index (children pd) (indexOfZ this (children pd) - 1))
  end.

(** [XmlNode.up] *)
Definition XmlNode_up (this : ref) : M (option ref) :=
  do td <- getNode this;
  ret (parent td).

(** [XmlNode.top]: the method calls itself on the parent; [None] when the
    calls nest deeper than the fuel allows. *)
Fixpoint XmlNode_top (fuel : nat) (h : heap) (this : ref) : option (outcome ref) :=
  match fuel with
  | O => None
  | S fuel' =>
      match nodes h !! this with
      | None => Some (Throw InvalidArgument)
      | Some td =>
          match parent td with
          | None => Some (Ok this)
          | Some p => XmlNode_top fuel' h p
          end
      end
  end.

(** ** [XmlElement.insertChild] *)

Definition instanceof_XmlAttribute (v : variant) : bool :=
  match v with VAttribute _ => true | _ => false end.

(** The classes [XmlElement.insertChild] accepts. *)
Definition element_child (v : variant) : bool :=
  match v with
  | VAttribute _ | VCdata _ | VCharRef _ _ | VComment _ | VElement _
  | VEntityRef _ | VProcInst _ _ | VText _ => true
  | VNode | VDtdEntity _ => false
  end.

(** [node instanceof XmlAttribute], for a reference. *)
Definition is_attribute (h : heap) (n : ref) : bool :=
  match nodes h !! n with
  | Some nd => instanceof_XmlAttribute (var nd)
  | None => false
  end.

(** [XmlElement.attributes], over the children of the element:
    [this._children.filter(node => node instanceof XmlAttribute)] *)
Definition XmlElement_attributes (h : heap) (cs : list ref) : list ref :=
  filter (fun n => is_attribute h n = true) cs.

Definition attribute_name (h : heap) (n : ref) : option jsstring :=
  match nodes h !! n with
  | Some (Node (VAttribute name) _ _) => Some name
  | _ => None
  end.

(** The loop over [attributes]: is there one with [attribute.name === name]? *)
Definition has_attribute_named (h : heap) (name : jsstring) (attrs : list ref) : bool :=
  existsb (fun a => bool_decide (attribute_name h a = Some name)) attrs.

Definition XmlElement_insertChild (this node : ref) (index : option Z) : M (option ref) :=
  fun h =>
    match nodes h !! node with
    | None => (h, Throw InvalidArgument)
    | Some nd =>
        if negb (element_child (var nd)) then (h, Throw InvalidArgument)
        else
          match nodes h !! this with
          | None => (h, Throw InvalidArgument)
          | Some td =>
              match var nd with
              | VAttribute name =>
                  if has_attribute_named h name (XmlElement_attributes h (children td))
                  then (h, Throw DuplicateAttribute)
                  else XmlNode_insertChild this node index h
              | _ => XmlNode_insertChild this node index h
              end
          end
    end.

(** Modelled from the spec: the class [XmlAttribute] is not among the sources.
    Sections 3 and 4.3: its children are limited to Text, Character-Reference
    and Entity-Reference nodes, and it supports the child operations of the
    base class otherwise. *)
Definition attribute_child (v : variant) : bool :=
  match v with
  | VCharRef _ _ | VEntityRef _ | VText _ => true
  | _ => false
  end.

(** Modelled from the spec: [XmlAttribute.insertChild] is not among the
    sources. Section 4.3: the insertion of the base class, for the three
    classes above; for another class the [InvalidArgument] the Element has. *)
Definition XmlAttribute_insertChild (this node : ref) (index : option Z) : M (option ref) :=
  do nd <- getNode node;
  if negb (attribute_child (var nd)) then throw InvalidArgument
  else XmlNode_insertChild this node index.

(** [this.insertChild(node, index)], dispatched on the class of [this]. *)
Definition insertChild (this node : ref) (index : option Z) : M (option ref) :=
  do td <- getNode this;
  match var td with
  | VNode => XmlNode_insertChild this node index
  | VElement _ => XmlElement_insertChild this node index
  | VAttribute _ => XmlAttribute_insertChild this node index
  | _ => throw UnsupportedOperation
  end.

(** [this.removeChildAtIndex(index)], dispatched on the class of [this]. *)
Definition removeChildAtIndex (this : ref) (index : Z) : M ref :=
  do td <- getNode this;
  if permits_children (var td) then XmlNode_removeChildAtIndex this index
  else throw UnsupportedOperation.

(** ** Validation and formatting options *)

(** [validateName] and [validateChar] of [src/validate.ts], which is not among
    the sources: whether a string is an XML [Name], and whether it only has
    code points of the XML [Char] production. *)
Class Validation := {
  validateName : jsstring -> bool;
  validateChar : jsstring -> bool
}.

(** The options of [toString] with the defaults filled in ([StringOptions]). *)
Record StringOptions := {
  indent : jsstring;
  newline : jsstring;
  pretty : bool
}.

(** What the specification leaves open in the markup of the classes that are
    not among the sources: the escaping of text, and the digits of a
    character reference (hexadecimal or decimal). *)
Class LeafMarkup := {
  escapeText : jsstring -> jsstring;
  codePointDigits : bool -> jsstring -> jsstring
}.

Section Construction.
Context {validation : Validation}.

(** *** [XmlElement]: constructor and [name] *)

(** The object of a constructor that throws is never seen by the caller: it
    is allocated once its properties have been accepted. *)
Definition new_XmlElement (name : jsstring) : M ref :=
  if negb (validateName name) then throw InvalidName
  else alloc (VElement name).

Definition XmlElement_set_name (this : ref) (name : jsstring) : M unit :=
  do td <- getNode this;
  match var td with
  | VElement _ =>
      if negb (validateName name) then throw InvalidName
      else fun h => (update this (with_var (VElement name)) h, Ok tt)
  | _ => throw InvalidArgument
  end.

(** *** [XmlCdata]: constructor and [data] *)

Definition XmlCdata_check_data (data : jsstring) : outcome unit :=
  if negb (validateChar data) then Throw InvalidCharacterData
  else if contains (js "]]>") data then Throw InvalidCharacterData
  else Ok tt.

Definition new_XmlCdata (data : jsstring) : M ref :=
  match XmlCdata_check_data data with
  | Throw e => throw e
  | Ok _ => alloc (VCdata data)
  end.

Definition XmlCdata_set_data (this : ref) (data : jsstring) : M unit :=
  do td <- getNode this;
  match var td with
  | VCdata _ =>
      match XmlCdata_check_data data with
      | Throw e => throw e
      | Ok _ => fun h => (update this (with_var (VCdata data)) h, Ok tt)
      end
  | _ => throw InvalidArgument
  end.

(** [this.data] *)
Definition XmlCdata_get_data (this : ref) : M jsstring :=
  do td <- getNode this;
  match var td with
  | VCdata data => ret data
  | _ => throw InvalidArgument
  end.

(** *** The classes that are not among the sources *)

(** Modelled from the spec: the class [XmlText] is declared but not defined
    in the sources. Sections 3 and 4.4: one string, validated by
    [validateChar], else [InvalidCharacterData]. *)
Definition new_XmlText (text : jsstring) : M ref :=
  if negb (validateChar text) then throw InvalidCharacterData
  else alloc (VText text).

(** Modelled from the spec: the [text] setter of [XmlText], declared but not
    defined in the sources; section 4.4, as in the constructor. *)
Definition XmlText_set_text (this : ref) (text : jsstring) : M unit :=
  do td <- getNode this;
  match var td with
  | VText _ =>
      if negb (validateChar text) then throw InvalidCharacterData
      else fun h => (update this (with_var (VText text)) h, Ok tt)
  | _ => throw InvalidArgument
  end.

(** Modelled from the spec: the class [XmlDtdEntity] is not among the
    sources, its tests are. Section 3: one string [text], validated by
    [validateChar]; the tests set [text] to [123] and read it back, and expect
    an error for a string with the code unit 1. *)
Definition new_XmlDtdEntity (text : jsstring) : M ref :=
  if negb (validateChar text) then throw InvalidCharacterData
  else alloc (VDtdEntity text).

(** Modelled from the spec: the [text] setter of [XmlDtdEntity], which the
    tests of the class call; section 4.4, as in the constructor. *)
Definition XmlDtdEntity_set_text (this : ref) (text : jsstring) : M unit :=
  do td <- getNode this;
  match var td with
  | VDtdEntity _ =>
      if negb (validateChar text) then throw InvalidCharacterData
      else fun h => (update this (with_var (VDtdEntity text)) h, Ok tt)
  | _ => throw InvalidArgument
  end.

Definition ends_with (p s : jsstring) : bool :=
  bool_decide (drop (length s - length p)%nat s = p).

(** Modelled from the spec: the class [XmlComment] is not among the sources.
    Section 3: one validated string, without [--] and not ending in [-]. *)
Definition new_XmlComment (content : jsstring) : M ref :=
  if negb (validateChar content) then throw InvalidCharacterData
  else if contains (js "--") content || ends_with (js "-") content
       then throw InvalidCharacterData
  else alloc (VComment content).

(** Modelled from the spec: the class [XmlCharRef] is not among the sources.
    Section 3: one code point and the flag for hexadecimal; section 4.4: the
    payload is validated by the setter. *)
Definition new_XmlCharRef (char : jsstring) (hex : bool) : M ref :=
  if negb (validateChar char) then throw InvalidCharacterData
  else alloc (VCharRef char hex).

(** Modelled from the spec: the class [XmlEntityRef] is not among the
    sources. Section 3: a validated XML Name. *)
Definition new_XmlEntityRef (entity : jsstring) : M ref :=
  if negb (validateName entity) then throw InvalidName
  else alloc (VEntityRef entity).

(** The lower case of an ASCII letter. *)
Definition lower (c : N) : N :=
  if bool_decide (65 <= c <= 90)%N then (c + 32)%N else c.

(** Modelled from the spec: the class [XmlProcInst] is not among the sources.
    Sections 3 and 7: the target is a validated Name, and not [xml] in any
    case of letters; the content is validated and has no [?>]; both bans are
    [InvalidCharacterData]. *)
Definition new_XmlProcInst (target : jsstring) (content : option jsstring) : M ref :=
  if negb (validateName target) then throw InvalidName
  else if bool_decide (lower <$> target = js "xml") then throw InvalidCharacterData
  else
    match content with
    | Some c =>
        if negb (validateChar c) then throw InvalidCharacterData
        else if contains (js "?>") c then throw InvalidCharacterData
        else alloc (VProcInst target content)
    | None => alloc (VProcInst target content)
    end.

(** The loop of the constructor of an Attribute over an array of values. *)
Fixpoint XmlAttribute_insert_all (this : ref) (items : list item) : M unit :=
  match items with
  | [] => ret tt
  | INode n :: rest =>
      do_ XmlAttribute_insertChild this n None;
      XmlAttribute_insert_all this rest
  | IStr _ :: _ => throw InvalidArgument
  end.

Definition getArray (a : nat) : M (list item) :=
  fun h =>
    match arrays h !! a with
    | Some items => (h, Ok items)
    | None => (h, Throw InvalidArgument)
    end.

(** Modelled from the spec: the class [XmlAttribute] is not among the
    sources. Section 3: a validated Name, and the value given as nodes that
    become its children, in order, by its [insertChild]. *)
Definition new_XmlAttribute (name : jsstring) (value : attrValue) : M ref :=
  if negb (validateName name) then throw InvalidName
  else
    do this <- alloc (VAttribute name);
    do_ match value with
        | AArr a => do items <- getArray a; XmlAttribute_insert_all this items
        | ANode n => do_ XmlAttribute_insertChild this n None; ret tt
        | AStr _ => throw InvalidArgument
        end;
    ret this.

(** ** [XmlElement]: the methods that construct and insert *)

(** [arrayVal[i] = x] *)
Definition setItem (a i : nat) (x : item) : M unit :=
  fun h => (Heap (nodes h) (alter (fun items => <[i := x]> items) a (arrays h)), Ok tt).

(** The loop of [attribute] over the array, [count] iterations from [i]:
    [if (isString(arrayVal[i])) arrayVal[i] = new XmlText(strVal)]. *)
Fixpoint convert_strings (a : nat) (i count : nat) : M unit :=
  match count with
  | O => ret tt
  | S count' =>
      do items <- getArray a;
      do_ match items !! i with
          | Some (IStr strVal) =>
              do t <- new_XmlText strVal;
              setItem a i (INode t)
          | _ => ret tt
          end;
      convert_strings a (S i) count'
  end.

Definition XmlElement_attribute (this : ref) (name : jsstring) (value : attrValue)
    (index : option Z) : M ref :=
  do value <- match value with
              | AStr s => do t <- new_XmlText s; ret (ANode t)
              | AArr a =>
                  do arrayVal <- getArray a;
                  do_ convert_strings a O (length arrayVal);
                  ret (AArr a)
              | ANode n => ret (ANode n)
              end;
  do attribute <- new_XmlAttribute name value;
  do_ XmlElement_insertChild this attribute index;
  ret attribute.

Definition XmlElement_cdata (this : ref) (content : jsstring) (index : option Z) : M ref :=
  do cdata <- new_XmlCdata content;
  do_ XmlElement_insertChild this cdata index;
  ret cdata.

Definition XmlElement_charRef (this : ref) (char : jsstring) (hex : bool)
    (index : option Z) : M ref :=
  do charRef <- new_XmlCharRef char hex;
  do_ XmlElement_insertChild this charRef index;
  ret charRef.

Definition XmlElement_comment (this : ref) (content : jsstring) (index : option Z) : M ref :=
  do comment <- new_XmlComment content;
  do_ XmlElement_insertChild this comment index;
  ret comment.

Definition XmlElement_element (this : ref) (name : jsstring) (index : option Z) : M ref :=
  do element <- new_XmlElement name;
  do_ XmlElement_insertChild this element index;
  ret element.

Definition XmlElement_entityRef (this : ref) (entity : jsstring) (index : option Z) : M ref :=
  do entityRef <- new_XmlEntityRef entity;
  do_ XmlElement_insertChild this entityRef index;
  ret entityRef.

Definition XmlElement_procInst (this : ref) (target : jsstring) (content : option jsstring)
    (index : option Z) : M ref :=
  do procInst <- new_XmlProcInst target content;
  do_ XmlElement_insertChild this procInst index;
  ret procInst.

Definition XmlElement_text (this : ref) (text : jsstring) (index : option Z) : M ref :=
  do txt <- new_XmlText text;
  do_ XmlElement_insertChild this txt index;
  ret txt.

End Construction.

(** ** Serialization *)

(** [node instanceof XmlCharRef || node instanceof XmlEntityRef
    || node instanceof XmlText] *)
Definition same_line_class (v : variant) : bool :=
  match v with
  | VCharRef _ _ | VEntityRef _ | VText _ => true
  | _ => false
  end.

Definition same_line_node (h : heap) (n : ref) : bool :=
  match nodes h !! n with
  | Some nd => same_line_class (var nd)
  | None => false
  end.

Definition allSameLineNodes (h : heap) (nodes : list ref) : bool :=
  forallb (same_line_node h) nodes.

(** The second argument is [undefined] for the first node. *)
Definition onSameLine (h : heap) (prev : ref) (next : option ref) : bool :=
  same_line_node h prev &&
  match next with
  | Some n => same_line_node h n
  | None => false
  end.

(** [XmlCdata.toString] *)
Definition XmlCdata_toString (data : jsstring) (options : StringOptions) : jsstring :=
  js "<![CDATA[" ++ data ++ js "]]>".

(** [const indenter = (line: string) => optionsObj.indent + line] *)
Definition indenter (o : StringOptions) (line : jsstring) : jsstring := indent o ++ line.

(** [nextStr.split(newline).map(indenter).join(newline)] *)
Definition indent_lines (o : StringOptions) (nextStr : jsstring) : jsstring :=
  join (newline o) (indenter o <$> split (newline o) nextStr).

(** The result of a call of [toString]: [None] when the calls nest deeper
    than the fuel allows. *)
Definition rendering := option (outcome jsstring).

Section ElementToString.
Variable render : ref -> rendering.
Variable h : heap.
Variable o : StringOptions.

(** [for (const attribute of attributes) str += " " + attribute.toString(options)] *)
Fixpoint render_attributes (attributes : list ref) (str : jsstring) : rendering :=
  match attributes with
  | [] => Some (Ok str)
  | attribute :: rest =>
      match render attribute with
      | Some (Ok s) => render_attributes rest (str ++ js " " ++ s)
      | failed => failed
      end
  end.

(** [for (let i = 0; i < nodes.length; i++)], [count] iterations from [i]. *)
Fixpoint render_nodes (nodes : list ref) (count i : nat) (str : jsstring) : rendering :=
  match count with
  | O => Some (Ok str)
  | S count' =>
      match nodes !! i with
      | None => Some (Ok str)
      | Some next =>
          match render next with
          | Some (Ok nextStr) =>
              let prev := if bool_decide (0 < i)%nat then nodes !! (i - 1)%nat else None in
              if pretty o && negb (allSameLineNodes h nodes)
                 && negb (bool_decide (0 < i)%nat && onSameLine h next prev)
              then render_nodes nodes count' (S i)
                     ((str ++ newline o) ++ indent_lines o nextStr)
              else render_nodes nodes count' (S i) (str ++ nextStr)
          | failed => failed
          end
      end
  end.

(** [XmlElement.toString] *)
Definition XmlElement_toString (name : jsstring) (children : list ref) : rendering :=
  let attributes := XmlElement_attributes h children in
  let nodes := filter (fun node => indexOf node attributes = None) children in
  match render_attributes attributes (js "<" ++ name) with
  | Some (Ok str) =>
      if bool_decide (0 < length nodes)%nat then
        match render_nodes nodes (length nodes) O (str ++ js ">") with
        | Some (Ok str) =>
            let str :=
              if pretty o && negb (allSameLineNodes h nodes)
              then str ++ newline o else str in
            Some (Ok (str ++ js "</" ++ name ++ js ">"))
        | failed => failed
        end
      else Some (Ok (str ++ js "/>"))
  | failed => failed
  end.

(** The renderings of the children, one after the other. *)
Fixpoint render_all (children : list ref) (str : jsstring) : rendering :=
  match children with
  | [] => Some (Ok str)
  | child :: rest =>
      match render child with
      | Some (Ok s) => render_all rest (str ++ s)
      | failed => failed
      end
  end.

(** Modelled from the spec: the class [XmlAttribute] is not among the
    sources. Section 4.3: the name, [="], the renderings of the children one
    after the other, and ["]. *)
Definition XmlAttribute_toString (name : jsstring) (children : list ref) : rendering :=
  match render_all children (name ++ [61%N; 34%N]) with
  | Some (Ok str) => Some (Ok (str ++ [34%N]))
  | failed => failed
  end.

End ElementToString.

Section Serialization.
Context {markup : LeafMarkup}.

(** Modelled from the spec: the classes other than [XmlNode], [XmlElement]
    and [XmlCdata] are not among the sources; their markup is that of the
    table of section 4.3. *)
Definition leaf_toString (v : variant) : jsstring :=
  match v with
  | VText text => escapeText text
  | VComment content => js "<!--" ++ content ++ js "-->"
  | VProcInst target None => js "<?" ++ target ++ js "?>"
  | VProcInst target (Some content) => js "<?" ++ target ++ js " " ++ content ++ js "?>"
  | VCharRef char true => js "&#x" ++ codePointDigits true char ++ js ";"
  | VCharRef char false => js "&#" ++ codePointDigits false char ++ js ";"
  | VEntityRef entity => js "&" ++ entity ++ js ";"
  | VDtdEntity text => js "<!ENTITY " ++ text ++ js ">"
  | _ => []
  end.

(** [this.toString(options)], dispatched on the class of [this]; the base
    class throws. *)
Fixpoint toString (fuel : nat) (h : heap) (options : StringOptions) (this : ref) : rendering :=
  match fuel with
  | O => None
  | S fuel' =>
      match nodes h !! this with
      | None => Some (Throw InvalidArgument)
      | Some td =>
          match var td with
          | VNode => Some (Throw UnsupportedOperation)
          | VElement name =>
              XmlElement_toString (toString fuel' h options) h options name (children td)
          | VCdata data => Some (Ok (XmlCdata_toString data options))
          | VAttribute name =>
              XmlAttribute_toString (toString fuel' h options) name (children td)
          | v => Some (Ok (leaf_toString v))
          end
      end
  end.

End Serialization.

(** ** The calls of a client and the heaps they lead to *)

Inductive call :=
  | NewXmlNode
  | NewXmlElement (name : jsstring)
  | NewXmlCdata (data : jsstring)
  | NewXmlText (text : jsstring)
  | NewXmlComment (content : jsstring)
  | NewXmlCharRef (char : jsstring) (hex : bool)
  | NewXmlEntityRef (entity : jsstring)
  | NewXmlProcInst (target : jsstring) (content : option jsstring)
  | NewXmlDtdEntity (text : jsstring)
  | NewXmlAttribute (name : jsstring) (value : attrValue)
  | NewArray (items : list item)
  | SetName (this : ref) (name : jsstring)
  | SetData (this : ref) (data : jsstring)
  | SetText (this : ref) (text : jsstring)
  | InsertChild (this node : ref) (index : option Z)
  | RemoveChild (this node : ref)
  | RemoveChildAtIndex (this : ref) (index : Z)
  | Remove (this : ref)
  | Attribute (this : ref) (name : jsstring) (value : attrValue) (index : option Z)
  | Cdata (this : ref) (content : jsstring) (index : option Z)
  | CharRef (this : ref) (char : jsstring) (hex : bool) (index : option Z)
  | Comment (this : ref) (content : jsstring) (index : option Z)
  | Element (this : ref) (name : jsstring) (index : option Z)
  | EntityRef (this : ref) (entity : jsstring) (index : option Z)
  | ProcInst (this : ref) (target : jsstring) (content : option jsstring) (index : option Z)
  | Text (this : ref) (text : jsstring) (index : option Z).

(** A method of [XmlElement] has an [XmlElement] as [this]. *)
Definition on_element {A} (this : ref) (m : M A) : M A :=
  do td <- getNode this;
  match var td with
  | VElement _ => m
  | _ => throw InvalidArgument
  end.

(** [text] is a property of [XmlText] and of [XmlDtdEntity]. *)
Definition set_text {validation : Validation} (this : ref) (text : jsstring) : M unit :=
  do td <- getNode this;
  match var td with
  | VDtdEntity _ => XmlDtdEntity_set_text this text
  | _ => XmlText_set_text this text
  end.

Definition newArray (items : list item) : M nat :=
  fun h => (Heap (nodes h) (arrays h ++ [items]), Ok (length (arrays h))).

(** The heap a call leaves, whether it returns or throws. *)
Definition after {A} (m : M A) (h : heap) : heap := (m h).1.

Definition exec {validation : Validation} (c : call) : heap -> heap :=
  match c with
  | NewXmlNode => after (alloc VNode)
  | NewXmlElement name => after (new_XmlElement name)
  | NewXmlCdata data => after (new_XmlCdata data)
  | NewXmlText text => after (new_XmlText text)
  | NewXmlComment content => after (new_XmlComment content)
  | NewXmlCharRef char hex => after (new_XmlCharRef char hex)
  | NewXmlEntityRef entity => after (new_XmlEntityRef entity)
  | NewXmlProcInst target content => after (new_XmlProcInst target content)
  | NewXmlDtdEntity text => after (new_XmlDtdEntity text)
  | NewXmlAttribute name value => after (new_XmlAttribute name value)
  | NewArray items => after (newArray items)
  | SetName this name => after (XmlElement_set_name this name)
  | SetData this data => after (XmlCdata_set_data this data)
  | SetText this text => after (set_text this text)
  | InsertChild this node index => after (insertChild this node index)
  | RemoveChild this node => after (removeChild this node)
  | RemoveChildAtIndex this index => after (removeChildAtIndex this index)
  | Remove this => after (XmlNode_remove this)
  | Attribute this name value index =>
      after (on_element this (XmlElement_attribute this name value index))
  | Cdata this content index => after (on_element this (XmlElement_cdata this content index))
  | CharRef this char hex index =>
      after (on_element this (XmlElement_charRef this char hex index))
  | Comment this content index =>
      after (on_element this (XmlElement_comment this content index))
  | Element this name index => after (on_element this (XmlElement_element this name index))
  | EntityRef this entity index =>
      after (on_element this (XmlElement_entityRef this entity index))
  | ProcInst this target content index =>
      after (on_element this (XmlElement_procInst this target content index))
  | Text this text index => after (on_element this (XmlElement_text this text index))
  end.

(** The heaps a client can reach from the empty one. *)
Inductive reachable {validation : Validation} : heap -> Prop :=
  | reachable_empty : reachable empty_heap
  | reachable_call h c : reachable h -> reachable (exec c h).

(** ** Reading the tree *)

Definition parent_of (h : heap) (n : ref) : option ref :=
  match nodes h !! n with
  | Some nd => parent nd
  | None => None
  end.

Definition children_of (h : heap) (p : ref) : list ref :=
  match nodes h !! p with
  | Some pd => children pd
  | None => []
  end.

Definition variant_of (h : heap) (n : ref) : option variant :=
  var <$> nodes h !! n.

(** The back-reference of every node agrees with the sequences of children,
    and no sequence has a node twice. *)
Definition consistent (h : heap) : Prop :=
  (forall n p : ref, parent_of h n = Some p <-> n ∈ children_of h p) /\
  (forall p : ref, NoDup (children_of h p)).

(** The classes of the children are those the class of the parent accepts. *)
Definition accepts (parent child : variant) : bool :=
  match parent with
  | VNode => true
  | VElement _ => element_child child
  | VAttribute _ => attribute_child child
  | _ => false
  end.

Definition well_classed (h : heap) : Prop :=
  forall p c : ref,
    c ∈ children_of h p ->
    exists vp vc, variant_of h p = Some vp /\ variant_of h c = Some vc /\
                  accepts vp vc = true.

(** [well_classed], and the classes of some nodes known: [known n k] says
    that [n] is of class [k]. *)
Definition kind_at (h : heap) (n : ref) : option kind := kind_of <$> variant_of h n.

Definition classed (known : ref -> kind -> Prop) (h : heap) : Prop :=
  well_classed h /\ forall n k, known n k -> kind_at h n = Some k.

Definition nothing_known : ref -> kind -> Prop := fun _ _ => False.
Definition known_one (n : ref) (k : kind) : ref -> kind -> Prop :=
  fun n' k' => n' = n /\ k' = k.
Definition known_also (n : ref) (k : kind) (known : ref -> kind -> Prop) :
    ref -> kind -> Prop :=
  fun n' k' => (n' = n /\ k' = k) \/ known n' k'.

(** ** An instance of the validators for the examples *)

(** A code unit that is a legal code point by itself, and the two halves of
    a surrogate pair. *)
Definition legal_unit (c : N) : bool :=
  bool_decide (c = 9 \/ c = 10 \/ c = 13 \/ 32 <= c <= 55295 \/ 57344 <= c <= 65533)%N.
Definition high_surrogate (c : N) : bool := bool_decide (55296 <= c <= 56319)%N.
Definition low_surrogate (c : N) : bool := bool_decide (56320 <= c <= 57343)%N.

(** Modelled from the spec: [src/validate.ts] is not among the sources.
    Section 4.4, [validateChar]: tab, newline, carriage return, and the code
    units from 32 on that are no surrogates and not FFFE or FFFF; a high
    surrogate followed by a low one is a code point from 10000 on. *)
Fixpoint legal_chars (s : jsstring) : bool :=
  match s with
  | [] => true
  | c :: s' =>
      if high_surrogate c then
        match s' with
        | d :: s'' => low_surrogate d && legal_chars s''
        | [] => false
        end
      else legal_unit c && legal_chars s'
  end.

(** The ASCII characters that start a name, and those that continue it. *)
Definition name_start (c : N) : bool :=
  bool_decide (65 <= c <= 90 \/ 97 <= c <= 122 \/ c = 95 \/ c = 58)%N.
Definition name_char (c : N) : bool :=
  name_start c || bool_decide (48 <= c <= 57 \/ c = 46 \/ c = 45)%N.

(** Modelled from the spec: [src/validate.ts] is not among the sources.
    Section 4.4, [validateName], for names of ASCII characters: a letter,
    underscore or colon, then letters, digits, [.], [-], [_] and [:]. (The
    letters and the combining and extender classes beyond ASCII are left out
    of this instance, which only serves the examples.) *)
Definition ascii_name (s : jsstring) : bool :=
  match s with
  | [] => false
  | c :: s' => name_start c && forallb name_char s'
  end.

Definition ascii_validation : Validation :=
  {| validateName := ascii_name; validateChar := legal_chars |}.

(** The text escaping of the examples: [&], [<] and [>] to entities; the
    examples have no character reference, whose digits are left as given. *)
Definition escape_unit (c : N) : jsstring :=
  if bool_decide (c = 38)%N then js "&amp;"
  else if bool_decide (c = 60)%N then js "&lt;"
  else if bool_decide (c = 62)%N then js "&gt;"
  else [c].

Definition plain_markup : LeafMarkup :=
  {| escapeText := fun s => concat (escape_unit <$> s);
     codePointDigits := fun _ char => char |}.

(** The two writes of a removal, and the two writes of an insertion. *)
Definition detach (p : ref) (index : nat) (n : ref) (h : heap) : heap :=
  update p (with_children (delete index)) (update n (with_parent None) h).
Definition attach (p : ref) (index : nat) (n : ref) (h : heap) : heap :=
  update p (with_children (splice_in index n)) (update n (with_parent (Some p)) h).

(** What [insertChild] does to a node before it inserts it: nothing to a
    node without parent, and nothing to a node that its parent does not have
    among its children; a node that its parent has at [j] is removed there. *)
Inductive detached (h : heap) (n : ref) : heap -> Prop :=
  | detached_root : parent_of h n = None -> detached h n h
  | detached_stale q :
      parent_of h n = Some q -> n ∉ children_of h q -> detached h n h
  | detached_from q j :
      parent_of h n = Some q -> children_of h q !! j = Some n ->
      detached h n (detach q j n h).

(** A call keeps a property of the heap, whether it returns or throws. *)
Definition preserves (I : heap -> Prop) {A} (m : M A) : Prop :=
  forall h, I h -> I (after m h).

(** ** The vocabulary of the specification *)

(** The classes an Element may have as children (section 3). *)
Definition element_kinds : list kind :=
  [KAttribute; KCdata; KCharRef; KComment; KElement; KEntityRef; KProcInst; KText].

(** [sub] occurs in [s]. *)
Definition occurs_in (sub s : jsstring) : Prop :=
  exists pre post, s = pre ++ sub ++ post.

(** The children of an Element that are Attributes, and its content nodes:
    the others, both in the order of the children. *)
Definition attribute_nodes (h : heap) (e : ref) : list ref :=
  filter (fun n => is_attribute h n = true) (children_of h e).
Definition content_nodes (h : heap) (e : ref) : list ref :=
  filter (fun n => is_attribute h n = false) (children_of h e).

(** A node is inline-compatible if it is a Character-Reference, an
    Entity-Reference or a Text node (section 4.2). *)
Definition inline_kinds : list kind := [KCharRef; KEntityRef; KText].
Definition inline_compatible (h : heap) (n : ref) : bool :=
  match variant_of h n with
  | Some v => bool_decide (kind_of v ∈ inline_kinds)
  | None => false
  end.

(** The line-break policy in the words of section 4.2, over the content
    nodes given as pairs: is the node inline-compatible, and its rendering.
    Before each content node a newline, and its rendering indented, unless
    the node and the one before it are both inline-compatible. *)
Fixpoint line_breaks (o : StringOptions) (prev_inline : bool)
    (content : list (bool * jsstring)) : jsstring :=
  match content with
  | [] => []
  | (inline, r) :: rest =>
      (if prev_inline && inline then r else newline o ++ indent_lines o r)
      ++ line_breaks o inline rest
  end.

(** All content inline-compatible: the renderings one after the other.
    Otherwise the breaks above, and a newline before the closing tag. *)
Definition pretty_content (o : StringOptions) (content : list (bool * jsstring)) : jsstring :=
  if forallb fst content then concat (snd <$> content)
  else line_breaks o false content ++ newline o.

(** The lines of a string, without reference to [split]: the string is its
    lines with the newline between them, the newline after a line is the
    first one from the start of that line on, and the last line has no
    newline in it. *)
Definition first_at (nl l : jsstring) : Prop :=
  forall pre post, l ++ nl = pre ++ nl ++ post -> pre = l.

Inductive lines_of (nl : jsstring) : jsstring -> list jsstring -> Prop :=
  | lines_last l : ~ occurs_in nl l -> lines_of nl l [l]
  | lines_more l rest ls :
      first_at nl l -> lines_of nl rest ls -> lines_of nl (l ++ nl ++ rest) (l :: ls).

(** Every line after one unit of indentation, the newline between the
    lines. *)
Fixpoint prefixed (ind nl : jsstring) (ls : list jsstring) : jsstring :=
  match ls with
  | [] => []
  | [l] => ind ++ l
  | l :: ls' => ind ++ l ++ nl ++ prefixed ind nl ls'
  end.

(** [ir] is the rendering [r] with each of its lines prefixed with one
    indent unit (section 4.2). With an empty newline there are no lines to
    speak of: every code unit then counts as one. *)
Definition indented (o : StringOptions) (r ir : jsstring) : Prop :=
  match newline o with
  | [] => ir = concat ((fun c => indent o ++ [c]) <$> r)
  | _ :: _ => exists ls, lines_of (newline o) r ls /\ ir = prefixed (indent o) (newline o) ls
  end.

(** The line-break policy of section 4.2 over the content nodes, each given
    by three things: is it inline-compatible, its rendering, and its
    rendering with every line indented. *)
Fixpoint line_breaks_of (nl : jsstring) (prev_inline : bool)
    (content : list (bool * (jsstring * jsstring))) : jsstring :=
  match content with
  | [] => []
  | (inline, (r, ir)) :: rest =>
      (if prev_inline && inline then r else nl ++ ir) ++ line_breaks_of nl inline rest
  end.

Definition pretty_content_of (nl : jsstring)
    (content : list (bool * (jsstring * jsstring))) : jsstring :=
  if forallb fst content then concat ((fun c => c.2.1) <$> content)
  else line_breaks_of nl false content ++ nl.

(** What the loop of [XmlElement.toString] appends from a content node on,
    [break] being [pretty] and not all nodes on the same line. *)
Fixpoint appended (o : StringOptions) (break prev_inline : bool)
    (content : list (bool * jsstring)) : jsstring :=
  match content with
  | [] => []
  | (inline, r) :: rest =>
      (if break && negb (inline && prev_inline)
       then newline o ++ indent_lines o r else r)
      ++ appended o break inline rest
  end.

(** The nodes [ns] render, by [render], to the strings [rs]. *)
Definition renders (render : ref -> rendering) (ns : list ref) (rs : list jsstring) : Prop :=
  Forall2 (fun n r => render n = Some (Ok r)) ns rs.

(** The opening tag up to its end: the name and the Attributes, each after a
    space. *)
Definition open_tag (name : jsstring) (ras : list jsstring) : jsstring :=
  js "<" ++ name ++ concat ((fun r => js " " ++ r) <$> ras).

(** The statements of [attribute] before the insertion: the conversion of
    the strings and [new XmlAttribute(name, value)]. *)
Definition attribute_built {validation : Validation} (name : jsstring) (value : attrValue) :
    M ref :=
  do value <- match value with
              | AStr s => do t <- new_XmlText s; ret (ANode t)
              | AArr a =>
                  do arrayVal <- getArray a;
                  do_ convert_strings a O (length arrayVal);
                  ret (AArr a)
              | ANode n => ret (ANode n)
              end;
  new_XmlAttribute name value.

(** The element [e] has the Attributes [attrs] as children, in this order,
    one of them of name [m] (and its children are nodes). *)
Definition has_attributes (e : ref) (m : jsstring) (attrs : list ref) (h : heap) : Prop :=
  attribute_nodes h e = attrs /\
  (exists a, a ∈ attrs /\ attribute_name h a = Some m) /\
  (forall c, c ∈ children_of h e -> is_Some (nodes h !! c)).

(** The nodes below [n] form a tree of finite depth: the children of [n] do,
    each one. A node that is among its own descendants is not such a tree. *)
Inductive finite_below (h : heap) : ref -> Prop :=
  | finite_below_node n :
      (forall c, c ∈ children_of h n -> finite_below h c) -> finite_below h n.

(** [render'] returns wherever [render] does, and the same. *)
Definition extends_rendering (render render' : ref -> rendering) : Prop :=
  forall n r, render n = Some r -> render' n = Some r.

(** [h] has the arrays of [h0], and its nodes with their classes and
    properties. *)
Definition extends (h0 h : heap) : Prop :=
  arrays h = arrays h0 /\
  forall x v, variant_of h0 x = Some v -> variant_of h x = Some v.

Definition variant_at (x : ref) (v : variant) (h : heap) : Prop :=
  variant_of h x = Some v.

Definition children_at (e : ref) (cs : list ref) (h : heap) : Prop :=
  children_of h e = cs.

(** The payload of a node of a class that is among the sources is one its
    constructor and its setter accept: the name of an Element, the data of a
    CDATA section. *)
Definition legal_payload {validation : Validation} (v : variant) : bool :=
  match v with
  | VElement name => validateName name
  | VCdata data =>
      match XmlCdata_check_data data with
      | Ok _ => true
      | Throw _ => false
      end
  | _ => true
  end.

Definition payloads_legal {validation : Validation} (h : heap) : Prop :=
  forall n v, variant_of h n = Some v -> legal_payload v = true.

(** The nodes given to [attribute] as its value: the node itself, or the
    nodes in the array (a string is no node). *)
Definition value_node (h : heap) (value : attrValue) (n : ref) : Prop :=
  match value with
  | AStr _ => False
  | ANode n' => n = n'
  | AArr a => exists items, arrays h !! a = Some items /\ INode n ∈ items
  end.

(** The element [e] has the children [cs], the heap has at least [bound]
    nodes, and no node in the array [a] is among [cs]. *)
Definition value_outside (bound : nat) (e : ref) (cs : list ref) (a : nat) (h : heap) : Prop :=
  children_of h e = cs /\
  (bound <= length (nodes h))%nat /\
  forall items n, arrays h !! a = Some items -> INode n ∈ items -> n ∉ cs.

(** The content a Processing-Instruction accepts (sections 3 and 7): none,
    or a string that [validateChar] accepts and in which [?>] does not
    occur. *)
Definition content_accepted {validation : Validation} (content : option jsstring) : Prop :=
  match content with
  | None => True
  | Some c => validateChar c = true /\ ~ occurs_in (js "?>") c
  end.

(** The value an Attribute accepts (section 3): a node, or an array of
    nodes, each a Text, a Character-Reference or an Entity-Reference. *)
Definition attribute_node (h : heap) (n : ref) : Prop :=
  exists v, variant_of h n = Some v /\ attribute_child v = true.

Definition value_accepted (h : heap) (value : attrValue) : Prop :=
  match value with
  | AStr _ => False
  | ANode n => attribute_node h n
  | AArr a =>
      exists items, arrays h !! a = Some items /\
                    Forall (fun it => exists n, it = INode n /\ attribute_node h n) items
  end.

(** ** Heaps of the examples *)

(** Indentation by two spaces, lines ended by a line feed. *)
Definition pretty_options : StringOptions :=
  {| indent := js "  "; newline := [10%N]; pretty := true |}.

(** The heap after a sequence of calls, first call first. *)
Definition run {validation : Validation} (calls : list call) : heap :=
  foldl (fun h c => exec c h) empty_heap calls.

(** [a = new XmlElement("a"); a.text("x"); a.element("b")] *)
Definition heap_a_x_b : heap :=
  run (validation := ascii_validation)
    [NewXmlElement (js "a"); Text 0%nat (js "x") None; Element 0%nat (js "b") None].

(** [a = new XmlElement("a"); a.attribute("b", "c")]: the text [c] is the
    node 1, the attribute the node 2. *)
Definition heap_a_attr : heap :=
  run (validation := ascii_validation)
    [NewXmlElement (js "a"); Attribute 0%nat (js "b") (AStr (js "c")) None].

(** [a = new XmlElement("a"); t = new XmlText("x")], not yet related. *)
Definition heap_a_t : heap :=
  run (validation := ascii_validation) [NewXmlElement (js "a"); NewXmlText (js "x")].

(** [a = new XmlElement("a"); a.attribute("b", "c"); a.text("x")]: the text
    [x] is the node 3. *)
Definition heap_a_attr_x : heap :=
  run (validation := ascii_validation)
    [NewXmlElement (js "a"); Attribute 0%nat (js "b") (AStr (js "c")) None;
     Text 0%nat (js "x") None].

(** [a = new XmlElement("a"); a.insertChild(a)] *)
Definition heap_cycle : heap :=
  run (validation := ascii_validation) [NewXmlElement (js "a"); InsertChild 0%nat 0%nat None].

(** [a = new XmlElement("a"); value = ["x", "y"]] *)
Definition heap_a_array : heap :=
  run (validation := ascii_validation)
    [NewXmlElement (js "a"); NewArray [IStr (js "x"); IStr (js "y")]].

(** [p = new XmlNode(); q = new XmlNode(); n = new XmlText("x");
    q.insertChild(n)] *)
Definition heap_p_q_n : heap :=
  run (validation := ascii_validation)
    [NewXmlNode; NewXmlNode; NewXmlText (js "x"); InsertChild 1%nat 2%nat None].

(** [a = new XmlElement("a"); b = a.element("b"); b.element("c")] *)
Definition heap_a_b_c : heap :=
  run (validation := ascii_validation)
    [NewXmlElement (js "a"); Element 0%nat (js "b") None; Element 1%nat (js "c") None].

(** [a = new XmlElement("a"); value = ["x", "\u0001", "y"]] *)
Definition heap_a_array_refused : heap :=
  run (validation := ascii_validation)
    [NewXmlElement (js "a"); NewArray [IStr (js "x"); IStr [1%N]; IStr (js "y")]].

(** * Properties *)

(** ** Strings *)

Lemma starts_with_spec (p s : jsstring) :
  starts_with p s = true <-> exists post, s = p ++ post.
Proof.
  unfold starts_with. rewrite bool_decide_eq_true. split.
  - intros Hp. exists (drop (length p) s).
    rewrite <- Hp at 1. symmetry. apply take_drop.
  - intros [post ->]. by rewrite take_app_length.
Qed.

Lemma contains_spec (sub s : jsstring) :
  contains sub s = true <-> exists pre post, s = pre ++ sub ++ post.
Proof.
  induction s as [|c s IH]; simpl.
  - rewrite orb_false_r, starts_with_spec. split.
    + intros [post Hs]. by exists [], post.
    + intros [pre [post Hs]]. symmetry in Hs.
      apply app_eq_nil in Hs as [-> Hs]. exists post. by rewrite Hs.
  - rewrite orb_true_iff, starts_with_spec, IH. split.
    + intros [[post Hs]|[pre [post Hs]]].
      * by exists [], post.
      * exists (c :: pre), post. by rewrite Hs.
    + intros [pre [post Hs]]. destruct pre as [|c' pre]; simpl in Hs.
      * left. by exists post.
      * right. injection Hs as _ Hs. by exists pre, post.
Qed.

(** The pieces of [split], joined by the separator, are the string. *)
Lemma split_from_skip (sep suffix rest cur : jsstring) :
  split_from sep (length suffix) cur (suffix ++ rest) = split_from sep O cur rest.
Proof. induction suffix as [|c suffix IH]; simpl; [by destruct rest | done]. Qed.

Lemma split_from_nonempty (sep : jsstring) (skip : nat) (cur s : jsstring) :
  split_from sep skip cur s <> [].
Proof.
  revert skip cur. induction s as [|c s IH]; intros skip cur; simpl; [done|].
  destruct skip; [|apply IH]. destruct (starts_with sep (c :: s)); [done | apply IH].
Qed.

Lemma join_cons (sep p : jsstring) (pieces : list jsstring) :
  pieces <> [] -> join sep (p :: pieces) = p ++ sep ++ join sep pieces.
Proof. by destruct pieces. Qed.

Lemma join_split_from (sep : jsstring) (n : nat) (s cur : jsstring) :
  sep <> [] -> (length s <= n)%nat -> join sep (split_from sep O cur s) = cur ++ s.
Proof.
  intros Hsep. revert s cur. induction n as [|n IH]; intros s cur Hlen.
  { destruct s; [simpl; by rewrite app_nil_r | simpl in Hlen; lia]. }
  destruct s as [|c s]; [simpl; by rewrite app_nil_r|].
  cbn [split_from]. destruct (starts_with sep (c :: s)) eqn:Hstart.
  - apply starts_with_spec in Hstart as [post Hpost].
    destruct sep as [|c0 sep']; [done|]. simpl in Hpost. injection Hpost as -> ->.
    cbn [length Nat.pred]. rewrite split_from_skip.
    rewrite join_cons by apply split_from_nonempty.
    rewrite IH by (simpl in Hlen; rewrite length_app in Hlen; lia).
    done.
  - rewrite IH by (simpl in Hlen; lia). by rewrite <- app_assoc.
Qed.

Lemma join_split (sep s : jsstring) : sep <> [] -> join sep (split sep s) = s.
Proof.
  intros Hsep. unfold split. destruct sep as [|c sep']; [done|].
  by rewrite (join_split_from _ (length s)).
Qed.

(** The pieces of [split] are the lines of the string. *)
Lemma first_at_contains (nl l : jsstring) :
  contains nl (l ++ removelast nl) = false -> first_at nl l.
Proof.
  intros Hno pre post Heq.
  destruct post as [|x post _] using rev_ind.
  { rewrite app_nil_r in Heq. by apply app_inv_tail in Heq. }
  exfalso. destruct nl as [|c nl _] using rev_ind.
  { unfold contains in Hno. destruct (l ++ removelast []); done. }
  rewrite removelast_last in Hno.
  rewrite !app_assoc in Heq. apply app_inj_tail in Heq as [Heq _].
  assert (Hocc : contains (nl ++ [c]) (l ++ nl) = true); [|congruence].
  apply (proj2 (contains_spec _ _)). exists pre, post. by rewrite Heq, <- !app_assoc.
Qed.

Lemma split_from_lines (sep : jsstring) (n : nat) (s cur : jsstring) :
  sep <> [] -> (length s <= n)%nat ->
  (forall pre post, cur ++ s = pre ++ sep ++ post -> (length cur <= length pre)%nat) ->
  lines_of sep (cur ++ s) (split_from sep O cur s).
Proof.
  intros Hsep. revert s cur. induction n as [|n IH]; intros s cur Hlen Hinv.
  { destruct s; [|simpl in Hlen; lia]. simpl. rewrite app_nil_r. constructor.
    intros (pre & post & Heq). specialize (Hinv pre post).
    rewrite app_nil_r in Hinv. specialize (Hinv Heq).
    apply (f_equal length) in Heq. rewrite !length_app in Heq.
    destruct sep; [done|]. simpl in Heq. lia. }
  destruct s as [|c s].
  { simpl. rewrite app_nil_r. constructor.
    intros (pre & post & Heq). specialize (Hinv pre post).
    rewrite app_nil_r in Hinv. specialize (Hinv Heq).
    apply (f_equal length) in Heq. rewrite !length_app in Heq.
    destruct sep; [done|]. simpl in Heq. lia. }
  cbn [split_from]. destruct (starts_with sep (c :: s)) eqn:Hstart.
  - apply starts_with_spec in Hstart as [rest Hrest]. rewrite Hrest in Hinv |- *.
    assert (Hskip : split_from sep (Nat.pred (length sep)) [] s = split_from sep O [] rest).
    { destruct sep as [|c0 sep']; [done|]. simpl in Hrest. injection Hrest as -> ->.
      cbn [length Nat.pred]. apply split_from_skip. }
    rewrite Hskip. constructor.
    + intros pre post Heq.
      assert (Hle : (length cur <= length pre)%nat).
      { apply (Hinv pre (post ++ rest)). rewrite !app_assoc. rewrite <- (app_assoc pre).
        rewrite <- Heq. by rewrite <- !app_assoc. }
      assert (Hge : (length pre <= length cur)%nat).
      { apply (f_equal length) in Heq. rewrite !length_app in Heq. lia. }
      assert (Hpost : length post = 0%nat).
      { apply (f_equal length) in Heq. rewrite !length_app in Heq. lia. }
      destruct post; [|done]. rewrite app_nil_r in Heq. by apply app_inv_tail in Heq.
    + apply (IH rest []).
      * apply (f_equal length) in Hrest. rewrite length_app in Hrest. simpl in Hrest.
        simpl in Hlen. destruct sep; [done|]. simpl in Hrest. lia.
      * intros pre post _. simpl. lia.
  - replace (cur ++ c :: s) with ((cur ++ [c]) ++ s) by by rewrite <- app_assoc.
    apply IH; [simpl in Hlen; lia|].
    intros pre post Heq. rewrite <- app_assoc in Heq. simpl in Heq.
    pose proof (Hinv pre post Heq) as Hle. rewrite length_app. simpl.
    destruct (decide (length pre = length cur)) as [Hpre|]; [|lia].
    exfalso. apply app_inj_1 in Heq as [_ Heq]; [|done].
    assert (Hs : starts_with sep (c :: s) = true); [|congruence].
    apply starts_with_spec. by exists post.
Qed.

Lemma split_lines (sep s : jsstring) : sep <> [] -> lines_of sep s (split sep s).
Proof.
  intros Hsep. unfold split. destruct sep as [|c sep'] eqn:Hc; [done|]. rewrite <- Hc in *.
  apply (split_from_lines sep (length s) s []); [by subst | done|].
  intros pre post _. simpl. lia.
Qed.

Lemma lines_of_unique (nl s : jsstring) (ls1 ls2 : list jsstring) :
  lines_of nl s ls1 -> lines_of nl s ls2 -> ls1 = ls2.
Proof.
  intros H1. revert ls2. induction H1 as [l Hno|l rest ls Hfirst Hrest IH]; intros ls2 H2.
  - inversion H2 as [l' Hno' Hl|l' rest' ls' Hfirst' Hrest' Hl]; [done|].
    exfalso. apply Hno. exists l', rest'. by subst.
  - inversion H2 as [l' Hno' Hl|l' rest' ls' Hfirst' Hrest' Hl]; subst.
    { exfalso. apply Hno'. by exists l, rest. }
    assert (Hll : l' = l).
    { rewrite !app_assoc in Hl. apply app_eq_inv in Hl as [(k & Hk & _)|(k & Hk & _)].
      - symmetry. apply (Hfirst' l k). by rewrite Hk, <- app_assoc.
      - apply (Hfirst l' k). by rewrite Hk, <- app_assoc. }
    subst l'. apply app_inv_head in Hl. apply app_inv_head in Hl. subst rest'.
    f_equal. by apply IH.
Qed.

(** ** The monad *)

Lemma bind_ok {A B} (m : M A) (k : A -> M B) h h1 a :
  m h = (h1, Ok a) -> bind m k h = k a h1.
Proof. unfold bind. by intros ->. Qed.

Lemma bind_throw {A B} (m : M A) (k : A -> M B) h h1 e :
  m h = (h1, Throw e) -> bind m k h = (h1, Throw e).
Proof. unfold bind. by intros ->. Qed.

Lemma getNode_some n nd h : nodes h !! n = Some nd -> getNode n h = (h, Ok nd).
Proof. unfold getNode. by intros ->. Qed.

Lemma getNode_none n h : nodes h !! n = None -> getNode n h = (h, Throw InvalidArgument).
Proof. unfold getNode. by intros ->. Qed.

(** ** The classes an Element accepts (C5) *)

Lemma has_attribute_named_false h name cs :
  (forall a, a ∈ cs -> attribute_name h a <> Some name) ->
  has_attribute_named h name (XmlElement_attributes h cs) = false.
Proof.
  intros Hno. unfold has_attribute_named, XmlElement_attributes.
  apply not_true_is_false. intros Hex.
  apply existsb_exists in Hex as [a [Ha Hname]].
  apply list_elem_of_In, list_elem_of_filter in Ha as [_ Ha].
  apply bool_decide_eq_true in Hname. by apply (Hno a).
Qed.

Lemma element_kinds_spec (v : variant) :
  kind_of v ∈ element_kinds <-> element_child v = true.
Proof.
  unfold element_kinds. rewrite list_elem_of_In.
  destruct v; simpl; intuition discriminate.
Qed.

(** C5: [insertChild] of an Element throws [InvalidArgument] for a node whose
    class is not one of Attribute, CDATA, Character-Reference, Comment,
    Element, Entity-Reference, Processing-Instruction and Text; for a node of
    one of these classes (for an Attribute: when no child of the element is an
    Attribute of the same name) it is the insertion of the base class. *)
Theorem C5_element_insertChild_classes
    (h : heap) (e n : ref) (ename : jsstring) (nd : node) (i : option Z) :
  variant_of h e = Some (VElement ename) ->
  nodes h !! n = Some nd ->
  (kind_of (var nd) ∉ element_kinds ->
   XmlElement_insertChild e n i h = (h, Throw InvalidArgument)) /\
  (kind_of (var nd) ∈ element_kinds ->
   (forall name a, var nd = VAttribute name -> a ∈ children_of h e ->
                   attribute_name h a <> Some name) ->
   XmlElement_insertChild e n i h = XmlNode_insertChild e n i h).
Proof.
  unfold variant_of. intros He Hn.
  destruct (nodes h !! e) as [td|] eqn:Htd; [|done].
  unfold XmlElement_insertChild, children_of.
  rewrite Hn, Htd, element_kinds_spec. split.
  - intros Hclass. apply not_true_is_false in Hclass. by rewrite Hclass.
  - intros Hclass Hnames. rewrite Hclass. simpl.
    destruct (var nd) eqn:Hv; try reflexivity.
    rewrite has_attribute_named_false; [done|]. intros a Ha. by apply Hnames.
Qed.

Lemma C5_element_insertChild_classes_witness :
  variant_of heap_a_t 0%nat = Some (VElement (js "a")) /\
  XmlElement_insertChild 0%nat 1%nat None heap_a_t
  = XmlNode_insertChild 0%nat 1%nat None heap_a_t.
Proof.
  split; [reflexivity|].
  refine (proj2 (C5_element_insertChild_classes heap_a_t 0%nat 1%nat (js "a")
                   (Node (VText (js "x")) None []) None _ _) _ _).
  - reflexivity.
  - reflexivity.
  - by apply element_kinds_spec.
  - intros name a Hv. discriminate Hv.
Defined.

(** ** Reading the heap after a write *)

Lemma nodes_update n f h m :
  nodes (update n f h) !! m
  = if decide (n = m) then f <$> nodes h !! m else nodes h !! m.
Proof.
  unfold update. simpl. destruct (decide (n = m)) as [->|Hne].
  - apply list_lookup_alter_eq.
  - by apply list_lookup_alter_ne.
Qed.

Lemma nodes_alloc v h m :
  nodes (alloc v h).1 !! m
  = if decide (m = length (nodes h)) then Some (Node v None []) else nodes h !! m.
Proof.
  unfold alloc. simpl. destruct (decide (m = length (nodes h))) as [->|Hne].
  - by apply list_lookup_middle.
  - destruct (decide (m < length (nodes h))%nat) as [Hlt|Hge].
    + by apply lookup_app_l.
    + rewrite (lookup_ge_None_2 (nodes h)) by lia.
      apply lookup_ge_None_2. rewrite length_app. simpl. lia.
Qed.

Lemma alloc_eq v h : alloc v h = ((alloc v h).1, Ok (length (nodes h))).
Proof. reflexivity. Qed.

(** ** CDATA sections (C8) *)

Section Cdata.
Context {validation : Validation} {markup : LeafMarkup}.

Lemma XmlCdata_check_data_spec (d : jsstring) :
  (XmlCdata_check_data d = Throw InvalidCharacterData /\
   (validateChar d = false \/ occurs_in (js "]]>") d)) \/
  (XmlCdata_check_data d = Ok tt /\
   ~ (validateChar d = false \/ occurs_in (js "]]>") d)).
Proof.
  unfold XmlCdata_check_data, occurs_in.
  destruct (validateChar d) eqn:Hchar; cbn [negb].
  - destruct (contains (js "]]>") d) eqn:Hsub.
    + left. split; [done|]. right. by apply (proj1 (contains_spec _ _)).
    + right. split; [done|]. intros [Hf|Hocc]; [done|].
      apply (proj2 (contains_spec _ _)) in Hocc. congruence.
  - left. split; [done|]. by left.
Qed.

(** C8: the constructor of a CDATA node and its [data] setter throw
    [InvalidCharacterData] exactly for a string that [validateChar] rejects or
    in which the closing sequence occurs; for any other string the node then
    holds that string, and [toString] gives it between the two delimiters
    whatever the options. The constructor does so in every heap, the empty
    one included; the setter on every CDATA node. *)
Theorem C8_cdata_data (d : jsstring) (h : heap) :
  let illegal := validateChar d = false \/ occurs_in (js "]]>") d in
  ((exists h', new_XmlCdata d h = (h', Throw InvalidCharacterData)) <-> illegal) /\
  (~ illegal ->
   forall (o : StringOptions) (fuel : nat),
     exists h' c,
       new_XmlCdata d h = (h', Ok c) /\
       XmlCdata_get_data c h' = (h', Ok d) /\
       toString (S fuel) h' o c = Some (Ok (js "<![CDATA[" ++ d ++ js "]]>"))) /\
  (forall (this : ref) (old : jsstring),
     variant_of h this = Some (VCdata old) ->
     ((exists h', XmlCdata_set_data this d h = (h', Throw InvalidCharacterData))
      <-> illegal) /\
     (~ illegal ->
      forall (o : StringOptions) (fuel : nat),
        exists h',
          XmlCdata_set_data this d h = (h', Ok tt) /\
          XmlCdata_get_data this h' = (h', Ok d) /\
          toString (S fuel) h' o this = Some (Ok (js "<![CDATA[" ++ d ++ js "]]>")))).
Proof.
  intros illegal.
  assert (Hnew : new_XmlCdata d h =
                 match XmlCdata_check_data d with
                 | Throw e => (h, Throw e)
                 | Ok _ => alloc (VCdata d) h
                 end).
  { unfold new_XmlCdata. by destruct (XmlCdata_check_data d). }
  assert (Hset : forall this td,
            nodes h !! this = Some td -> (exists old, var td = VCdata old) ->
            XmlCdata_set_data this d h =
            match XmlCdata_check_data d with
            | Throw e => (h, Throw e)
            | Ok _ => (update this (with_var (VCdata d)) h, Ok tt)
            end).
  { intros this td Htd [old Hvar]. unfold XmlCdata_set_data.
    rewrite (bind_ok _ _ h h td) by by apply getNode_some.
    rewrite Hvar. by destruct (XmlCdata_check_data d). }
  rewrite Hnew. split; [|split].
  - destruct (XmlCdata_check_data_spec d) as [[-> Hill]|[-> Hleg]].
    + split; [done|]. by eexists.
    + split; [|done]. intros [h' Heq]. rewrite alloc_eq in Heq. congruence.
  - intros Hleg o fuel.
    destruct (XmlCdata_check_data_spec d) as [[_ Hill]|[-> _]]; [done|].
    exists (alloc (VCdata d) h).1, (length (nodes h)). split; [done|].
    assert (Hc : nodes (alloc (VCdata d) h).1 !! length (nodes h)
                 = Some (Node (VCdata d) None [])).
    { rewrite nodes_alloc. by rewrite decide_True. }
    split.
    + unfold XmlCdata_get_data. by rewrite (bind_ok _ _ _ _ _ (getNode_some _ _ _ Hc)).
    + cbn [toString]. by rewrite Hc.
  - intros this old Hthis. unfold variant_of in Hthis.
    destruct (nodes h !! this) as [td|] eqn:Htd; [|done].
    injection Hthis as Hvar. rewrite (Hset this td Htd) by eauto.
    destruct (XmlCdata_check_data_spec d) as [[-> Hill]|[-> Hleg]].
    + split; [|done]. split; [done|]. by eexists.
    + split; [split; [|done]; intros [h' Heq]; congruence|].
      intros _ o fuel.
      exists (update this (with_var (VCdata d)) h). split; [done|].
      assert (Hc : nodes (update this (with_var (VCdata d)) h) !! this
                   = Some (with_var (VCdata d) td)).
      { rewrite nodes_update, decide_True by done. by rewrite Htd. }
      split.
      * unfold XmlCdata_get_data. by rewrite (bind_ok _ _ _ _ _ (getNode_some _ _ _ Hc)).
      * cbn [toString]. by rewrite Hc.
Qed.

End Cdata.

Lemma C8_cdata_data_witness :
  (exists h', new_XmlCdata (validation := ascii_validation) (js "a]]>b") empty_heap
              = (h', Throw InvalidCharacterData)) /\
  (exists h' c,
     new_XmlCdata (validation := ascii_validation) (js "x") empty_heap = (h', Ok c) /\
     toString (markup := plain_markup) 1 h' pretty_options c
     = Some (Ok (js "<![CDATA[x]]>"))) /\
  (exists h',
     XmlCdata_set_data (validation := ascii_validation) 0%nat (js "y")
       (run (validation := ascii_validation) [NewXmlCdata (js "x")]) = (h', Ok tt) /\
     toString (markup := plain_markup) 1 h' pretty_options 0%nat
     = Some (Ok (js "<![CDATA[y]]>"))).
Proof.
  assert (Hlegal : forall d : jsstring,
            validateChar (Validation := ascii_validation) d = true ->
            contains (js "]]>") d = false ->
            ~ (validateChar (Validation := ascii_validation) d = false
               \/ occurs_in (js "]]>") d)).
  { intros d Hd Hno [Hf|Hocc]; [congruence|].
    apply (proj2 (contains_spec _ _)) in Hocc. congruence. }
  split; [|split].
  - apply (proj1 (C8_cdata_data (validation := ascii_validation) (markup := plain_markup)
                    (js "a]]>b") empty_heap)).
    right. by exists (js "a"), (js "b").
  - destruct (proj1 (proj2 (C8_cdata_data (validation := ascii_validation)
                              (markup := plain_markup) (js "x") empty_heap))
                (Hlegal (js "x") eq_refl eq_refl) pretty_options 0%nat)
      as (h' & c & Hnew & _ & Hstr).
    by exists h', c.
  - destruct (proj2 (proj2 (C8_cdata_data (validation := ascii_validation)
                              (markup := plain_markup) (js "y")
                              (run (validation := ascii_validation) [NewXmlCdata (js "x")])))
                0%nat (js "x") eq_refl) as [_ Hset].
    destruct (Hset (Hlegal (js "y") eq_refl eq_refl) pretty_options 0%nat)
      as (h' & Heq & _ & Hstr).
    by exists h'.
Defined.

(** ** [indexOf] *)

Lemma indexOf_None (n : ref) (cs : list ref) : indexOf n cs = None <-> n ∉ cs.
Proof.
  induction cs as [|c cs IH]; simpl.
  - split; [intros _; apply not_elem_of_nil | done].
  - rewrite not_elem_of_cons. destruct (decide (c = n)) as [->|Hne].
    + split; [done | intros [? _]; done].
    + destruct (indexOf n cs); simpl.
      * split; [done|]. intros [_ Hn]. by apply IH in Hn.
      * split; [|done]. intros _. split; [done | by apply IH].
Qed.

Lemma indexOf_Some (n : ref) (cs : list ref) (i : nat) :
  indexOf n cs = Some i -> cs !! i = Some n.
Proof.
  revert i. induction cs as [|c cs IH]; simpl; intros i; [done|].
  destruct (decide (c = n)) as [->|Hne].
  - by intros [= <-].
  - destruct (indexOf n cs) as [j|]; simpl; [|done].
    intros [= <-]. simpl. by apply IH.
Qed.

Lemma indexOf_elem (n : ref) (cs : list ref) : n ∈ cs -> is_Some (indexOf n cs).
Proof.
  intros Hin. destruct (indexOf n cs) eqn:Hi; [by eexists|].
  by apply indexOf_None in Hi.
Qed.

(** ** Serialization of an Element (C1, C6) *)

Lemma filter_ext_elem {A} (P Q : A -> Prop) `{!forall x, Decision (P x)}
    `{!forall x, Decision (Q x)} (l : list A) :
  (forall x, x ∈ l -> (P x <-> Q x)) -> filter P l = filter Q l.
Proof.
  induction l as [|x l IH]; intros Hext; [done|].
  rewrite !filter_cons. rewrite IH by (intros y Hy; apply Hext; by right).
  destruct (decide (P x)) as [HP|HP], (decide (Q x)) as [HQ|HQ]; try done;
    exfalso; apply (Hext x) in HP || apply (Hext x) in HQ; done || by left.
Qed.

(** The two filters of [toString] give the Attributes and the content. *)
Lemma toString_nodes (h : heap) (cs : list ref) :
  filter (fun node => indexOf node (XmlElement_attributes h cs) = None) cs
  = filter (fun n => is_attribute h n = false) cs.
Proof.
  apply filter_ext_elem. intros n Hn. rewrite indexOf_None.
  unfold XmlElement_attributes. rewrite list_elem_of_filter.
  destruct (is_attribute h n); split; try done.
  - intros Hno. exfalso. by apply Hno.
  - intros _ [? _]. done.
Qed.

Lemma inline_compatible_same_line (h : heap) (n : ref) :
  inline_compatible h n = same_line_node h n.
Proof.
  unfold inline_compatible, same_line_node, variant_of.
  destruct (nodes h !! n) as [nd|]; [|done]. cbn [fmap option_fmap option_map].
  unfold inline_kinds. destruct (var nd); cbn [kind_of same_line_class];
    (apply bool_decide_eq_true; by apply list_elem_of_In; simpl; auto)
    || (apply bool_decide_eq_false; rewrite list_elem_of_In; simpl;
        intuition discriminate).
Qed.

Section ElementRendering.
Variable render : ref -> rendering.
Variable h : heap.
Variable o : StringOptions.

Lemma render_attributes_ok (attrs : list ref) (ras : list jsstring) (str : jsstring) :
  renders render attrs ras ->
  render_attributes render attrs str
  = Some (Ok (str ++ concat ((fun r => js " " ++ r) <$> ras))).
Proof.
  intros Hr. revert str. induction Hr as [|a r attrs ras Ha _ IH]; intros str; simpl.
  - by rewrite app_nil_r.
  - rewrite Ha, IH. by rewrite <- !app_assoc.
Qed.

Lemma render_nodes_ok (nodes rest pre : list ref) (rs : list jsstring) (str : jsstring) :
  nodes = pre ++ rest ->
  renders render rest rs ->
  render_nodes render h o nodes (length rest) (length pre) str
  = Some (Ok (str ++ appended o (pretty o && negb (allSameLineNodes h nodes))
                       (match last pre with
                        | Some p => same_line_node h p
                        | None => false
                        end)
                       (zip (same_line_node h <$> rest) rs))).
Proof.
  intros Hnodes Hr. revert pre str Hnodes.
  induction Hr as [|c r rest rs Hc _ IH]; intros pre str Hnodes.
  - simpl. by rewrite app_nil_r.
  - cbn [length render_nodes]. subst nodes.
    rewrite list_lookup_middle by done. rewrite Hc.
    set (brk := pretty o && negb (allSameLineNodes h (pre ++ c :: rest))).
    assert (Hprev : bool_decide (0 < length pre)%nat
                    && onSameLine h c
                         (if bool_decide (0 < length pre)%nat
                          then (pre ++ c :: rest) !! (length pre - 1)%nat else None)
                    = same_line_node h c
                      && match last pre with
                         | Some p => same_line_node h p
                         | None => false
                         end).
    { destruct pre as [|p0 pre0] using rev_ind.
      - simpl. by rewrite andb_false_r.
      - rewrite last_snoc, length_app. simpl.
        rewrite bool_decide_eq_true_2 by lia. simpl.
        replace (length pre0 + 1 - 1)%nat with (length pre0) by lia.
        rewrite <- app_assoc. simpl. rewrite list_lookup_middle by done.
        done. }
    rewrite Hprev. clear Hprev.
    assert (Hassoc : pre ++ c :: rest = (pre ++ [c]) ++ rest)
      by by rewrite <- app_assoc.
    assert (Hlen : S (length pre) = length (pre ++ [c]))
      by (rewrite length_app; simpl; lia).
    cbn [fmap list_fmap zip zip_with appended]. fold brk.
    destruct (brk && negb (same_line_node h c
                && match last pre with Some p => same_line_node h p | None => false end)).
    + rewrite Hlen, (IH (pre ++ [c])) by done. rewrite last_snoc.
      unfold brk. rewrite Hassoc. by rewrite <- !app_assoc.
    + rewrite Hlen, (IH (pre ++ [c])) by done. rewrite last_snoc.
      unfold brk. rewrite Hassoc. by rewrite <- !app_assoc.
Qed.

End ElementRendering.

Lemma appended_no_break (o : StringOptions) (prev : bool) (content : list (bool * jsstring)) :
  appended o false prev content = concat (snd <$> content).
Proof.
  revert prev. induction content as [|[inl r] content IH]; intros prev; [done|].
  simpl. by rewrite IH.
Qed.

Lemma appended_break (o : StringOptions) (prev : bool) (content : list (bool * jsstring)) :
  appended o true prev content = line_breaks o prev content.
Proof.
  revert prev. induction content as [|[inl r] content IH]; intros prev; [done|].
  cbn [appended line_breaks]. rewrite IH, (andb_comm inl prev).
  by destruct (prev && inl).
Qed.


Lemma forallb_fst_zip {A} (f : ref -> bool) (ns : list ref) (rs : list A) :
  length ns = length rs -> forallb fst (zip (f <$> ns) rs) = forallb f ns.
Proof.
  revert rs. induction ns as [|n ns IH]; intros [|r rs] Hlen; try done.
  simpl in *. rewrite IH by lia. done.
Qed.


(** What [XmlElement.toString] returns when the children render. *)
Lemma XmlElement_toString_ok (render : ref -> rendering) (h : heap) (o : StringOptions)
    (name : jsstring) (cs : list ref) (ras rs : list jsstring) :
  let content := filter (fun n => is_attribute h n = false) cs in
  let break := pretty o && negb (allSameLineNodes h content) in
  renders render (XmlElement_attributes h cs) ras ->
  renders render content rs ->
  XmlElement_toString render h o name cs
  = Some (Ok (match content with
              | [] => open_tag name ras ++ js "/>"
              | _ :: _ =>
                  open_tag name ras ++ js ">"
                  ++ appended o break false (zip (same_line_node h <$> content) rs)
                  ++ (if break then newline o else [])
                  ++ js "</" ++ name ++ js ">"
              end)).
Proof.
  intros content break Hattrs Hcontent. unfold XmlElement_toString.
  rewrite toString_nodes. fold content.
  rewrite (render_attributes_ok _ _ ras) by done.
  destruct content as [|c content'] eqn:Hc.
  - rewrite bool_decide_eq_false_2 by (simpl; lia).
    unfold open_tag. by rewrite <- !app_assoc.
  - rewrite bool_decide_eq_true_2 by (simpl; lia).
    rewrite (render_nodes_ok render h o (c :: content') (c :: content') [] rs) by done.
    cbn [last]. fold break. unfold open_tag.
    destruct break; rewrite <- ?app_assoc; [done|]. by rewrite app_nil_l.
Qed.

(** [indent_lines] puts one indent unit before every line. *)
Lemma join_indenter_prefixed (o : StringOptions) (ls : list jsstring) :
  join (newline o) (indenter o <$> ls) = prefixed (indent o) (newline o) ls.
Proof.
  induction ls as [|l ls IH]; [done|]. destruct ls as [|l' ls]; [done|].
  rewrite fmap_cons, join_cons by done. rewrite IH. unfold indenter.
  cbn [prefixed]. by rewrite <- app_assoc.
Qed.

Lemma indented_lines (o : StringOptions) (r ir : jsstring) :
  newline o <> [] ->
  indented o r ir <->
  exists ls, lines_of (newline o) r ls /\ ir = prefixed (indent o) (newline o) ls.
Proof. unfold indented. by destruct (newline o). Qed.

Lemma indented_units (o : StringOptions) (r ir : jsstring) :
  newline o = [] ->
  indented o r ir <-> ir = concat ((fun c => indent o ++ [c]) <$> r).
Proof. unfold indented. by intros ->. Qed.

Lemma indent_lines_indented (o : StringOptions) (r : jsstring) :
  indented o r (indent_lines o r).
Proof.
  destruct (decide (newline o = [])) as [Hnl|Hnl].
  - apply indented_units; [done|]. unfold indent_lines. rewrite Hnl. unfold split.
    induction r as [|c r IH]; [done|]. destruct r as [|c' r]; [simpl; by rewrite app_nil_r|].
    rewrite !fmap_cons, join_cons by done. rewrite !fmap_cons in IH. rewrite IH.
    unfold indenter. by rewrite app_nil_l.
  - apply indented_lines; [done|]. exists (split (newline o) r).
    split; [by apply split_lines|]. apply join_indenter_prefixed.
Qed.

Lemma indented_unique (o : StringOptions) (r ir ir' : jsstring) :
  indented o r ir -> indented o r ir' -> ir = ir'.
Proof.
  destruct (decide (newline o = [])) as [Hnl|Hnl].
  - rewrite !indented_units by done. congruence.
  - rewrite !indented_lines by done. intros (ls & Hls & ->) (ls' & Hls' & ->).
    by rewrite (lines_of_unique _ _ _ _ Hls Hls').
Qed.

Lemma line_breaks_of_indent_lines (o : StringOptions) (prev : bool) (inl : list bool)
    (rs : list jsstring) :
  line_breaks_of (newline o) prev (zip inl (zip rs (indent_lines o <$> rs)))
  = line_breaks o prev (zip inl rs).
Proof.
  revert prev inl. induction rs as [|r rs IH]; intros prev [|i inl]; try done.
  cbn [fmap list_fmap zip zip_with line_breaks_of line_breaks]. by rewrite IH.
Qed.

Lemma pretty_content_of_indent_lines (o : StringOptions) (inl : list bool)
    (rs : list jsstring) :
  pretty_content_of (newline o) (zip inl (zip rs (indent_lines o <$> rs)))
  = pretty_content o (zip inl rs).
Proof.
  unfold pretty_content_of, pretty_content. rewrite line_breaks_of_indent_lines.
  assert (Hall : forall inl, forallb fst (zip inl (zip rs (indent_lines o <$> rs)))
                             = forallb fst (zip inl rs)).
  { induction rs as [|r rs IH]; intros [|i inl']; try done.
    cbn [fmap list_fmap zip zip_with forallb fst]. f_equal. apply IH. }
  assert (Hcat : forall inl, concat ((fun c : bool * (jsstring * jsstring) => c.2.1)
                                     <$> zip inl (zip rs (indent_lines o <$> rs)))
                             = concat (snd <$> zip inl rs)).
  { clear Hall. induction rs as [|r rs IH]; intros [|i inl']; try done.
    cbn [fmap list_fmap zip zip_with concat fst snd]. f_equal. apply IH. }
  by rewrite Hall, Hcat.
Qed.

Section ElementSerialization.
Context {markup : LeafMarkup}.

Lemma toString_element (fuel : nat) (h : heap) (o : StringOptions) (e : ref) (name : jsstring) :
  variant_of h e = Some (VElement name) ->
  toString (S fuel) h o e
  = XmlElement_toString (toString fuel h o) h o name (children_of h e).
Proof.
  unfold variant_of, children_of. cbn [toString].
  destruct (nodes h !! e) as [ed|]; [|done]. intros [= ->]. done.
Qed.

(** C1: with [pretty] set, an Element with at least one content node renders
    its content by the line-break policy: all content nodes inline-compatible
    (Character-Reference, Entity-Reference, Text), no newline and no indent
    around the content; otherwise a newline before each content node, whose
    lines are each prefixed with one indent unit, except that nothing is put
    before a node that is inline-compatible as the node before it is; and a
    newline before the closing tag exactly when not all are
    inline-compatible. The lines of a rendering are given by [lines_of], which
    does not refer to the functions of the program. *)
Theorem C1_line_break_policy (fuel : nat) (h : heap) (o : StringOptions) (e : ref)
    (name : jsstring) (ras rs : list jsstring) :
  variant_of h e = Some (VElement name) ->
  content_nodes h e <> [] ->
  pretty o = true ->
  renders (toString fuel h o) (attribute_nodes h e) ras ->
  renders (toString fuel h o) (content_nodes h e) rs ->
  exists irs,
    Forall2 (indented o) rs irs /\
    toString (S fuel) h o e
    = Some (Ok (open_tag name ras ++ js ">"
                ++ pretty_content_of (newline o)
                     (zip (inline_compatible h <$> content_nodes h e) (zip rs irs))
                ++ js "</" ++ name ++ js ">")).
Proof.
  intros He Hne Hpretty Hattrs Hcontent.
  exists (indent_lines o <$> rs). split.
  { clear. induction rs; constructor; [apply indent_lines_indented | done]. }
  rewrite pretty_content_of_indent_lines.
  rewrite (toString_element _ _ _ _ name) by done.
  rewrite (XmlElement_toString_ok _ _ _ _ _ ras rs) by done.
  fold (content_nodes h e). destruct (content_nodes h e) as [|c cs] eqn:Hc; [done|].
  rewrite <- Hc in *. clear Hc Hne.
  assert (Hlen : length (content_nodes h e) = length rs) by by eapply Forall2_length.
  replace (inline_compatible h <$> content_nodes h e)
    with (same_line_node h <$> content_nodes h e)
    by (apply list_fmap_ext; intros; by rewrite inline_compatible_same_line).
  unfold pretty_content. rewrite forallb_fst_zip by done.
  unfold allSameLineNodes. rewrite Hpretty. cbn [andb].
  destruct (forallb (same_line_node h) (content_nodes h e)); cbn [negb].
  - rewrite appended_no_break. by rewrite app_nil_l.
  - rewrite appended_break. by rewrite <- !app_assoc.
Qed.


End ElementSerialization.

Lemma C1_line_break_policy_witness :
  toString (markup := plain_markup) 3 heap_a_b_c pretty_options 0%nat
  = Some (Ok (js "<a>" ++ [10%N] ++ js "  <b>" ++ [10%N] ++ js "    <c/>" ++ [10%N]
              ++ js "  </b>" ++ [10%N] ++ js "</a>")).
Proof.
  destruct (C1_line_break_policy (markup := plain_markup) 2 heap_a_b_c pretty_options 0%nat
              (js "a") [] [js "<b>" ++ [10%N] ++ js "  <c/>" ++ [10%N] ++ js "</b>"])
    as (irs & Hirs & Heq).
  - reflexivity.
  - vm_compute. discriminate.
  - reflexivity.
  - vm_compute. constructor.
  - vm_compute. repeat constructor.
  - apply Forall2_cons_inv_l in Hirs as (ir & irs' & Hir & Hnil & ->).
    apply Forall2_nil_inv_l in Hnil as ->.
    assert (Hlines : indented pretty_options
                       (js "<b>" ++ [10%N] ++ js "  <c/>" ++ [10%N] ++ js "</b>")
                       (js "  <b>" ++ [10%N] ++ js "    <c/>" ++ [10%N] ++ js "  </b>")).
    { apply indented_lines; [done|].
      exists [js "<b>"; js "  <c/>"; js "</b>"]. split; [|reflexivity].
      apply (lines_more [10%N] (js "<b>")); [by apply first_at_contains|].
      apply (lines_more [10%N] (js "  <c/>")); [by apply first_at_contains|].
      apply lines_last. intros Hocc. by apply (proj2 (contains_spec _ _)) in Hocc. }
    rewrite (indented_unique _ _ _ _ Hir Hlines) in Heq. rewrite Heq. reflexivity.
Defined.



(** ** The tree after a removal and after an insertion *)

Lemma elem_of_splice_in (i : nat) (n x : ref) (cs : list ref) :
  x ∈ splice_in i n cs <-> x = n \/ x ∈ cs.
Proof.
  assert (Hcs : x ∈ cs <-> x ∈ take i cs \/ x ∈ drop i cs)
    by by rewrite <- elem_of_app, take_drop.
  unfold splice_in. rewrite elem_of_app, elem_of_cons, Hcs. tauto.
Qed.

Lemma splice_in_Permutation (i : nat) (n : ref) (cs : list ref) :
  splice_in i n cs ≡ₚ n :: cs.
Proof.
  unfold splice_in. rewrite <- Permutation_middle. by rewrite take_drop.
Qed.

Lemma NoDup_splice_in (i : nat) (n : ref) (cs : list ref) :
  n ∉ cs -> NoDup cs -> NoDup (splice_in i n cs).
Proof.
  intros Hn Hcs. rewrite splice_in_Permutation. by constructor.
Qed.

Lemma elem_of_delete_NoDup (i : nat) (n x : ref) (cs : list ref) :
  NoDup cs -> cs !! i = Some n -> x ∈ delete i cs <-> x ∈ cs /\ x <> n.
Proof.
  intros Hnd Hi. rewrite delete_take_drop.
  assert (Hcs : x ∈ cs <-> x ∈ take i cs \/ x = n \/ x ∈ drop (S i) cs).
  { rewrite <- elem_of_cons, <- elem_of_app. by rewrite take_drop_middle. }
  rewrite <- (take_drop_middle cs i n Hi) in Hnd.
  apply NoDup_app in Hnd as (_ & Hdisj & Hnd2).
  apply NoDup_cons in Hnd2 as [Hn2 _].
  rewrite elem_of_app, Hcs. split.
  - intros [Hx|Hx].
    + split; [by left|]. intros ->. apply (Hdisj n Hx). by left.
    + split; [by right; right|]. by intros ->.
  - intros [[Hx|[->|Hx]] Hne]; [by left | done | by right].
Qed.

Lemma NoDup_delete (i : nat) (cs : list ref) : NoDup cs -> NoDup (delete i cs).
Proof.
  intros Hnd. apply (sublist_NoDup _ cs); [done | apply sublist_delete].
Qed.

Lemma allocated_update n f h m :
  is_Some (nodes (update n f h) !! m) <-> is_Some (nodes h !! m).
Proof.
  rewrite nodes_update. destruct (decide (n = m)); [|done].
  by rewrite fmap_is_Some.
Qed.

Lemma variant_of_update_parent n p h m :
  variant_of (update n (with_parent p) h) m = variant_of h m.
Proof.
  unfold variant_of. rewrite nodes_update. destruct (decide (n = m)); [|done].
  by destruct (nodes h !! m).
Qed.

Lemma variant_of_update_children n f h m :
  variant_of (update n (with_children f) h) m = variant_of h m.
Proof.
  unfold variant_of. rewrite nodes_update. destruct (decide (n = m)); [|done].
  by destruct (nodes h !! m).
Qed.

Lemma parent_of_detach p i n h m :
  parent_of (detach p i n h) m = if decide (n = m) then None else parent_of h m.
Proof.
  unfold parent_of, detach. rewrite !nodes_update.
  destruct (decide (p = m)), (decide (n = m)), (nodes h !! m); done.
Qed.

Lemma children_of_detach p i n h m :
  children_of (detach p i n h) m
  = if decide (p = m) then delete i (children_of h m) else children_of h m.
Proof.
  unfold children_of, detach. rewrite !nodes_update.
  destruct (decide (p = m)), (decide (n = m)), (nodes h !! m); done.
Qed.

Lemma variant_of_detach p i n h m : variant_of (detach p i n h) m = variant_of h m.
Proof. unfold detach. by rewrite variant_of_update_children, variant_of_update_parent. Qed.

Lemma parent_of_attach p i n h m :
  is_Some (nodes h !! n) ->
  parent_of (attach p i n h) m = if decide (n = m) then Some p else parent_of h m.
Proof.
  intros [nd Hn]. unfold parent_of, attach. rewrite !nodes_update.
  destruct (decide (p = m)), (decide (n = m)); subst; rewrite ?Hn; try done;
    by destruct (nodes h !! m).
Qed.

Lemma children_of_attach p i n h m :
  is_Some (nodes h !! p) ->
  children_of (attach p i n h) m
  = if decide (p = m) then splice_in i n (children_of h m) else children_of h m.
Proof.
  intros [pd Hp]. unfold children_of, attach. rewrite !nodes_update.
  destruct (decide (p = m)), (decide (n = m)); subst; rewrite ?Hp; try done;
    by destruct (nodes h !! m).
Qed.

Lemma variant_of_attach p i n h m : variant_of (attach p i n h) m = variant_of h m.
Proof. unfold attach. by rewrite variant_of_update_children, variant_of_update_parent. Qed.

Lemma allocated_detach p i n h m :
  is_Some (nodes (detach p i n h) !! m) <-> is_Some (nodes h !! m).
Proof. unfold detach. by rewrite !allocated_update. Qed.

Lemma allocated_attach p i n h m :
  is_Some (nodes (attach p i n h) !! m) <-> is_Some (nodes h !! m).
Proof. unfold attach. by rewrite !allocated_update. Qed.

Lemma consistent_one_parent h n p q :
  consistent h -> n ∈ children_of h p -> n ∈ children_of h q -> p = q.
Proof.
  intros [Hc _] Hp Hq. apply Hc in Hp, Hq. congruence.
Qed.

Lemma detach_consistent p i n h :
  consistent h -> children_of h p !! i = Some n -> consistent (detach p i n h).
Proof.
  intros Hh Hi. pose proof Hh as [Hc Hnd].
  assert (Hin : n ∈ children_of h p) by (apply list_elem_of_lookup; eauto).
  split.
  - intros m q. rewrite parent_of_detach, children_of_detach.
    destruct (decide (n = m)) as [<-|Hne].
    + split; [done|]. destruct (decide (p = q)) as [<-|Hpq].
      * intros Hm. apply (elem_of_delete_NoDup i n) in Hm as [_ Hm]; done.
      * intros Hm. by pose proof (consistent_one_parent _ _ _ _ Hh Hin Hm).
    + rewrite Hc. destruct (decide (p = q)) as [<-|Hpq]; [|done].
      rewrite (elem_of_delete_NoDup i n) by done. intuition congruence.
  - intros q. rewrite children_of_detach.
    destruct (decide (p = q)); [by apply NoDup_delete | done].
Qed.

Lemma attach_consistent p i n h :
  consistent h -> is_Some (nodes h !! p) -> is_Some (nodes h !! n) ->
  parent_of h n = None -> consistent (attach p i n h).
Proof.
  intros Hh Hp Hn Hroot. pose proof Hh as [Hc Hnd].
  assert (Hnot : forall q, n ∉ children_of h q).
  { intros q Hq. apply Hc in Hq. congruence. }
  split.
  - intros m q. rewrite parent_of_attach, children_of_attach by done.
    destruct (decide (n = m)) as [<-|Hne].
    + destruct (decide (p = q)) as [<-|Hpq].
      * rewrite elem_of_splice_in. intuition congruence.
      * split; [congruence|]. intros Hq. by apply Hnot in Hq.
    + rewrite Hc. destruct (decide (p = q)) as [<-|Hpq]; [|done].
      rewrite elem_of_splice_in. intuition congruence.
  - intros q. rewrite children_of_attach by done.
    destruct (decide (p = q)); [by apply NoDup_splice_in | done].
Qed.

(** ** What the operations of [XmlNode] do *)

Lemma XmlNode_removeChild_eq p n h :
  XmlNode_removeChild p n h
  = match nodes h !! n, nodes h !! p with
    | Some _, Some pd =>
        match indexOf n (children pd) with
        | Some i => (detach p i n h, Ok true)
        | None => (h, Ok false)
        end
    | _, _ => (h, Throw InvalidArgument)
    end.
Proof.
  unfold XmlNode_removeChild, bind, getNode.
  destruct (nodes h !! n); [|done]. destruct (nodes h !! p) as [pd|]; [|done].
  by destruct (indexOf n (children pd)).
Qed.

Lemma removeChild_cases p n h h' r :
  removeChild p n h = (h', r) ->
  (h' = h /\ ((r = Ok false /\ n ∉ children_of h p) \/ (exists e, r = Throw e))) \/
  (exists j, children_of h p !! j = Some n /\ indexOf n (children_of h p) = Some j /\
             h' = detach p j n h /\ r = Ok true).
Proof.
  unfold removeChild, XmlAttribute_removeChild, bind, getNode, children_of.
  destruct (nodes h !! p) as [pd|] eqn:Hp; [|intros [= <- <-]; eauto].
  assert (Hbase : XmlNode_removeChild p n h = (h', r) ->
    (h' = h /\ ((r = Ok false /\ n ∉ children pd) \/ (exists e, r = Throw e))) \/
    (exists j, children pd !! j = Some n /\ indexOf n (children pd) = Some j /\
               h' = detach p j n h /\ r = Ok true)).
  { rewrite XmlNode_removeChild_eq, Hp.
    destruct (nodes h !! n); [|intros [= <- <-]; eauto].
    destruct (indexOf n (children pd)) as [j|] eqn:Hj; intros [= <- <-].
    - right. exists j. eauto using indexOf_Some.
    - left. split; [done|]. left. split; [done|]. by apply indexOf_None. }
  destruct (var pd); try done; intros [= <- <-]; eauto.
Qed.

Lemma XmlNode_insertChild_cases p n idx h h' r :
  XmlNode_insertChild p n idx h = (h', r) ->
  (h' = h /\ ((r = Ok None /\ n ∈ children_of h p) \/ (exists e, r = Throw e))) \/
  (exists h1,
     detached h n h1 /\
     h' = attach p (Z.to_nat (index_or_end idx (children_of h p))) n h1 /\
     r = Ok (Some n) /\
     is_Some (nodes h !! p) /\ is_Some (nodes h !! n) /\ (n ∉ children_of h p) /\
     (0 <= index_or_end idx (children_of h p) <= Z.of_nat (length (children_of h p)))).
Proof.
  unfold XmlNode_insertChild, bind, getNode, children_of, parent_of.
  destruct (nodes h !! p) as [pd|] eqn:Hp; [|intros [= <- <-]; eauto].
  destruct (nodes h !! n) as [nd|] eqn:Hn; [|intros [= <- <-]; eauto].
  case_bool_decide as Hidx; [intros [= <- <-]; eauto|].
  destruct (indexOf n (children pd)) as [j|] eqn:Hj.
  { intros [= <- <-]. left. split; [done|]. left. split; [done|].
    apply indexOf_Some in Hj. apply list_elem_of_lookup. eauto. }
  apply indexOf_None in Hj. rewrite Hn.
  destruct (parent nd) as [q|] eqn:Hq.
  - destruct (removeChild q n h) as [h1 r1] eqn:Hrm.
    apply removeChild_cases in Hrm as [[-> [[-> Hstale]|[e ->]]]|(j & Hj1 & _ & -> & ->)].
    + intros [= <- <-]. right. exists h. repeat split; eauto; try lia.
      apply (detached_stale _ _ q); [|done]. unfold parent_of. by rewrite Hn.
    + intros [= <- <-]. eauto.
    + intros [= <- <-]. right. exists (detach q j n h). repeat split; eauto; try lia.
      apply detached_from; [|done]. unfold parent_of. by rewrite Hn.
  - intros [= <- <-]. right. exists h. repeat split; eauto; try lia.
    apply detached_root. unfold parent_of. by rewrite Hn.
Qed.

Lemma XmlElement_insertChild_cases e n idx h h' r :
  XmlElement_insertChild e n idx h = (h', r) ->
  (h' = h /\ exists err, r = Throw err) \/
  (XmlNode_insertChild e n idx h = (h', r) /\
   exists nd, nodes h !! n = Some nd /\ element_child (var nd) = true).
Proof.
  unfold XmlElement_insertChild.
  destruct (nodes h !! n) as [nd|] eqn:Hn; [|intros [= <- <-]; eauto].
  destruct (element_child (var nd)) eqn:Hclass; [|intros [= <- <-]; eauto].
  cbn [negb]. destruct (nodes h !! e) as [ed|]; [|intros [= <- <-]; eauto].
  assert (Hres : exists nd0, Some nd = Some nd0 /\ element_child (var nd0) = true)
    by eauto.
  destruct (var nd); try (intros Heq; right; eauto; fail).
  match goal with |- context [has_attribute_named ?a ?b ?c] =>
    destruct (has_attribute_named a b c) end; [intros [= <- <-]; eauto|].
  intros Heq; right; eauto.
Qed.

Lemma XmlAttribute_insertChild_cases a n idx h h' r :
  XmlAttribute_insertChild a n idx h = (h', r) ->
  (h' = h /\ exists err, r = Throw err) \/
  (XmlNode_insertChild a n idx h = (h', r) /\
   exists nd, nodes h !! n = Some nd /\ attribute_child (var nd) = true).
Proof.
  unfold XmlAttribute_insertChild, bind, getNode.
  destruct (nodes h !! n) as [nd|] eqn:Hn; [|intros [= <- <-]; eauto].
  destruct (attribute_child (var nd)) eqn:Hclass; [|intros [= <- <-]; eauto].
  intros Heq. right. eauto.
Qed.

(** A dispatched [insertChild] throws and leaves the heap, or is the
    insertion of the base class of a node that the class of [this] accepts. *)
Lemma insertChild_cases p n idx h h' r :
  insertChild p n idx h = (h', r) ->
  (h' = h /\ exists err, r = Throw err) \/
  (XmlNode_insertChild p n idx h = (h', r) /\
   exists pd nd, nodes h !! p = Some pd /\ nodes h !! n = Some nd /\
                 accepts (var pd) (var nd) = true).
Proof.
  unfold insertChild, bind, getNode.
  destruct (nodes h !! p) as [pd|] eqn:Hp; [|intros [= <- <-]; eauto].
  destruct (var pd) eqn:Hv; try (intros [= <- <-]; eauto; fail).
  - destruct (nodes h !! n) as [nd|] eqn:Hn.
    + intros Heq. right. split; [done|]. exists pd, nd. by rewrite Hv.
    + unfold XmlNode_insertChild, bind, getNode. rewrite Hp, Hn.
      intros [= <- <-]. eauto.
  - intros Heq. apply XmlAttribute_insertChild_cases in Heq as [?|[Hb (nd & Hn & Hc)]];
      [by left|]. right. split; [done|]. exists pd, nd. by rewrite Hv.
  - intros Heq. apply XmlElement_insertChild_cases in Heq as [?|[Hb (nd & Hn & Hc)]];
      [by left|]. right. split; [done|]. exists pd, nd. by rewrite Hv.
Qed.

(** ** The calls keep the tree consistent *)

Lemma preserves_ret I {A} (a : A) : preserves I (ret a).
Proof. by intros h. Qed.

Lemma preserves_throw I {A} (e : error) : preserves I (throw e : M A).
Proof. by intros h. Qed.

Lemma preserves_bind I {A B} (m : M A) (k : A -> M B) :
  preserves I m -> (forall a, preserves I (k a)) -> preserves I (bind m k).
Proof.
  intros Hm Hk h Hh. unfold after, bind. specialize (Hm h Hh). unfold after in Hm.
  destruct (m h) as [h1 [a|e]]; [|done]. by apply Hk.
Qed.

Lemma preserves_getNode I n : preserves I (getNode n).
Proof. intros h Hh. unfold after, getNode. by destruct (nodes h !! n). Qed.

Lemma preserves_getArray I a : preserves I (getArray a).
Proof. intros h Hh. unfold after, getArray. by destruct (arrays h !! a). Qed.

Lemma preserves_if I {A} (b : bool) (m1 m2 : M A) :
  preserves I m1 -> preserves I m2 -> preserves I (if b then m1 else m2).
Proof. by destruct b. Qed.

Lemma detached_consistent h n h1 :
  consistent h -> detached h n h1 -> consistent h1 /\ parent_of h1 n = None.
Proof.
  intros Hh [Hroot|q Hq Hstale|q j Hq Hj].
  - done.
  - exfalso. apply Hstale. by apply Hh.
  - split; [by apply detach_consistent|].
    rewrite parent_of_detach. by rewrite decide_True.
Qed.

Lemma detached_allocated h n h1 m :
  detached h n h1 -> is_Some (nodes h1 !! m) <-> is_Some (nodes h !! m).
Proof. intros [?|?|q j ? ?]; try done. apply allocated_detach. Qed.

Lemma XmlNode_insertChild_consistent p n idx : preserves consistent (XmlNode_insertChild p n idx).
Proof.
  intros h Hh. unfold after.
  destruct (XmlNode_insertChild p n idx h) as [h' r] eqn:Heq.
  apply XmlNode_insertChild_cases in Heq
    as [[-> _]|(h1 & Hdet & -> & _ & Hp & Hn & _)]; [done|].
  destruct (detached_consistent _ _ _ Hh Hdet) as [Hh1 Hroot].
  apply attach_consistent; try done; by apply (detached_allocated _ _ _ _ Hdet).
Qed.

Lemma insertChild_consistent p n idx : preserves consistent (insertChild p n idx).
Proof.
  intros h Hh. unfold after.
  destruct (insertChild p n idx h) as [h' r] eqn:Heq.
  apply insertChild_cases in Heq as [[-> _]|[Heq _]]; [done|].
  pose proof (XmlNode_insertChild_consistent p n idx h Hh) as Hc.
  unfold after in Hc. by rewrite Heq in Hc.
Qed.

Lemma XmlElement_insertChild_consistent e n idx :
  preserves consistent (XmlElement_insertChild e n idx).
Proof.
  intros h Hh. unfold after.
  destruct (XmlElement_insertChild e n idx h) as [h' r] eqn:Heq.
  apply XmlElement_insertChild_cases in Heq as [[-> _]|[Heq _]]; [done|].
  pose proof (XmlNode_insertChild_consistent e n idx h Hh) as Hc.
  unfold after in Hc. by rewrite Heq in Hc.
Qed.

Lemma XmlAttribute_insertChild_consistent a n idx :
  preserves consistent (XmlAttribute_insertChild a n idx).
Proof.
  intros h Hh. unfold after.
  destruct (XmlAttribute_insertChild a n idx h) as [h' r] eqn:Heq.
  apply XmlAttribute_insertChild_cases in Heq as [[-> _]|[Heq _]]; [done|].
  pose proof (XmlNode_insertChild_consistent a n idx h Hh) as Hc.
  unfold after in Hc. by rewrite Heq in Hc.
Qed.

Lemma removeChild_consistent p n : preserves consistent (removeChild p n).
Proof.
  intros h Hh. unfold after.
  destruct (removeChild p n h) as [h' r] eqn:Heq.
  apply removeChild_cases in Heq as [[-> _]|(j & Hj & _ & -> & _)]; [done|].
  by apply detach_consistent.
Qed.

Lemma XmlNode_removeChildAtIndex_eq p index h :
  XmlNode_removeChildAtIndex p index h
  = match nodes h !! p with
    | None => (h, Throw InvalidArgument)
    | Some pd =>
        if bool_decide (index < 0 \/ index >= Z.of_nat (length (children pd)))
        then (h, Throw InvalidIndex)
        else match children pd !! Z.to_nat index with
             | Some n => (detach p (Z.to_nat index) n h, Ok n)
             | None => (h, Throw InvalidIndex)
             end
    end.
Proof.
  unfold XmlNode_removeChildAtIndex, bind, getNode.
  destruct (nodes h !! p) as [pd|]; [|done].
  case_bool_decide; [done|]. by destruct (children pd !! Z.to_nat index).
Qed.

Lemma removeChildAtIndex_cases p index h h' r :
  removeChildAtIndex p index h = (h', r) ->
  (h' = h /\ exists e, r = Throw e) \/
  (exists n, children_of h p !! Z.to_nat index = Some n /\
             0 <= index < Z.of_nat (length (children_of h p)) /\
             h' = detach p (Z.to_nat index) n h /\ r = Ok n).
Proof.
  unfold removeChildAtIndex, bind, getNode, children_of.
  destruct (nodes h !! p) as [pd|] eqn:Hp; [|intros [= <- <-]; eauto].
  destruct (permits_children (var pd)); [|intros [= <- <-]; eauto].
  rewrite XmlNode_removeChildAtIndex_eq, Hp.
  case_bool_decide as Hidx; [intros [= <- <-]; eauto|].
  destruct (children pd !! Z.to_nat index) as [n|] eqn:Hn; intros [= <- <-]; [|eauto].
  right. exists n. repeat split; try done; lia.
Qed.

Lemma removeChildAtIndex_consistent p index :
  preserves consistent (removeChildAtIndex p index).
Proof.
  intros h Hh. unfold after.
  destruct (removeChildAtIndex p index h) as [h' r] eqn:Heq.
  apply removeChildAtIndex_cases in Heq as [[-> _]|(n & Hn & _ & -> & _)]; [done|].
  by apply detach_consistent.
Qed.

Lemma XmlNode_remove_consistent n : preserves consistent (XmlNode_remove n).
Proof.
  unfold XmlNode_remove. apply preserves_bind; [apply preserves_getNode|].
  intros nd. destruct (parent nd); [|apply preserves_ret].
  apply preserves_bind; [apply removeChild_consistent|]. intros _. apply preserves_ret.
Qed.

Lemma alloc_consistent v : preserves consistent (alloc v).
Proof.
  intros h [Hc Hnd]. unfold after.
  assert (Hparent : forall m, parent_of (alloc v h).1 m = parent_of h m).
  { intros m. unfold parent_of. rewrite nodes_alloc.
    destruct (decide (m = length (nodes h))) as [->|]; [|done].
    by rewrite (lookup_ge_None_2 (nodes h)) by lia. }
  assert (Hchildren : forall m, children_of (alloc v h).1 m = children_of h m).
  { intros m. unfold children_of. rewrite nodes_alloc.
    destruct (decide (m = length (nodes h))) as [->|]; [|done].
    by rewrite (lookup_ge_None_2 (nodes h)) by lia. }
  split.
  - intros n p. by rewrite Hparent, Hchildren.
  - intros p. by rewrite Hchildren.
Qed.

Lemma with_var_consistent n v : preserves consistent (fun h => (update n (with_var v) h, Ok tt)).
Proof.
  intros h [Hc Hnd]. unfold after. cbn [fst].
  assert (Hparent : forall m, parent_of (update n (with_var v) h) m = parent_of h m).
  { intros m. unfold parent_of. rewrite nodes_update.
    destruct (decide (n = m)); [|done]. by destruct (nodes h !! m). }
  assert (Hchildren : forall m, children_of (update n (with_var v) h) m = children_of h m).
  { intros m. unfold children_of. rewrite nodes_update.
    destruct (decide (n = m)); [|done]. by destruct (nodes h !! m). }
  split.
  - intros m p. by rewrite Hparent, Hchildren.
  - intros p. by rewrite Hchildren.
Qed.

Lemma setItem_consistent a i x : preserves consistent (setItem a i x).
Proof. by intros h Hh. Qed.

Lemma newArray_consistent items : preserves consistent (newArray items).
Proof. by intros h Hh. Qed.

Ltac preserve_step :=
  first
    [ apply preserves_ret | apply preserves_throw | apply preserves_getNode
    | apply preserves_getArray | apply alloc_consistent | apply with_var_consistent
    | apply setItem_consistent | apply newArray_consistent
    | apply XmlElement_insertChild_consistent | apply XmlAttribute_insertChild_consistent
    | apply insertChild_consistent | apply removeChild_consistent
    | apply removeChildAtIndex_consistent | apply XmlNode_remove_consistent
    | apply preserves_bind; [|intros ?]
    | match goal with
      | |- preserves _ (if ?b then _ else _) => destruct b
      | |- preserves _ (match ?x with _ => _ end) => destruct x
      end ].
Ltac preserve := repeat preserve_step.

Section CallsConsistent.
Context {validation : Validation}.

Lemma XmlAttribute_insert_all_consistent a items :
  preserves consistent (XmlAttribute_insert_all a items).
Proof. induction items as [|[s|n] items IH]; simpl; preserve. apply IH. Qed.

Lemma new_XmlText_consistent text : preserves consistent (new_XmlText text).
Proof. unfold new_XmlText. preserve. Qed.

Lemma convert_strings_consistent a i count :
  preserves consistent (convert_strings a i count).
Proof.
  revert i. induction count as [|count IH]; intros i; simpl; preserve;
    try apply new_XmlText_consistent; apply IH.
Qed.

Lemma new_XmlAttribute_consistent name value :
  preserves consistent (new_XmlAttribute name value).
Proof. unfold new_XmlAttribute. preserve; apply XmlAttribute_insert_all_consistent. Qed.

Lemma exec_consistent (c : call) (h : heap) : consistent h -> consistent (exec c h).
Proof.
  destruct c; cbn [exec];
    match goal with |- _ -> consistent (after ?m _) =>
      generalize h; change (preserves consistent m) end;
    unfold on_element, new_XmlElement, new_XmlCdata, new_XmlComment, new_XmlCharRef,
      new_XmlEntityRef, new_XmlProcInst, new_XmlDtdEntity, XmlElement_set_name,
      XmlCdata_set_data, set_text, XmlText_set_text, XmlDtdEntity_set_text,
      XmlElement_attribute, XmlElement_cdata, XmlElement_charRef, XmlElement_comment,
      XmlElement_element, XmlElement_entityRef, XmlElement_procInst, XmlElement_text,
      new_XmlElement, new_XmlCdata, new_XmlComment, new_XmlCharRef,
      new_XmlEntityRef, new_XmlProcInst;
    preserve;
    try apply new_XmlText_consistent; try apply new_XmlAttribute_consistent;
    try apply convert_strings_consistent.
Qed.

Lemma empty_consistent : consistent empty_heap.
Proof.
  split.
  - intros n p. unfold parent_of, children_of. simpl. split; [done|].
    intros Hin. by apply elem_of_nil in Hin.
  - intros p. unfold children_of. simpl. constructor.
Qed.

Lemma reachable_consistent (h : heap) : reachable h -> consistent h.
Proof.
  induction 1 as [|h c _ IH]; [apply empty_consistent | by apply exec_consistent].
Qed.

End CallsConsistent.

(** ** The calls keep the classes of the children *)

Lemma accepts_kind vp vp' vc vc' :
  kind_of vp = kind_of vp' -> kind_of vc = kind_of vc' -> accepts vp vc = accepts vp' vc'.
Proof. destruct vp, vp'; try done; destruct vc, vc'; done. Qed.

Lemma accepts_element vp vc :
  kind_of vp = KElement -> accepts vp vc = element_child vc.
Proof. by destruct vp. Qed.

Lemma accepts_attribute vp vc :
  kind_of vp = KAttribute -> accepts vp vc = attribute_child vc.
Proof. by destruct vp. Qed.

Lemma variant_of_Some h n nd : nodes h !! n = Some nd -> variant_of h n = Some (var nd).
Proof. unfold variant_of. by intros ->. Qed.

Lemma variant_of_is_Some h n : is_Some (variant_of h n) <-> is_Some (nodes h !! n).
Proof. unfold variant_of. by rewrite fmap_is_Some. Qed.

Lemma detach_well_classed p j n h : well_classed h -> well_classed (detach p j n h).
Proof.
  intros Hwc q c. rewrite children_of_detach, !variant_of_detach.
  intros Hc. apply Hwc. destruct (decide (p = q)); [|done].
  by apply list_elem_of_delete_inv in Hc.
Qed.

Lemma detached_well_classed h n h1 : well_classed h -> detached h n h1 -> well_classed h1.
Proof. intros Hwc [?|?|q j ? ?]; try done. by apply detach_well_classed. Qed.

Lemma detached_variant_of h n h1 m : detached h n h1 -> variant_of h1 m = variant_of h m.
Proof. intros [?|?|q j ? ?]; try done. apply variant_of_detach. Qed.

Lemma attach_well_classed p i n h vp vn :
  well_classed h -> variant_of h p = Some vp -> variant_of h n = Some vn ->
  accepts vp vn = true -> well_classed (attach p i n h).
Proof.
  intros Hwc Hp Hn Hacc q c.
  assert (Hpa : is_Some (nodes h !! p)) by (apply variant_of_is_Some; eauto).
  rewrite children_of_attach, !variant_of_attach by done.
  destruct (decide (p = q)) as [<-|Hne]; [|apply Hwc].
  rewrite elem_of_splice_in. intros [->|Hc]; [eauto | by apply Hwc].
Qed.

Lemma XmlNode_insertChild_classed known p n idx h h' r :
  classed known h ->
  XmlNode_insertChild p n idx h = (h', r) ->
  (forall vp vn, variant_of h p = Some vp -> variant_of h n = Some vn ->
                 accepts vp vn = true) ->
  classed known h'.
Proof.
  intros [Hwc Hknown] Heq Hacc.
  apply XmlNode_insertChild_cases in Heq
    as [[-> _]|(h1 & Hdet & -> & _ & Hp & Hn & _)]; [done|].
  apply variant_of_is_Some in Hp as [vp Hp], Hn as [vn Hn].
  split.
  - apply (attach_well_classed _ _ _ _ vp vn).
    + by apply (detached_well_classed h n).
    + by rewrite (detached_variant_of h n).
    + by rewrite (detached_variant_of h n).
    + by apply Hacc.
  - intros m k Hm. unfold kind_at.
    rewrite variant_of_attach, (detached_variant_of h n) by done. by apply Hknown.
Qed.

Lemma insertChild_classed known p n idx : preserves (classed known) (insertChild p n idx).
Proof.
  intros h Hh. unfold after.
  destruct (insertChild p n idx h) as [h' r] eqn:Heq.
  apply insertChild_cases in Heq as [[-> _]|[Heq (pd & nd & Hp & Hn & Hacc)]]; [done|].
  apply (XmlNode_insertChild_classed known p n idx h h' r); try done.
  intros vp vn. rewrite (variant_of_Some _ _ _ Hp), (variant_of_Some _ _ _ Hn). congruence.
Qed.

Lemma XmlElement_insertChild_classed known e n idx :
  known e KElement -> preserves (classed known) (XmlElement_insertChild e n idx).
Proof.
  intros He h Hh. unfold after.
  destruct (XmlElement_insertChild e n idx h) as [h' r] eqn:Heq.
  apply XmlElement_insertChild_cases in Heq as [[-> _]|[Heq (nd & Hn & Hacc)]]; [done|].
  apply (XmlNode_insertChild_classed known e n idx h h' r); try done.
  intros vp vn Hvp. rewrite (variant_of_Some _ _ _ Hn). intros [= <-].
  rewrite accepts_element; [done|].
  destruct Hh as [_ Hk]. specialize (Hk e KElement He). unfold kind_at in Hk.
  rewrite Hvp in Hk. by injection Hk.
Qed.

Lemma XmlAttribute_insertChild_classed known a n idx :
  known a KAttribute -> preserves (classed known) (XmlAttribute_insertChild a n idx).
Proof.
  intros Ha h Hh. unfold after.
  destruct (XmlAttribute_insertChild a n idx h) as [h' r] eqn:Heq.
  apply XmlAttribute_insertChild_cases in Heq as [[-> _]|[Heq (nd & Hn & Hacc)]]; [done|].
  apply (XmlNode_insertChild_classed known a n idx h h' r); try done.
  intros vp vn Hvp. rewrite (variant_of_Some _ _ _ Hn). intros [= <-].
  rewrite accepts_attribute; [done|].
  destruct Hh as [_ Hk]. specialize (Hk a KAttribute Ha). unfold kind_at in Hk.
  rewrite Hvp in Hk. by injection Hk.
Qed.

Lemma detach_classed known p j n h : classed known h -> classed known (detach p j n h).
Proof.
  intros [Hwc Hk]. split; [by apply detach_well_classed|].
  intros m k Hm. unfold kind_at. rewrite variant_of_detach. by apply Hk.
Qed.

Lemma removeChild_classed known p n : preserves (classed known) (removeChild p n).
Proof.
  intros h Hh. unfold after.
  destruct (removeChild p n h) as [h' r] eqn:Heq.
  apply removeChild_cases in Heq as [[-> _]|(j & Hj & _ & -> & _)]; [done|].
  by apply detach_classed.
Qed.

Lemma removeChildAtIndex_classed known p index :
  preserves (classed known) (removeChildAtIndex p index).
Proof.
  intros h Hh. unfold after.
  destruct (removeChildAtIndex p index h) as [h' r] eqn:Heq.
  apply removeChildAtIndex_cases in Heq as [[-> _]|(n & Hn & _ & -> & _)]; [done|].
  by apply detach_classed.
Qed.

Lemma XmlNode_remove_classed known n : preserves (classed known) (XmlNode_remove n).
Proof.
  unfold XmlNode_remove. apply preserves_bind; [apply preserves_getNode|].
  intros nd. destruct (parent nd); [|apply preserves_ret].
  apply preserves_bind; [apply removeChild_classed|]. intros _. apply preserves_ret.
Qed.

Lemma variant_of_alloc v h m :
  variant_of (alloc v h).1 m
  = if decide (m = length (nodes h)) then Some v else variant_of h m.
Proof. unfold variant_of. rewrite nodes_alloc. by destruct (decide _). Qed.

Lemma children_of_alloc v h m : children_of (alloc v h).1 m = children_of h m.
Proof.
  unfold children_of. rewrite nodes_alloc.
  destruct (decide (m = length (nodes h))) as [->|]; [|done].
  by rewrite (lookup_ge_None_2 (nodes h)) by lia.
Qed.

Lemma variant_of_fresh h : variant_of h (length (nodes h)) = None.
Proof. unfold variant_of. by rewrite (lookup_ge_None_2 (nodes h)) by lia. Qed.

Lemma alloc_classed known v : preserves (classed known) (alloc v).
Proof.
  intros h [Hwc Hk]. unfold after. split.
  - intros p c. rewrite children_of_alloc, !variant_of_alloc. intros Hc.
    destruct (Hwc p c Hc) as (vp & vc & Hp & Hvc & Hacc).
    pose proof (variant_of_fresh h) as Hfresh.
    rewrite !decide_False by congruence. eauto.
  - intros n k Hn. unfold kind_at. rewrite variant_of_alloc.
    specialize (Hk n k Hn). unfold kind_at in Hk.
    pose proof (variant_of_fresh h) as Hfresh.
    rewrite decide_False; [done|]. intros ->. by rewrite Hfresh in Hk.
Qed.

Lemma alloc_classed_also known v h :
  classed known h ->
  classed (known_also (length (nodes h)) (kind_of v) known) (alloc v h).1.
Proof.
  intros Hh. destruct (alloc_classed known v h Hh) as [Hwc Hk]. split; [done|].
  intros n k [[-> ->]|Hn]; [|by apply Hk].
  unfold kind_at. rewrite variant_of_alloc. by rewrite decide_True.
Qed.

Lemma classed_weaken (known known' : ref -> kind -> Prop) h :
  (forall n k, known' n k -> known n k) -> classed known h -> classed known' h.
Proof. intros Hsub [Hwc Hk]. split; [done|]. intros n k Hn. by apply Hk, Hsub. Qed.

Lemma update_var_classed known n v nd h :
  nodes h !! n = Some nd -> kind_of (var nd) = kind_of v ->
  classed known h -> classed known (update n (with_var v) h).
Proof.
  intros Hn Hkind [Hwc Hk].
  assert (Hkinds : forall m, kind_at (update n (with_var v) h) m = kind_at h m).
  { intros m. unfold kind_at, variant_of. rewrite nodes_update.
    destruct (decide (n = m)) as [<-|]; [|done]. rewrite Hn. simpl. by rewrite Hkind. }
  assert (Hchildren : forall m, children_of (update n (with_var v) h) m = children_of h m).
  { intros m. unfold children_of. rewrite nodes_update.
    destruct (decide (n = m)); [|done]. by destruct (nodes h !! m). }
  split.
  - intros p c. rewrite Hchildren. intros Hc.
    destruct (Hwc p c Hc) as (vp & vc & Hp & Hvc & Hacc).
    pose proof (Hkinds p) as Hkp. pose proof (Hkinds c) as Hkc.
    unfold kind_at in Hkp, Hkc. rewrite Hp in Hkp. rewrite Hvc in Hkc.
    destruct (variant_of (update n (with_var v) h) p) as [vp'|]; [|done].
    destruct (variant_of (update n (with_var v) h) c) as [vc'|]; [|done].
    exists vp', vc'. repeat split; try done.
    rewrite <- Hacc. apply accepts_kind; simpl in *; congruence.
  - intros m k Hm. rewrite Hkinds. by apply Hk.
Qed.

Lemma setItem_classed known a i x : preserves (classed known) (setItem a i x).
Proof. by intros h Hh. Qed.

Lemma newArray_classed known items : preserves (classed known) (newArray items).
Proof. by intros h Hh. Qed.

Ltac classed_step :=
  first
    [ apply preserves_ret | apply preserves_throw | apply preserves_getNode
    | apply preserves_getArray | apply alloc_classed
    | apply setItem_classed | apply newArray_classed
    | apply XmlElement_insertChild_classed; unfold known_also, known_one; tauto
    | apply XmlAttribute_insertChild_classed; unfold known_also, known_one; tauto
    | apply insertChild_classed | apply removeChild_classed
    | apply removeChildAtIndex_classed | apply XmlNode_remove_classed
    | apply preserves_bind; [|intros ?]
    | match goal with
      | |- preserves _ (if ?b then _ else _) => destruct b
      | |- preserves _ (match ?x with _ => _ end) => destruct x
      end ].
Ltac classed_calls := repeat classed_step.

Section CallsClassed.
Context {validation : Validation}.

Lemma XmlAttribute_insert_all_classed known a items :
  known a KAttribute -> preserves (classed known) (XmlAttribute_insert_all a items).
Proof.
  intros Ha. induction items as [|[s|n] items IH]; simpl; classed_calls. apply IH.
Qed.

Lemma new_XmlText_classed known text : preserves (classed known) (new_XmlText text).
Proof. unfold new_XmlText. classed_calls. Qed.

Lemma convert_strings_classed known a i count :
  preserves (classed known) (convert_strings a i count).
Proof.
  revert i. induction count as [|count IH]; intros i; simpl; classed_calls;
    try apply new_XmlText_classed; apply IH.
Qed.

Lemma new_XmlAttribute_classed known name value :
  preserves (classed known) (new_XmlAttribute name value).
Proof.
  unfold new_XmlAttribute. destruct (negb (validateName name)); [apply preserves_throw|].
  intros h Hh. unfold after, bind at 1. rewrite alloc_eq.
  apply (classed_weaken (known_also (length (nodes h)) KAttribute known));
    [intros n k Hn; by right|].
  pose proof (alloc_classed_also known (VAttribute name) h Hh) as Hh1.
  revert Hh1. generalize (alloc (VAttribute name) h).1.
  match goal with |- forall h1, _ -> classed _ (?m h1).1 =>
    change (preserves (classed (known_also (length (nodes h)) KAttribute known)) m) end.
  classed_calls. apply XmlAttribute_insert_all_classed. by left.
Qed.

Lemma on_element_classed {A} (this : ref) (m : M A) :
  preserves (classed (known_one this KElement)) m ->
  preserves (classed nothing_known) (on_element this m).
Proof.
  intros Hm h Hh. unfold on_element, after, bind, getNode.
  destruct (nodes h !! this) as [td|] eqn:Htd; [|done].
  destruct (var td) eqn:Hv; try done.
  apply (classed_weaken (known_one this KElement)); [by intros n k []|].
  apply Hm. destruct Hh as [Hwc _]. split; [done|].
  intros n k [-> ->]. unfold kind_at. rewrite (variant_of_Some _ _ _ Htd). by rewrite Hv.
Qed.

Lemma exec_classed (c : call) (h : heap) :
  classed nothing_known h -> classed nothing_known (exec c h).
Proof.
  destruct c; cbn [exec];
    match goal with |- _ -> classed _ (after ?m _) =>
      generalize h; change (preserves (classed nothing_known) m) end;
    try (match goal with |- preserves _ (on_element _ _) =>
           apply on_element_classed end;
         unfold XmlElement_attribute, XmlElement_cdata, XmlElement_charRef,
           XmlElement_comment, XmlElement_element, XmlElement_entityRef,
           XmlElement_procInst, XmlElement_text);
    unfold new_XmlElement, new_XmlCdata, new_XmlComment, new_XmlCharRef,
      new_XmlEntityRef, new_XmlProcInst, new_XmlDtdEntity;
    try (classed_calls;
         try apply new_XmlText_classed; try apply new_XmlAttribute_classed;
         try apply convert_strings_classed; fail).
  - intros h0 Hh. unfold XmlElement_set_name, after, bind, getNode.
    destruct (nodes h0 !! this) as [td|] eqn:Htd; [|done].
    destruct (var td) eqn:Hv; try done.
    destruct (negb (validateName name)); [done|].
    apply (update_var_classed _ _ _ td); [done| by rewrite Hv |done].
  - intros h0 Hh. unfold XmlCdata_set_data, after, bind, getNode.
    destruct (nodes h0 !! this) as [td|] eqn:Htd; [|done].
    destruct (var td) eqn:Hv; try done.
    destruct (XmlCdata_check_data data); [|done].
    apply (update_var_classed _ _ _ td); [done| by rewrite Hv |done].
  - unfold set_text. apply preserves_bind; [apply preserves_getNode|].
    intros td0. clear h.
    assert (Htext : preserves (classed nothing_known) (XmlText_set_text this text)).
    { intros h0 Hh. unfold XmlText_set_text, after, bind, getNode.
      destruct (nodes h0 !! this) as [td|] eqn:Htd; [|done].
      destruct (var td) eqn:Hv; try done.
      destruct (negb (validateChar text)); [done|].
      apply (update_var_classed _ _ _ td); [done| by rewrite Hv |done]. }
    destruct (var td0); try done.
    intros h0 Hh. unfold XmlDtdEntity_set_text, after, bind, getNode.
    destruct (nodes h0 !! this) as [td|] eqn:Htd; [|done].
    destruct (var td) eqn:Hv; try done.
    destruct (negb (validateChar text)); [done|].
    apply (update_var_classed _ _ _ td); [done| by rewrite Hv |done].
Qed.

Lemma empty_classed : classed nothing_known empty_heap.
Proof.
  split; [|done]. intros p c. unfold children_of. simpl.
  intros Hin. by apply elem_of_nil in Hin.
Qed.

Lemma reachable_well_classed (h : heap) : reachable h -> well_classed h.
Proof.
  intros Hr. cut (classed nothing_known h); [by intros []|].
  induction Hr as [|h c _ IH]; [apply empty_classed | by apply exec_classed].
Qed.

End CallsClassed.

Lemma run_reachable {validation : Validation} (calls : list call) : reachable (run calls).
Proof.
  unfold run. induction calls as [|c calls IH] using rev_ind; [constructor|].
  rewrite foldl_app. simpl. by constructor.
Qed.

(** ** Parent and children (C3) *)

(** A node with a parent is moved by an insertion that returns. *)
Lemma insertChild_moves (h h' : heap) (p n q : ref) (i : option Z) (r : option ref) :
  consistent h -> parent_of h n = Some q -> q <> p ->
  insertChild p n i h = (h', Ok r) ->
  r = Some n /\ parent_of h' n = Some p /\
  (exists j, children_of h q !! j = Some n /\
             children_of h' q = delete j (children_of h q)) /\
  (n ∉ children_of h' q) /\
  (n ∉ children_of h p) /\
  children_of h' p
  = splice_in (Z.to_nat (index_or_end i (children_of h p))) n (children_of h p).
Proof.
  intros Hh Hq Hne Heq.
  assert (Hh' : consistent h').
  { pose proof (insertChild_consistent p n i h Hh) as Hc. unfold after in Hc.
    by rewrite Heq in Hc. }
  apply insertChild_cases in Heq as [[_ [err Herr]]|[Heq _]]; [done|].
  apply XmlNode_insertChild_cases in Heq
    as [[-> [[_ Hin]|[e He]]]|(h1 & Hdet & -> & Hr & Hp & Hn & Hnot & Hidx)]; try done.
  { apply Hh in Hin. congruence. }
  injection Hr as ->.
  destruct Hdet as [Hroot|q' Hq' Hstale|q' j Hq' Hj]; try congruence.
  { exfalso. apply Hstale. by apply Hh. }
  assert (q' = q) as -> by congruence.
  assert (Hp1 : is_Some (nodes (detach q j n h) !! p)) by by apply allocated_detach.
  assert (Hn1 : is_Some (nodes (detach q j n h) !! n)) by by apply allocated_detach.
  assert (Hpar : parent_of (attach p (Z.to_nat (index_or_end i (children_of h p))) n
                              (detach q j n h)) n = Some p).
  { rewrite parent_of_attach by done. by rewrite decide_True. }
  split; [done|]. split; [done|]. split; [|split; [|split]].
  - exists j. split; [done|].
    rewrite children_of_attach, decide_False by done.
    rewrite children_of_detach. by rewrite decide_True.
  - intros Hin. apply Hh' in Hin. congruence.
  - done.
  - rewrite children_of_attach, decide_True by done.
    rewrite children_of_detach. by rewrite decide_False.
Qed.

(** C3: in every heap a client can reach, [n.parent] is [p] exactly when [n]
    is among the children of [p], and no node is twice among the children of a
    node (so no node is a child of two nodes); [insertChild], [removeChild],
    [removeChildAtIndex] and [remove] keep this, whether they return or throw;
    and an [insertChild] that returns, of a node that has another parent,
    takes the node out of the children of that parent, at the one place where
    it was, puts it among the children of the new parent, at the index and
    nowhere else, and leaves the new parent as [n.parent]. *)
Theorem C3_parent_children_consistent {validation : Validation} :
  (forall h, reachable h ->
     (forall n p, parent_of h n = Some p <-> n ∈ children_of h p) /\
     (forall p, NoDup (children_of h p)) /\
     (forall n p q, n ∈ children_of h p -> n ∈ children_of h q -> p = q)) /\
  (forall h, consistent h ->
     (forall p n i, consistent (after (insertChild p n i) h)) /\
     (forall p n, consistent (after (removeChild p n) h)) /\
     (forall p i, consistent (after (removeChildAtIndex p i) h)) /\
     (forall n, consistent (after (XmlNode_remove n) h))) /\
  (forall h h' p n q i r,
     consistent h -> parent_of h n = Some q -> q <> p ->
     insertChild p n i h = (h', Ok r) ->
     r = Some n /\ parent_of h' n = Some p /\
     (exists j, children_of h q !! j = Some n /\
                children_of h' q = delete j (children_of h q)) /\
     (n ∉ children_of h' q) /\
     (n ∉ children_of h p) /\
     children_of h' p
     = splice_in (Z.to_nat (index_or_end i (children_of h p))) n (children_of h p)).
Proof.
  split; [|split].
  - intros h Hr. pose proof (reachable_consistent h Hr) as Hh.
    destruct Hh as [Hc Hnd]. split; [exact Hc|]. split; [exact Hnd|].
    intros n p q. apply consistent_one_parent. by split.
  - intros h Hh. split; [|split; [|split]].
    + intros p n i. by apply insertChild_consistent.
    + intros p n. by apply removeChild_consistent.
    + intros p i. by apply removeChildAtIndex_consistent.
    + intros n. by apply XmlNode_remove_consistent.
  - intros h h' p n q i r. apply insertChild_moves.
Qed.

Lemma C3_parent_children_consistent_witness :
  consistent heap_p_q_n /\
  parent_of heap_p_q_n 2%nat = Some 1%nat /\
  parent_of (after (insertChild 0%nat 2%nat None) heap_p_q_n) 2%nat = Some 0%nat.
Proof.
  pose proof (C3_parent_children_consistent (validation := ascii_validation))
    as (Hreach & Hkeep & Hmove).
  assert (Hh : consistent heap_p_q_n).
  { destruct (Hreach heap_p_q_n (run_reachable _)) as (Hc & Hnd & _). by split. }
  split; [exact Hh|]. split; [reflexivity|].
  destruct (Hmove heap_p_q_n (after (insertChild 0%nat 2%nat None) heap_p_q_n)
              0%nat 2%nat 1%nat None (Some 2%nat) Hh) as (_ & Hp & _).
  - reflexivity.
  - discriminate.
  - reflexivity.
  - exact Hp.
Defined.

(** ** Inserting a child again (C2) *)

Lemma XmlNode_insertChild_present (h : heap) (p n : ref) (i : option Z) (pd nd : node) :
  nodes h !! p = Some pd -> nodes h !! n = Some nd ->
  0 <= index_or_end i (children pd) <= Z.of_nat (length (children pd)) ->
  n ∈ children pd ->
  XmlNode_insertChild p n i h = (h, Ok None).
Proof.
  intros Hp Hn Hidx Hin. unfold XmlNode_insertChild, bind, getNode.
  rewrite Hp, Hn. rewrite bool_decide_eq_false_2 by lia.
  destruct (indexOf_elem n (children pd) Hin) as [j ->]. done.
Qed.

(** Where the no-op holds: in a heap a client can reach, [insertChild] of a
    node that is already a child of [this], at an index within the bounds,
    returns [undefined] and changes nothing, for the base class, for an
    Attribute as [this], and for an Element as [this] and a node that is no
    Attribute. *)
Lemma insertChild_present_noop {validation : Validation} (h : heap) (p n : ref)
    (i : option Z) :
  reachable h ->
  n ∈ children_of h p ->
  0 <= index_or_end i (children_of h p) <= Z.of_nat (length (children_of h p)) ->
  ~ (kind_at h p = Some KElement /\ kind_at h n = Some KAttribute) ->
  insertChild p n i h = (h, Ok None).
Proof.
  intros Hr Hin Hidx Hnot.
  destruct (reachable_well_classed h Hr p n Hin) as (vp & vn & Hvp & Hvn & Hacc).
  unfold kind_at in Hnot. rewrite Hvp, Hvn in Hnot. simpl in Hnot.
  unfold variant_of in Hvp, Hvn. unfold children_of in Hin, Hidx.
  destruct (nodes h !! p) as [pd|] eqn:Hp; [|done].
  destruct (nodes h !! n) as [nd|] eqn:Hn; [|done].
  injection Hvp as <-. injection Hvn as <-.
  pose proof (XmlNode_insertChild_present h p n i pd nd Hp Hn Hidx Hin) as Hbase.
  unfold insertChild, bind, getNode. rewrite Hp.
  destruct (var pd) eqn:Hvp; try done.
  - unfold XmlAttribute_insertChild, bind, getNode. rewrite Hn.
    simpl in Hacc. by rewrite Hacc.
  - unfold XmlElement_insertChild. rewrite Hn, Hp. simpl in Hacc. rewrite Hacc.
    cbn [negb]. destruct (var nd); try done. exfalso. by apply Hnot.
Qed.

(** Where it does not: an Attribute that is a child of an Element. The scan
    of [XmlElement.insertChild] for an Attribute of the same name comes
    before the test of the base class for a node that is already a child, and
    it meets the node itself. *)
Lemma XmlElement_insertChild_own_attribute (h : heap) (e n : ref) (name : jsstring)
    (i : option Z) :
  is_Some (nodes h !! e) ->
  n ∈ children_of h e ->
  variant_of h n = Some (VAttribute name) ->
  XmlElement_insertChild e n i h = (h, Throw DuplicateAttribute).
Proof.
  intros [ed He] Hin Hn. unfold XmlElement_insertChild.
  unfold variant_of in Hn. unfold children_of in Hin. rewrite He in Hin |- *.
  destruct (nodes h !! n) as [nd|] eqn:Hnd; [|done]. injection Hn as Hv.
  rewrite Hv. cbn [element_child negb].
  assert (Hdup : has_attribute_named h name (XmlElement_attributes h (children ed)) = true).
  { unfold has_attribute_named. apply existsb_exists. exists n. split.
    - apply list_elem_of_In. unfold XmlElement_attributes.
      apply list_elem_of_filter. split; [|done].
      unfold is_attribute. by rewrite Hnd, Hv.
    - apply bool_decide_eq_true. unfold attribute_name. rewrite Hnd.
      destruct nd as [v pa cs]. simpl in Hv. by rewrite Hv. }
  by rewrite Hdup.
Qed.

(** C2: the code at the failing input. [a = new XmlElement("a");
    b = a.attribute("b", "c"); a.insertChild(b, 0)]: the attribute [b] is a
    child of the element [a] and the index 0 is within the bounds, so the
    call is to return [undefined] and change nothing, as the claim and the
    documentation of the method say and as [XmlNode.insertChild] does on the
    same arguments; [XmlElement.insertChild] throws the error for a
    duplicate attribute instead. *)
Theorem C2_insert_present_failing_input :
  reachable (validation := ascii_validation) heap_a_attr /\
  variant_of heap_a_attr 0%nat = Some (VElement (js "a")) /\
  variant_of heap_a_attr 2%nat = Some (VAttribute (js "b")) /\
  children_of heap_a_attr 0%nat = [2%nat] /\
  parent_of heap_a_attr 2%nat = Some 0%nat /\
  insertChild 0%nat 2%nat (Some 0) heap_a_attr = (heap_a_attr, Throw DuplicateAttribute) /\
  XmlNode_insertChild 0%nat 2%nat (Some 0) heap_a_attr = (heap_a_attr, Ok None).
Proof.
  split; [apply run_reachable|]. repeat split; reflexivity.
Qed.

(** ** Duplicate attributes (C4) *)

Lemma filter_splice_in_not (P : ref -> Prop) `{!forall x, Decision (P x)}
    (i : nat) (n : ref) (cs : list ref) :
  ~ P n -> filter P (splice_in i n cs) = filter P cs.
Proof.
  intros Hn. unfold splice_in. rewrite filter_app, filter_cons_False by done.
  by rewrite <- filter_app, take_drop.
Qed.

Lemma filter_delete_not (P : ref -> Prop) `{!forall x, Decision (P x)}
    (j : nat) (n : ref) (cs : list ref) :
  cs !! j = Some n -> ~ P n -> filter P (delete j cs) = filter P cs.
Proof.
  intros Hj Hn. rewrite delete_take_drop.
  rewrite <- (take_drop_middle cs j n Hj) at 3.
  by rewrite !filter_app, filter_cons_False.
Qed.

Lemma is_attribute_variant h h' :
  (forall n, variant_of h' n = variant_of h n) ->
  forall n, is_attribute h' n = is_attribute h n.
Proof.
  intros Hv n. specialize (Hv n). unfold variant_of, is_attribute in *.
  destruct (nodes h' !! n), (nodes h !! n); simpl in Hv; try done. by injection Hv as ->.
Qed.

Lemma attribute_name_variant h h' :
  (forall n, variant_of h' n = variant_of h n) ->
  forall n, attribute_name h' n = attribute_name h n.
Proof.
  intros Hv n. specialize (Hv n). unfold variant_of, attribute_name in *.
  destruct (nodes h' !! n) as [[v1 ? ?]|], (nodes h !! n) as [[v2 ? ?]|];
    simpl in Hv; try done. by injection Hv as ->.
Qed.

Lemma attribute_nodes_variant h h' e :
  (forall n, variant_of h' n = variant_of h n) ->
  attribute_nodes h' e
  = filter (fun n => is_attribute h n = true) (children_of h' e).
Proof.
  intros Hv. unfold attribute_nodes. apply filter_ext_elem.
  intros n _. by rewrite (is_attribute_variant h h' Hv).
Qed.

Lemma attribute_child_not_attribute h n nd :
  nodes h !! n = Some nd -> attribute_child (var nd) = true -> is_attribute h n <> true.
Proof. unfold is_attribute. intros -> Hc. by destruct (var nd). Qed.

Lemma has_attributes_variant e m attrs h h' :
  (forall n, variant_of h' n = variant_of h n) ->
  filter (fun n => is_attribute h n = true) (children_of h' e)
  = filter (fun n => is_attribute h n = true) (children_of h e) ->
  (forall c, c ∈ children_of h' e -> is_Some (nodes h' !! c)) ->
  has_attributes e m attrs h -> has_attributes e m attrs h'.
Proof.
  intros Hv Hf Hall [Hattrs [(a & Ha & Hname) _]]. split; [|split].
  - rewrite (attribute_nodes_variant h h') by done. by rewrite Hf.
  - exists a. split; [done|]. by rewrite (attribute_name_variant h h').
  - done.
Qed.

Lemma XmlAttribute_insertChild_has_attributes e m attrs t n idx :
  preserves (has_attributes e m attrs) (XmlAttribute_insertChild t n idx).
Proof.
  intros h Hh. unfold after.
  destruct (XmlAttribute_insertChild t n idx h) as [h' r] eqn:Heq.
  apply XmlAttribute_insertChild_cases in Heq as [[-> _]|[Heq (nd & Hn & Hclass)]]; [done|].
  apply XmlNode_insertChild_cases in Heq
    as [[-> _]|(h1 & Hdet & -> & _ & Hp & _)]; [done|].
  pose proof (attribute_child_not_attribute h n nd Hn Hclass) as Hnot.
  assert (Hv : forall x, variant_of (attach t (Z.to_nat (index_or_end idx (children_of h t)))
                                       n h1) x = variant_of h x).
  { intros x. by rewrite variant_of_attach, (detached_variant_of h n). }
  assert (Hp1 : is_Some (nodes h1 !! t)) by by apply (detached_allocated _ _ _ _ Hdet).
  cbn [fst]. apply (has_attributes_variant e m attrs h); [done| | |done].
  - rewrite children_of_attach by done.
    assert (Hh1 : filter (fun x => is_attribute h x = true) (children_of h1 e)
                  = filter (fun x => is_attribute h x = true) (children_of h e)).
    { destruct Hdet as [?|?|q j Hq Hj]; try done.
      rewrite children_of_detach. destruct (decide (q = e)) as [->|]; [|done].
      by apply (filter_delete_not _ j n). }
    destruct (decide (t = e)); [|done]. by rewrite filter_splice_in_not.
  - intros c. rewrite allocated_attach, (detached_allocated _ _ _ _ Hdet).
    rewrite children_of_attach by done. destruct Hh as (_ & _ & Hall).
    assert (Hc1 : c ∈ children_of h1 e -> is_Some (nodes h !! c)).
    { intros Hc. apply Hall. destruct Hdet as [?|?|q j Hq Hj]; try done.
      rewrite children_of_detach in Hc. destruct (decide (q = e)) as [->|]; [|done].
      by apply list_elem_of_delete_inv in Hc. }
    destruct (decide (t = e)); [|done].
    rewrite elem_of_splice_in. intros [->|Hc]; [by eexists | by apply Hc1].
Qed.

Lemma alloc_has_attributes e m attrs v : preserves (has_attributes e m attrs) (alloc v).
Proof.
  intros h Hh. unfold after. destruct Hh as [Hattrs [(a & Ha & Hname) Hall]].
  assert (Hold : forall x, is_Some (nodes h !! x) ->
                           nodes (alloc v h).1 !! x = nodes h !! x).
  { intros x [xd Hx]. rewrite nodes_alloc. rewrite decide_False; [done|].
    intros ->. by rewrite (lookup_ge_None_2 (nodes h)) in Hx by lia. }
  split; [|split].
  - rewrite <- Hattrs. unfold attribute_nodes. rewrite children_of_alloc.
    apply filter_ext_elem. intros x Hx.
    unfold is_attribute. by rewrite Hold by by apply Hall.
  - exists a. split; [done|]. unfold attribute_name. rewrite Hold; [done|].
    apply Hall. rewrite <- Hattrs in Ha. by apply list_elem_of_filter in Ha as [_ Ha].
  - intros c. rewrite children_of_alloc. intros Hc.
    rewrite Hold by by apply Hall. by apply Hall.
Qed.

Lemma setItem_has_attributes e m attrs a i x : preserves (has_attributes e m attrs) (setItem a i x).
Proof. by intros h Hh. Qed.

Lemma alloc_variant_at x v v' : preserves (variant_at x v) (alloc v').
Proof.
  intros h Hx. unfold after, variant_at in *. rewrite variant_of_alloc.
  rewrite decide_False; [done|]. intros ->. by rewrite variant_of_fresh in Hx.
Qed.

Lemma XmlAttribute_insertChild_variant_at x v t n idx :
  preserves (variant_at x v) (XmlAttribute_insertChild t n idx).
Proof.
  intros h Hx. unfold after, variant_at in *.
  destruct (XmlAttribute_insertChild t n idx h) as [h' r] eqn:Heq.
  apply XmlAttribute_insertChild_cases in Heq as [[-> _]|[Heq _]]; [done|].
  apply XmlNode_insertChild_cases in Heq as [[-> _]|(h1 & Hdet & -> & _)]; [done|].
  cbn [fst]. by rewrite variant_of_attach, (detached_variant_of h n).
Qed.

Lemma XmlAttribute_insertChild_children_at e cs t n idx :
  t <> e -> n ∉ cs -> preserves (children_at e cs) (XmlAttribute_insertChild t n idx).
Proof.
  intros Hte Hn h He. unfold after, children_at in *.
  destruct (XmlAttribute_insertChild t n idx h) as [h' r] eqn:Heq.
  apply XmlAttribute_insertChild_cases in Heq as [[-> _]|[Heq _]]; [done|].
  apply XmlNode_insertChild_cases in Heq as [[-> _]|(h1 & Hdet & -> & _ & Hp & _)]; [done|].
  cbn [fst]. rewrite children_of_attach by by apply (detached_allocated _ _ _ _ Hdet).
  rewrite decide_False by done.
  destruct Hdet as [?|?|q j Hq Hj]; try done.
  rewrite children_of_detach. destruct (decide (q = e)) as [->|]; [|done].
  exfalso. apply Hn. rewrite <- He. apply list_elem_of_lookup. eauto.
Qed.

Lemma alloc_children_at e cs v : preserves (children_at e cs) (alloc v).
Proof. intros h He. unfold after, children_at in *. by rewrite children_of_alloc. Qed.

Section DuplicateAttribute.
Context {validation : Validation}.

Lemma XmlAttribute_insert_all_has_attributes e m attrs t items :
  preserves (has_attributes e m attrs) (XmlAttribute_insert_all t items).
Proof.
  induction items as [|[s|n] items IH]; simpl;
    [apply preserves_ret | apply preserves_throw |].
  apply preserves_bind; [apply XmlAttribute_insertChild_has_attributes | by intros _].
Qed.

Lemma XmlAttribute_insert_all_variant_at x v t items :
  preserves (variant_at x v) (XmlAttribute_insert_all t items).
Proof.
  induction items as [|[s|n] items IH]; simpl;
    [apply preserves_ret | apply preserves_throw |].
  apply preserves_bind; [apply XmlAttribute_insertChild_variant_at | by intros _].
Qed.

Lemma new_XmlText_has_attributes e m attrs text :
  preserves (has_attributes e m attrs) (new_XmlText text).
Proof.
  unfold new_XmlText. destruct (negb _); [apply preserves_throw|].
  apply alloc_has_attributes.
Qed.

Lemma convert_strings_has_attributes e m attrs a i count :
  preserves (has_attributes e m attrs) (convert_strings a i count).
Proof.
  revert i. induction count as [|count IH]; intros i; simpl; [apply preserves_ret|].
  apply preserves_bind; [apply preserves_getArray|]. intros items.
  apply preserves_bind; [|intros _; apply IH].
  destruct (items !! i) as [[s|n]|]; try apply preserves_ret.
  apply preserves_bind; [apply new_XmlText_has_attributes|].
  intros t. apply setItem_has_attributes.
Qed.

(** The part of the constructor of an Attribute after the allocation. *)
Lemma new_XmlAttribute_eq name value h :
  new_XmlAttribute name value h
  = if negb (validateName name) then (h, Throw InvalidName)
    else
      let this := length (nodes h) in
      match (match value with
             | AArr a => do items <- getArray a; XmlAttribute_insert_all this items
             | ANode n => do_ XmlAttribute_insertChild this n None; ret tt
             | AStr _ => throw InvalidArgument
             end) (alloc (VAttribute name) h).1 with
      | (h1, Ok _) => (h1, Ok this)
      | (h1, Throw err) => (h1, Throw err)
      end.
Proof.
  unfold new_XmlAttribute. destruct (negb (validateName name)); [done|].
  unfold bind at 1. rewrite alloc_eq. cbn [fst]. unfold bind at 1.
  match goal with |- match ?m with _ => _ end = _ => by destruct m as [h1 [[]|err]] end.
Qed.

Lemma new_XmlAttribute_inserts (I : heap -> Prop) (value : attrValue) (this : ref) :
  (forall n idx, preserves I (XmlAttribute_insertChild this n idx)) ->
  preserves I (match value with
               | AArr a => do items <- getArray a; XmlAttribute_insert_all this items
               | ANode n => do_ XmlAttribute_insertChild this n None; ret tt
               | AStr _ => throw InvalidArgument
               end).
Proof.
  intros Hins. destruct value as [s|n|a].
  - apply preserves_throw.
  - apply preserves_bind; [apply Hins | intros _; apply preserves_ret].
  - apply preserves_bind; [apply preserves_getArray|]. intros items.
    induction items as [|[s|n] items IH]; simpl;
      [apply preserves_ret | apply preserves_throw |].
    apply preserves_bind; [apply Hins | by intros _].
Qed.

Lemma new_XmlAttribute_has_attributes e m attrs name value h h1 r :
  has_attributes e m attrs h ->
  new_XmlAttribute name value h = (h1, r) ->
  has_attributes e m attrs h1 /\
  (forall attr, r = Ok attr -> attribute_name h1 attr = Some name).
Proof.
  intros Hh. rewrite new_XmlAttribute_eq.
  destruct (negb (validateName name)); [by intros [= <- <-]|].
  cbn zeta. set (this := length (nodes h)).
  set (inserts := match value with AStr _ => _ | ANode n => _ | AArr a => _ end).
  pose proof (alloc_has_attributes e m attrs (VAttribute name) h Hh) as Ha.
  assert (Hva : variant_at this (VAttribute name) (alloc (VAttribute name) h).1).
  { unfold variant_at. rewrite variant_of_alloc. by rewrite decide_True. }
  pose proof (new_XmlAttribute_inserts (has_attributes e m attrs) value this
                (fun n idx => XmlAttribute_insertChild_has_attributes e m attrs this n idx)
                _ Ha) as Hb.
  pose proof (new_XmlAttribute_inserts (variant_at this (VAttribute name)) value this
                (fun n idx => XmlAttribute_insertChild_variant_at _ _ this n idx)
                _ Hva) as Hvb.
  fold inserts in Hb, Hvb. unfold after in Hb, Hvb.
  destruct (inserts (alloc (VAttribute name) h).1) as [h2 [[]|err]];
    intros [= <- <-]; cbn [fst] in Hb, Hvb; (split; [done|]); [|done].
  intros attr [= <-]. unfold variant_at, variant_of in Hvb. unfold attribute_name.
  destruct (nodes h2 !! this) as [[v ? ?]|]; [|done]. simpl in Hvb. by injection Hvb as ->.
Qed.

Lemma attribute_built_has_attributes e m attrs name value h h1 r :
  has_attributes e m attrs h ->
  attribute_built name value h = (h1, r) ->
  has_attributes e m attrs h1 /\
  (forall attr, r = Ok attr -> attribute_name h1 attr = Some name).
Proof.
  intros Hh. unfold attribute_built. unfold bind at 1.
  set (conversion := match value with AStr _ => _ | ANode n => _ | AArr a => _ end).
  assert (Hconv : preserves (has_attributes e m attrs) conversion).
  { unfold conversion. destruct value as [s|n|a].
    - apply preserves_bind; [apply new_XmlText_has_attributes|].
      intros t. apply preserves_ret.
    - apply preserves_ret.
    - apply preserves_bind; [apply preserves_getArray|]. intros arrayVal.
      apply preserves_bind; [apply convert_strings_has_attributes|].
      intros _. apply preserves_ret. }
  specialize (Hconv h Hh). unfold after in Hconv.
  destruct (conversion h) as [h0 [value'|err]].
  - by apply new_XmlAttribute_has_attributes.
  - by intros [= <- <-].
Qed.

Lemma XmlElement_attribute_eq e name value idx h :
  XmlElement_attribute e name value idx h
  = match attribute_built name value h with
    | (h1, Ok attribute) =>
        (do_ XmlElement_insertChild e attribute idx; ret attribute) h1
    | (h1, Throw err) => (h1, Throw err)
    end.
Proof.
  unfold XmlElement_attribute, attribute_built.
  set (conversion := match value with AStr _ => _ | ANode n => _ | AArr a => _ end).
  unfold bind at 1 4. destruct (conversion h) as [h0 [value'|err]]; [|done].
  unfold bind at 1. by destruct (new_XmlAttribute name value' h0) as [h1 [attr|err]].
Qed.

Lemma XmlElement_insertChild_duplicate e m attrs a2 idx h :
  has_attributes e m attrs h -> attribute_name h a2 = Some m ->
  XmlElement_insertChild e a2 idx h = (h, Throw DuplicateAttribute).
Proof.
  intros [Hattrs [(a & Ha & Hname) _]] Ha2. unfold XmlElement_insertChild.
  unfold attribute_name in Ha2. unfold attribute_nodes, children_of in Hattrs.
  destruct (nodes h !! a2) as [[v2 ? ?]|]; [|done]. destruct v2; try done.
  injection Ha2 as ->. cbn [var element_child negb].
  destruct (nodes h !! e) as [ed|].
  - assert (Hdup : has_attribute_named h m (XmlElement_attributes h (children ed)) = true).
    { unfold has_attribute_named. apply existsb_exists. exists a. split.
      - apply list_elem_of_In. unfold XmlElement_attributes. by rewrite Hattrs.
      - by apply bool_decide_eq_true. }
    by rewrite Hdup.
  - rewrite filter_nil in Hattrs. subst attrs. by apply elem_of_nil in Ha.
Qed.

End DuplicateAttribute.

Section DuplicateAttributeClaim.
Context {validation : Validation}.

Lemma XmlAttribute_insert_all_children_at e cs t items :
  t <> e -> (forall n, INode n ∈ items -> n ∉ cs) ->
  preserves (children_at e cs) (XmlAttribute_insert_all t items).
Proof.
  intros Hte. induction items as [|[s|n] items IH]; intros Hout; simpl;
    [apply preserves_ret | apply preserves_throw |].
  apply preserves_bind.
  - apply XmlAttribute_insertChild_children_at; [done|]. apply Hout. by left.
  - intros _. apply IH. intros n' Hn'. apply Hout. by right.
Qed.

Lemma convert_strings_outside bound e cs a i count :
  (forall c, c ∈ cs -> (c < bound)%nat) ->
  preserves (value_outside bound e cs a) (convert_strings a i count).
Proof.
  intros Hcs. revert i. induction count as [|count IH]; intros i; simpl;
    [apply preserves_ret|].
  apply preserves_bind; [apply preserves_getArray|]. intros items.
  apply preserves_bind; [|intros _; apply IH].
  destruct (items !! i) as [[s|n]|]; try apply preserves_ret.
  intros hx (Hch & Hlen & Harr). unfold after, bind, new_XmlText.
  destruct (negb (validateChar s)); [done|].
  rewrite alloc_eq. unfold setItem. cbn [fst]. split; [|split].
  - rewrite <- Hch. apply (children_of_alloc (VText s) hx e).
  - cbn [nodes alloc fst]. rewrite length_app. lia.
  - cbn [arrays alloc fst]. intros items' n Ha Hn.
    rewrite list_lookup_alter_eq in Ha.
    destruct (arrays hx !! a) as [items0|] eqn:Ha0; [|done]. injection Ha as <-.
    apply list_elem_of_lookup in Hn as [j Hj].
    apply list_lookup_insert_Some in Hj as [(_ & [= <-] & _)|[_ Hj]].
    + intros Hin. apply Hcs in Hin. lia.
    + apply (Harr items0); [done|]. apply list_elem_of_lookup. eauto.
Qed.

Lemma new_XmlAttribute_children (e : ref) (cs : list ref) (m : jsstring) (value : attrValue)
    (h h1 : heap) (r : outcome ref) :
  is_Some (nodes h !! e) -> children_of h e = cs ->
  (forall n, value_node h value n -> n ∉ cs) ->
  new_XmlAttribute m value h = (h1, r) ->
  children_of h1 e = cs.
Proof.
  intros He Hch Hout. rewrite new_XmlAttribute_eq.
  destruct (negb (validateName m)); [by intros [= <- <-]|].
  cbn zeta. set (this := length (nodes h)). set (ha := (alloc (VAttribute m) h).1).
  assert (Hte : this <> e) by (apply lookup_lt_is_Some in He; unfold this; lia).
  assert (Ha : children_at e cs ha) by by apply alloc_children_at.
  set (inserts := match value with AStr _ => _ | ANode n => _ | AArr a => _ end).
  assert (Hins : children_of (inserts ha).1 e = cs).
  { unfold inserts. destruct value as [s|n|a].
    - done.
    - apply (preserves_bind (children_at e cs)); [|intros _; apply preserves_ret|done].
      apply XmlAttribute_insertChild_children_at; [done|]. by apply Hout.
    - unfold bind, getArray. change (arrays ha) with (arrays h).
      destruct (arrays h !! a) as [items|] eqn:Hitems; [|done].
      apply (XmlAttribute_insert_all_children_at e cs this items); [done| |done].
      intros n Hn. apply Hout. by exists items. }
  destruct (inserts ha) as [h2 [[]|err]]; by intros [= <- <-].
Qed.

Lemma attribute_built_children (e : ref) (m : jsstring) (value : attrValue) (h h1 : heap)
    (r : outcome ref) :
  is_Some (nodes h !! e) ->
  (forall c, c ∈ children_of h e -> is_Some (nodes h !! c)) ->
  (forall n, value_node h value n -> n ∉ children_of h e) ->
  attribute_built m value h = (h1, r) ->
  children_of h1 e = children_of h e.
Proof.
  intros He Hall Hout. unfold attribute_built. unfold bind at 1.
  assert (Hbound : forall c, c ∈ children_of h e -> (c < length (nodes h))%nat).
  { intros c Hc. by apply lookup_lt_is_Some, Hall. }
  destruct value as [s|n|a].
  - unfold new_XmlText, bind. destruct (negb (validateChar s)); [by intros [= <- <-]|].
    rewrite alloc_eq. unfold ret. intros Hnew.
    apply (new_XmlAttribute_children e (children_of h e)) in Hnew; [done| | |].
    + apply lookup_lt_is_Some in He. apply lookup_lt_is_Some.
      cbn [nodes alloc fst]. rewrite length_app. lia.
    + apply children_of_alloc.
    + intros n' -> Hin. apply Hbound in Hin. lia.
  - unfold ret. intros Hnew.
    by apply (new_XmlAttribute_children e (children_of h e)) in Hnew.
  - unfold bind, getArray. destruct (arrays h !! a) as [arrayVal|] eqn:Harr;
      [|by intros [= <- <-]].
    assert (Hh : value_outside (length (nodes h)) e (children_of h e) a h).
    { split; [done|]. split; [done|]. intros items n Hitems Hn. apply Hout.
      by exists items. }
    apply (convert_strings_outside _ _ _ _ O (length arrayVal) Hbound) in Hh.
    unfold after in Hh.
    destruct (convert_strings a 0 (length arrayVal) h) as [h0 [[]|err]];
      [|by intros [= <- <-]; destruct Hh].
    cbn [fst] in Hh. destruct Hh as (Hch & Hlen & Hitems). unfold ret. intros Hnew.
    apply (new_XmlAttribute_children e (children_of h e)) in Hnew; [done| |done|].
    + apply lookup_lt_is_Some in He. apply lookup_lt_is_Some. lia.
    + intros n (items & Ha & Hn). by apply (Hitems items).
Qed.

(** C4, as the code has it: when an Element has an Attribute of name [m]
    among its children, [insertChild] of an Attribute of that name throws
    [DuplicateAttribute] and changes nothing; the method [attribute] with
    that name throws as well: [DuplicateAttribute] when the Attribute got
    built, and the exception of the construction otherwise. After it the
    Attributes of the element, so their number, are as before, and so are all
    its children unless a node of the value was one of them. *)
Theorem C4_duplicate_attribute (h : heap) (e a : ref) (ename m : jsstring) :
  consistent h ->
  variant_of h e = Some (VElement ename) ->
  a ∈ children_of h e ->
  attribute_name h a = Some m ->
  (forall a2 idx, attribute_name h a2 = Some m ->
     insertChild e a2 idx h = (h, Throw DuplicateAttribute)) /\
  (forall value idx h' r,
     XmlElement_attribute e m value idx h = (h', r) ->
     (exists err, r = Throw err) /\
     (forall h1 attr, attribute_built m value h = (h1, Ok attr) ->
        r = Throw DuplicateAttribute) /\
     (forall h1 err, attribute_built m value h = (h1, Throw err) -> r = Throw err) /\
     attribute_nodes h' e = attribute_nodes h e /\
     length (attribute_nodes h' e) = length (attribute_nodes h e) /\
     ((forall n, value_node h value n -> n ∉ children_of h e) ->
      children_of h' e = children_of h e)).
Proof.
  intros Hh He Ha Hname.
  assert (Hall : forall c, c ∈ children_of h e -> is_Some (nodes h !! c)).
  { intros c Hc. apply Hh in Hc. unfold parent_of in Hc. by destruct (nodes h !! c). }
  assert (Hattrs : has_attributes e m (attribute_nodes h e) h).
  { split; [done|]. split; [|done]. exists a. split; [|done].
    apply list_elem_of_filter. split; [|done].
    unfold attribute_name in Hname. unfold is_attribute.
    destruct (nodes h !! a) as [[v ? ?]|]; [|done]. by destruct v. }
  assert (Hea : is_Some (nodes h !! e)) by (apply variant_of_is_Some; eauto).
  split.
  - intros a2 idx Ha2. unfold insertChild, bind, getNode.
    unfold variant_of in He. destruct (nodes h !! e) as [ed|] eqn:Hed; [|done].
    injection He as ->. by apply (XmlElement_insertChild_duplicate e m (attribute_nodes h e)).
  - intros value idx h' r. rewrite XmlElement_attribute_eq.
    destruct (attribute_built m value h) as [h1 [attr|err]] eqn:Hbuilt.
    + destruct (attribute_built_has_attributes _ _ _ _ _ _ _ _ Hattrs Hbuilt)
        as [Hattrs1 Hattr].
      unfold bind.
      rewrite (XmlElement_insertChild_duplicate e m (attribute_nodes h e)) by auto.
      intros [= <- <-]. destruct Hattrs1 as [Heq _].
      split; [eauto|]. split; [done|]. split; [done|]. split; [done|].
      split; [by rewrite Heq|].
      intros Hout. by apply (attribute_built_children e m value h h1 (Ok attr)).
    + intros [= <- <-].
      destruct (attribute_built_has_attributes _ _ _ _ _ _ _ _ Hattrs Hbuilt)
        as [[Heq _] _].
      split; [eauto|]. split; [done|]. split; [by intros h2 err' [= _ ->]|].
      split; [done|]. split; [by rewrite Heq|].
      intros Hout. by apply (attribute_built_children e m value h h1 (Throw err)).
Qed.

End DuplicateAttributeClaim.

Lemma C4_duplicate_attribute_witness :
  attribute_name heap_a_attr 2%nat = Some (js "b") /\
  insertChild 0%nat 2%nat None heap_a_attr = (heap_a_attr, Throw DuplicateAttribute) /\
  (XmlElement_attribute (validation := ascii_validation)
     0%nat (js "b") (ANode 1%nat) None heap_a_attr).2 = Throw DuplicateAttribute /\
  children_of (XmlElement_attribute (validation := ascii_validation)
                 0%nat (js "b") (ANode 1%nat) None heap_a_attr).1 0%nat
  = children_of heap_a_attr 0%nat.
Proof.
  split; [reflexivity|].
  destruct (C4_duplicate_attribute (validation := ascii_validation)
              heap_a_attr 0%nat 2%nat (js "a") (js "b")) as [Hinsert Hfactory].
  - apply (reachable_consistent (validation := ascii_validation)), run_reachable.
  - reflexivity.
  - vm_compute. apply list_elem_of_In. simpl. auto.
  - reflexivity.
  - split; [by apply Hinsert|].
    destruct (Hfactory (ANode 1%nat) None
                (XmlElement_attribute (validation := ascii_validation)
                   0%nat (js "b") (ANode 1%nat) None heap_a_attr).1
                (XmlElement_attribute (validation := ascii_validation)
                   0%nat (js "b") (ANode 1%nat) None heap_a_attr).2)
      as (_ & Hdup & _ & _ & _ & Hchildren).
    { by destruct (XmlElement_attribute 0%nat (js "b") (ANode 1%nat) None heap_a_attr). }
    split.
    + apply (Hdup (attribute_built (validation := ascii_validation)
                     (js "b") (ANode 1%nat) heap_a_attr).1 3%nat). reflexivity.
    + apply Hchildren. intros n -> Hin. vm_compute in Hin.
      apply list_elem_of_In in Hin. simpl in Hin. by destruct Hin as [|[]].
Defined.

(** C4 as stated fails for the method [attribute] in two ways. Called with a
    node that is a child of the element: the element [a] has the attribute
    [b] and the text [x]; [a.attribute("b", x)] throws [DuplicateAttribute],
    and the text is no longer among the children of [a]. Called with a value
    that the construction refuses, here a string with the code unit 1: the
    call fails with [InvalidCharacterData], not with [DuplicateAttribute]. *)
Lemma C4_duplicate_attribute_counterexample :
  reachable (validation := ascii_validation) heap_a_attr_x /\
  variant_of heap_a_attr_x 0%nat = Some (VElement (js "a")) /\
  children_of heap_a_attr_x 0%nat = [2%nat; 3%nat] /\
  attribute_name heap_a_attr_x 2%nat = Some (js "b") /\
  (XmlElement_attribute (validation := ascii_validation)
     0%nat (js "b") (ANode 3%nat) None heap_a_attr_x).2 = Throw DuplicateAttribute /\
  children_of (XmlElement_attribute (validation := ascii_validation)
                 0%nat (js "b") (ANode 3%nat) None heap_a_attr_x).1 0%nat = [2%nat] /\
  XmlElement_attribute (validation := ascii_validation)
    0%nat (js "b") (AStr [1%N]) None heap_a_attr_x
  = (heap_a_attr_x, Throw InvalidCharacterData).
Proof.
  split; [apply run_reachable|]. repeat split; reflexivity.
Qed.

(** ** Allocated nodes, and the classes after a call *)

Lemma children_of_allocated h p c : c ∈ children_of h p -> is_Some (nodes h !! p).
Proof.
  unfold children_of. destruct (nodes h !! p); [by eauto|]. by intros ?%elem_of_nil.
Qed.

Lemma parent_of_allocated h n p : parent_of h n = Some p -> is_Some (nodes h !! n).
Proof. unfold parent_of. destruct (nodes h !! n); [by eauto | done]. Qed.

Lemma consistent_parent_allocated h n p :
  consistent h -> parent_of h n = Some p -> is_Some (nodes h !! p).
Proof. intros [Hc _] Hpar. apply Hc in Hpar. by apply children_of_allocated in Hpar. Qed.

Lemma removeChild_permitted p n h pd :
  nodes h !! p = Some pd -> permits_children (var pd) = true ->
  removeChild p n h = XmlNode_removeChild p n h.
Proof.
  intros Hp Hv. unfold removeChild, XmlAttribute_removeChild, bind, getNode. rewrite Hp.
  by destruct (var pd).
Qed.

Lemma XmlNode_insertChild_variants p n idx h x :
  variant_of (after (XmlNode_insertChild p n idx) h) x = variant_of h x.
Proof.
  unfold after. destruct (XmlNode_insertChild p n idx h) as [h' r] eqn:Heq.
  apply XmlNode_insertChild_cases in Heq as [[-> _]|(h1 & Hdet & -> & _)]; [done|].
  cbn [fst]. by rewrite variant_of_attach, (detached_variant_of h n).
Qed.

Lemma XmlElement_insertChild_variants e n idx h x :
  variant_of (after (XmlElement_insertChild e n idx) h) x = variant_of h x.
Proof.
  pose proof (XmlNode_insertChild_variants e n idx h x) as Hbase. unfold after in *.
  destruct (XmlElement_insertChild e n idx h) as [h' r] eqn:Heq.
  apply XmlElement_insertChild_cases in Heq as [[-> _]|[Heq _]]; [done|].
  by rewrite Heq in Hbase.
Qed.

Lemma XmlAttribute_insertChild_variants a n idx h x :
  variant_of (after (XmlAttribute_insertChild a n idx) h) x = variant_of h x.
Proof.
  pose proof (XmlNode_insertChild_variants a n idx h x) as Hbase.
  unfold after, XmlAttribute_insertChild, bind, getNode in *.
  destruct (nodes h !! n) as [nd|]; [|done].
  by destruct (negb (attribute_child (var nd))).
Qed.

Lemma insertChild_variants p n idx h x :
  variant_of (after (insertChild p n idx) h) x = variant_of h x.
Proof.
  pose proof (XmlNode_insertChild_variants p n idx h x) as Hbase. unfold after in *.
  destruct (insertChild p n idx h) as [h' r] eqn:Heq.
  apply insertChild_cases in Heq as [[-> _]|[Heq _]]; [done|].
  by rewrite Heq in Hbase.
Qed.

Lemma removeChild_variants p n h x :
  variant_of (after (removeChild p n) h) x = variant_of h x.
Proof.
  unfold after. destruct (removeChild p n h) as [h' r] eqn:Heq.
  apply removeChild_cases in Heq as [[-> _]|(j & _ & _ & -> & _)]; [done|].
  apply variant_of_detach.
Qed.

Lemma removeChildAtIndex_variants p i h x :
  variant_of (after (removeChildAtIndex p i) h) x = variant_of h x.
Proof.
  unfold after. destruct (removeChildAtIndex p i h) as [h' r] eqn:Heq.
  apply removeChildAtIndex_cases in Heq as [[-> _]|(n & _ & _ & -> & _)]; [done|].
  apply variant_of_detach.
Qed.

Lemma XmlNode_remove_variants n h x :
  variant_of (after (XmlNode_remove n) h) x = variant_of h x.
Proof.
  pose proof (fun q => removeChild_variants q n h x) as Hrm.
  unfold after, XmlNode_remove, bind, getNode in *.
  destruct (nodes h !! n) as [nd|]; [|done]. destruct (parent nd) as [q|]; [|done].
  specialize (Hrm q). by destruct (removeChild q n h) as [h' [b|e]].
Qed.

(** ** Names (C7) *)

Section Names.
Context {validation : Validation}.

Lemma alloc_ok (v : variant) (h : heap) :
  exists h' r, alloc v h = (h', Ok r) /\ variant_of h' r = Some v.
Proof.
  exists (alloc v h).1, (length (nodes h)). split; [done|].
  rewrite variant_of_alloc. by rewrite decide_True.
Qed.

Lemma removeChild_not_InvalidName p n h h' :
  removeChild p n h <> (h', Throw InvalidName).
Proof.
  unfold removeChild, XmlAttribute_removeChild, bind, getNode.
  destruct (nodes h !! p) as [pd|]; [|done].
  destruct (var pd); try done; rewrite XmlNode_removeChild_eq;
    repeat case_match; congruence.
Qed.

Lemma XmlNode_insertChild_not_InvalidName t n idx h h' :
  XmlNode_insertChild t n idx h <> (h', Throw InvalidName).
Proof.
  unfold XmlNode_insertChild, bind, getNode.
  destruct (nodes h !! t) as [td|]; [|done].
  destruct (nodes h !! n) as [nd|] eqn:Hn; [|done].
  case_bool_decide; [done|]. destruct (indexOf n (children td)); [done|].
  rewrite Hn. destruct (parent nd) as [q|]; [|done].
  destruct (removeChild q n h) as [h1 [b|err]] eqn:Hrm; [done|].
  intros [= -> ->]. by apply removeChild_not_InvalidName in Hrm.
Qed.

Lemma XmlAttribute_insertChild_not_InvalidName t n idx h h' :
  XmlAttribute_insertChild t n idx h <> (h', Throw InvalidName).
Proof.
  unfold XmlAttribute_insertChild, bind, getNode.
  destruct (nodes h !! n) as [nd|]; [|done].
  destruct (negb (attribute_child (var nd))); [done|].
  apply XmlNode_insertChild_not_InvalidName.
Qed.

Lemma XmlAttribute_insert_all_not_InvalidName t items h h' :
  XmlAttribute_insert_all t items h <> (h', Throw InvalidName).
Proof.
  revert h. induction items as [|[s|n] items IH]; intros h; simpl; try done.
  unfold bind. destruct (XmlAttribute_insertChild t n None h) as [h1 [r|err]] eqn:Heq.
  - apply IH.
  - intros [= -> ->]. by apply XmlAttribute_insertChild_not_InvalidName in Heq.
Qed.

Lemma new_XmlAttribute_valid_name (s : jsstring) (value : attrValue) (h h' : heap) :
  validateName s = true -> new_XmlAttribute s value h <> (h', Throw InvalidName).
Proof.
  intros Hs. rewrite new_XmlAttribute_eq, Hs. cbn [negb]. cbn zeta.
  destruct value as [x|n|a]; unfold bind, getArray, throw, ret.
  - done.
  - destruct (XmlAttribute_insertChild _ n None _) as [h1 [r|err]] eqn:Heq; [done|].
    intros [= -> ->]. by apply XmlAttribute_insertChild_not_InvalidName in Heq.
  - cbn [arrays alloc fst]. destruct (arrays h !! a) as [items|]; [|done].
    destruct (XmlAttribute_insert_all _ items _) as [h1 [r|err]] eqn:Heq; [done|].
    intros [= -> ->]. by apply XmlAttribute_insert_all_not_InvalidName in Heq.
Qed.

Lemma XmlNode_insertChild_end_ok (h : heap) (t n : ref) :
  consistent h -> well_classed h ->
  is_Some (nodes h !! t) -> is_Some (nodes h !! n) ->
  exists h' r, XmlNode_insertChild t n None h = (h', Ok r).
Proof.
  intros Hc Hw [td Ht] [nd Hn]. unfold XmlNode_insertChild, bind, getNode.
  rewrite Ht, Hn. cbn [index_or_end]. rewrite bool_decide_eq_false_2 by lia.
  destruct (indexOf n (children td)); [by eexists _, _|]. rewrite Hn.
  destruct (parent nd) as [p|] eqn:Hp; [|by eexists _, _].
  assert (Hpar : parent_of h n = Some p) by (unfold parent_of; by rewrite Hn).
  assert (Hin : n ∈ children_of h p) by by apply Hc.
  destruct (Hw p n Hin) as (vp & vn & Hvp & _ & Hacc).
  unfold variant_of in Hvp. destruct (nodes h !! p) as [pd|] eqn:Hpd; [|done].
  injection Hvp as <-.
  assert (Hperm : permits_children (var pd) = true) by by destruct (var pd).
  rewrite (removeChild_permitted p n h pd Hpd Hperm), XmlNode_removeChild_eq, Hn, Hpd.
  destruct (indexOf n (children pd)); by eexists _, _.
Qed.

Lemma XmlAttribute_insertChild_end_ok (h : heap) (t n : ref) :
  consistent h -> well_classed h ->
  is_Some (nodes h !! t) -> attribute_node h n ->
  exists h' r, XmlAttribute_insertChild t n None h = (h', Ok r).
Proof.
  intros Hc Hw Ht (v & Hv & Hclass). unfold XmlAttribute_insertChild, bind, getNode.
  unfold variant_of in Hv. destruct (nodes h !! n) as [nd|] eqn:Hn; [|done].
  injection Hv as <-. rewrite Hclass. cbn [negb].
  apply XmlNode_insertChild_end_ok; try done; by eexists.
Qed.

Lemma attribute_node_after (h : heap) (t n x : ref) (idx : option Z) :
  attribute_node h x -> attribute_node (after (XmlAttribute_insertChild t n idx) h) x.
Proof.
  intros (v & Hv & Hclass). exists v. by rewrite XmlAttribute_insertChild_variants.
Qed.

Lemma XmlAttribute_insert_all_ok (t : ref) (items : list item) (h : heap) :
  consistent h -> classed (known_one t KAttribute) h ->
  Forall (fun it => exists n, it = INode n /\ attribute_node h n) items ->
  exists h', XmlAttribute_insert_all t items h = (h', Ok tt) /\
             forall x, variant_of h' x = variant_of h x.
Proof.
  revert h. induction items as [|it items IH]; intros h Hc Hk Hitems.
  { by exists h. }
  apply Forall_cons in Hitems as [(n & -> & Hn) Hitems]. cbn [XmlAttribute_insert_all].
  assert (Ht : is_Some (nodes h !! t)).
  { destruct Hk as [_ Hk]. specialize (Hk t KAttribute (conj eq_refl eq_refl)).
    unfold kind_at in Hk. apply variant_of_is_Some.
    destruct (variant_of h t); [by eexists | done]. }
  destruct (XmlAttribute_insertChild_end_ok h t n Hc (proj1 Hk) Ht Hn) as (h1 & r & Heq).
  pose proof (XmlAttribute_insertChild_consistent t n None h Hc) as Hc1.
  pose proof (XmlAttribute_insertChild_classed (known_one t KAttribute) t n None
                (conj eq_refl eq_refl) h Hk) as Hk1.
  pose proof (fun x => XmlAttribute_insertChild_variants t n None h x) as Hv1.
  assert (Hitems1 : Forall (fun it => exists n, it = INode n /\ attribute_node h1 n) items).
  { eapply Forall_impl; [exact Hitems|]. intros it (n' & -> & Hn'). exists n'.
    split; [done|]. pose proof (attribute_node_after h t n n' None Hn') as Hn1.
    unfold after in Hn1. by rewrite Heq in Hn1. }
  unfold after in Hc1, Hk1, Hv1. rewrite Heq in Hc1, Hk1, Hv1.
  cbn [fst] in Hc1, Hk1, Hv1.
  destruct (IH h1 Hc1 Hk1 Hitems1) as (h' & Hrest & Hv').
  exists h'. unfold bind. rewrite Heq. split; [done|].
  intros x. by rewrite Hv', Hv1.
Qed.

Lemma new_XmlAttribute_ok (s : jsstring) (value : attrValue) (h : heap) :
  validateName s = true -> consistent h -> well_classed h -> value_accepted h value ->
  exists h' r, new_XmlAttribute s value h = (h', Ok r) /\
               variant_of h' r = Some (VAttribute s).
Proof.
  intros Hs Hc Hw Hvalue. rewrite new_XmlAttribute_eq, Hs. cbn [negb]. cbn zeta.
  set (this := length (nodes h)). set (ha := (alloc (VAttribute s) h).1).
  assert (Hca : consistent ha) by by apply alloc_consistent.
  assert (Hka : classed (known_one this KAttribute) ha).
  { apply (classed_weaken (known_also this (kind_of (VAttribute s)) nothing_known)).
    - intros n k [-> ->]. by left.
    - by apply alloc_classed_also. }
  assert (Hta : is_Some (nodes ha !! this)).
  { unfold ha. rewrite nodes_alloc, decide_True by done. by eexists. }
  assert (Hva : variant_of ha this = Some (VAttribute s)).
  { unfold ha. by rewrite variant_of_alloc, decide_True. }
  assert (Hnode : forall n, attribute_node h n -> attribute_node ha n).
  { intros n (v & Hv & Hclass). exists v. split; [|done].
    unfold ha. rewrite variant_of_alloc, decide_False; [done|].
    intros ->. by rewrite variant_of_fresh in Hv. }
  destruct value as [x|n|a]; [done| |].
  - destruct (XmlAttribute_insertChild_end_ok ha this n Hca (proj1 Hka) Hta (Hnode n Hvalue))
      as (h1 & r & Heq).
    pose proof (XmlAttribute_insertChild_variants this n None ha this) as Hv1.
    unfold after in Hv1. unfold bind, ret. fold ha. rewrite Heq in Hv1 |- *.
    exists h1, this. split; [done|]. cbn [fst] in Hv1. by rewrite Hv1.
  - destruct Hvalue as (items & Ha & Hitems). unfold bind, getArray. fold ha.
    change (arrays ha) with (arrays h). rewrite Ha.
    destruct (XmlAttribute_insert_all_ok this items ha Hca Hka) as (h1 & Heq & Hv1).
    { eapply Forall_impl; [exact Hitems|]. intros it (n & -> & Hn). exists n. auto. }
    rewrite Heq. exists h1, this. split; [done|]. by rewrite Hv1.
Qed.

Lemma new_XmlProcInst_ok (s : jsstring) (content : option jsstring) (h : heap) :
  validateName s = true -> lower <$> s <> js "xml" -> content_accepted content ->
  exists h' r, new_XmlProcInst s content h = (h', Ok r) /\
               variant_of h' r = Some (VProcInst s content).
Proof.
  intros Hs Hxml Hcontent. unfold new_XmlProcInst. rewrite Hs. cbn [negb].
  rewrite bool_decide_eq_false_2 by done.
  destruct content as [c|]; [|apply alloc_ok].
  destruct Hcontent as [Hc Hno]. rewrite Hc. cbn [negb].
  destruct (contains (js "?>") c) eqn:Hsub; [|apply alloc_ok].
  exfalso. apply Hno. by apply (proj1 (contains_spec _ _)).
Qed.

(** C7, as the code has it. A string that is no XML Name: the constructors of
    Element, Entity-Reference, Processing-Instruction and Attribute, and the
    [name] setter of an Element, throw [InvalidName]. A valid Name: Element
    and Entity-Reference are constructed and the setter accepts it; a
    Processing-Instruction is constructed exactly when the target is not
    [xml] in some case of letters and the content is accepted; an Attribute
    is constructed when its value is accepted; neither fails with
    [InvalidName]. A DTD-Entity holds a text, which is checked by
    [validateChar] alone: it is constructed exactly when that accepts the
    string, Name or not, and fails with [InvalidCharacterData] otherwise. *)
Theorem C7_names (s : jsstring) (h : heap) :
  (validateName s = false ->
     new_XmlElement s h = (h, Throw InvalidName) /\
     new_XmlEntityRef s h = (h, Throw InvalidName) /\
     (forall content, new_XmlProcInst s content h = (h, Throw InvalidName)) /\
     (forall value, new_XmlAttribute s value h = (h, Throw InvalidName)) /\
     (forall e old, variant_of h e = Some (VElement old) ->
                    XmlElement_set_name e s h = (h, Throw InvalidName))) /\
  (validateName s = true ->
     (exists h' r, new_XmlElement s h = (h', Ok r) /\ variant_of h' r = Some (VElement s)) /\
     (exists h' r, new_XmlEntityRef s h = (h', Ok r) /\
                   variant_of h' r = Some (VEntityRef s)) /\
     (forall content h', new_XmlProcInst s content h <> (h', Throw InvalidName)) /\
     (forall content,
        (exists h' r, new_XmlProcInst s content h = (h', Ok r) /\
                      variant_of h' r = Some (VProcInst s content))
        <-> lower <$> s <> js "xml" /\ content_accepted content) /\
     (forall value h', new_XmlAttribute s value h <> (h', Throw InvalidName)) /\
     (forall value,
        consistent h -> well_classed h -> value_accepted h value ->
        exists h' r, new_XmlAttribute s value h = (h', Ok r) /\
                     variant_of h' r = Some (VAttribute s)) /\
     (forall e old, variant_of h e = Some (VElement old) ->
        exists h', XmlElement_set_name e s h = (h', Ok tt) /\
                   variant_of h' e = Some (VElement s))) /\
  ((validateChar s = true ->
      exists h' r, new_XmlDtdEntity s h = (h', Ok r) /\
                   variant_of h' r = Some (VDtdEntity s)) /\
   (validateChar s = false -> new_XmlDtdEntity s h = (h, Throw InvalidCharacterData))).
Proof.
  split; [|split].
  - intros Hs. unfold new_XmlElement, new_XmlEntityRef, new_XmlProcInst, new_XmlAttribute.
    rewrite Hs. cbn [negb]. repeat split; try done.
    intros e old He. unfold XmlElement_set_name, bind, getNode.
    unfold variant_of in He. destruct (nodes h !! e) as [ed|]; [|done].
    injection He as ->. by rewrite Hs.
  - intros Hs. split; [|split; [|split; [|split; [|split; [|split]]]]].
    + unfold new_XmlElement. rewrite Hs. apply alloc_ok.
    + unfold new_XmlEntityRef. rewrite Hs. apply alloc_ok.
    + intros content h'. unfold new_XmlProcInst. rewrite Hs. cbn [negb].
      repeat case_match; try done; by rewrite alloc_eq.
    + intros content. split; [|by intros [Hxml Hcontent]; apply new_XmlProcInst_ok].
      intros (h' & r & Heq & _). revert Heq. unfold new_XmlProcInst. rewrite Hs. cbn [negb].
      case_bool_decide as Hxml; [done|]. intros Heq. split; [done|].
      destruct content as [c|]; [|done]. cbn [content_accepted].
      destruct (validateChar c); [|done]. cbn [negb] in Heq.
      destruct (contains (js "?>") c) eqn:Hsub; [done|]. split; [done|].
      intros Hocc. apply (proj2 (contains_spec _ _)) in Hocc. congruence.
    + intros value h'. by apply new_XmlAttribute_valid_name.
    + intros value Hc Hw Hvalue. by apply new_XmlAttribute_ok.
    + intros e old He. unfold XmlElement_set_name, bind, getNode.
      unfold variant_of in He |- *. destruct (nodes h !! e) as [ed|] eqn:Hed; [|done].
      injection He as ->. rewrite Hs. cbn [negb]. eexists. split; [done|].
      rewrite nodes_update, decide_True by done. by rewrite Hed.
  - unfold new_XmlDtdEntity. split; intros ->; cbn [negb]; [apply alloc_ok | done].
Qed.

End Names.

Lemma C7_names_witness :
  validateName (Validation := ascii_validation) (js "a:b-1") = true /\
  (exists h' r,
     new_XmlElement (validation := ascii_validation) (js "a:b-1") empty_heap = (h', Ok r) /\
     variant_of h' r = Some (VElement (js "a:b-1"))) /\
  (exists h' r,
     new_XmlProcInst (validation := ascii_validation) (js "a:b-1") (Some (js "x y"))
       empty_heap = (h', Ok r) /\
     variant_of h' r = Some (VProcInst (js "a:b-1") (Some (js "x y")))) /\
  (exists h' r,
     new_XmlAttribute (validation := ascii_validation) (js "a:b-1") (ANode 1%nat) heap_a_t
     = (h', Ok r) /\
     variant_of h' r = Some (VAttribute (js "a:b-1"))).
Proof.
  split; [reflexivity|].
  pose proof (proj1 (proj2 (C7_names (validation := ascii_validation)
                              (js "a:b-1") empty_heap)) eq_refl)
    as (Helement & _ & _ & Hpi & _).
  pose proof (proj1 (proj2 (C7_names (validation := ascii_validation)
                              (js "a:b-1") heap_a_t)) eq_refl)
    as (_ & _ & _ & _ & _ & Hattr & _).
  split; [exact Helement|]. split.
  - apply Hpi. split; [vm_compute; discriminate|]. split; [reflexivity|].
    intros Hocc. by apply (proj2 (contains_spec _ _)) in Hocc.
  - apply Hattr.
    + apply (reachable_consistent (validation := ascii_validation)), run_reachable.
    + apply (reachable_well_classed (validation := ascii_validation)), run_reachable.
    + by exists (VText (js "x")).
Defined.

(** C7 as stated fails for the DTD-Entity, and in its second half for the
    Processing-Instruction and the Attribute: [123] is no Name, and
    [new XmlDtdEntity("123")] is constructed (the tests of the class set its
    text to [123]); [xml] is a Name, and no Processing-Instruction of this
    target is constructed; [b] is a Name, and no Attribute of this name with
    an Element as its value is constructed. *)
Lemma C7_names_counterexample :
  validateName (Validation := ascii_validation) (js "123") = false /\
  (exists h' r, new_XmlDtdEntity (validation := ascii_validation) (js "123") empty_heap
                = (h', Ok r)) /\
  validateName (Validation := ascii_validation) (js "xml") = true /\
  new_XmlProcInst (validation := ascii_validation) (js "xml") None empty_heap
  = (empty_heap, Throw InvalidCharacterData) /\
  validateName (Validation := ascii_validation) (js "b") = true /\
  variant_of heap_a_t 0%nat = Some (VElement (js "a")) /\
  (new_XmlAttribute (validation := ascii_validation) (js "b") (ANode 0%nat) heap_a_t).2
  = Throw InvalidArgument.
Proof.
  split; [reflexivity|]. split; [by eexists _, _|]. repeat split; reflexivity.
Qed.

(** ** Serialization returns (C9) *)

Section MoreFuel.
Variables render render' : ref -> rendering.
Hypothesis Hext : extends_rendering render render'.

Lemma render_attributes_extends attrs str r :
  render_attributes render attrs str = Some r ->
  render_attributes render' attrs str = Some r.
Proof.
  revert str. induction attrs as [|a attrs IH]; intros str; simpl; [done|].
  destruct (render a) as [[s|err]|] eqn:Ha; [| |done].
  - rewrite (Hext _ _ Ha). apply IH.
  - by rewrite (Hext _ _ Ha).
Qed.

Lemma render_all_extends cs str r :
  render_all render cs str = Some r -> render_all render' cs str = Some r.
Proof.
  revert str. induction cs as [|c cs IH]; intros str; simpl; [done|].
  destruct (render c) as [[s|err]|] eqn:Hc; [| |done].
  - rewrite (Hext _ _ Hc). apply IH.
  - by rewrite (Hext _ _ Hc).
Qed.

Lemma render_nodes_extends h o nodes count i str r :
  render_nodes render h o nodes count i str = Some r ->
  render_nodes render' h o nodes count i str = Some r.
Proof.
  revert i str. induction count as [|count IH]; intros i str; simpl; [done|].
  destruct (nodes !! i) as [next|]; [|done].
  destruct (render next) as [[s|err]|] eqn:Hn; [| |done].
  - rewrite (Hext _ _ Hn). destruct (_ && _); apply IH.
  - by rewrite (Hext _ _ Hn).
Qed.

Lemma XmlElement_toString_extends h o name cs r :
  XmlElement_toString render h o name cs = Some r ->
  XmlElement_toString render' h o name cs = Some r.
Proof.
  unfold XmlElement_toString.
  destruct (render_attributes render _ _) as [[str|err]|] eqn:Ha; [| |done].
  - rewrite (render_attributes_extends _ _ _ Ha). case_bool_decide; [|done].
    destruct (render_nodes render _ _ _ _ _ _) as [[str'|err]|] eqn:Hn; [| |done].
    + by rewrite (render_nodes_extends _ _ _ _ _ _ _ Hn).
    + by rewrite (render_nodes_extends _ _ _ _ _ _ _ Hn).
  - by rewrite (render_attributes_extends _ _ _ Ha).
Qed.

Lemma XmlAttribute_toString_extends name cs r :
  XmlAttribute_toString render name cs = Some r ->
  XmlAttribute_toString render' name cs = Some r.
Proof.
  unfold XmlAttribute_toString.
  destruct (render_all render _ _) as [[str|err]|] eqn:Ha; [| |done].
  - by rewrite (render_all_extends _ _ _ Ha).
  - by rewrite (render_all_extends _ _ _ Ha).
Qed.

End MoreFuel.

Section NeverFails.
Context {validation : Validation} {markup : LeafMarkup}.

Lemma toString_S (fuel : nat) (h : heap) (o : StringOptions) :
  extends_rendering (toString fuel h o) (toString (S fuel) h o).
Proof.
  induction fuel as [|fuel IH]; intros n r; [done|].
  intros Hr. cbn [toString] in Hr |- *.
  destruct (nodes h !! n) as [nd|]; [|done].
  destruct (var nd); try done.
  - by apply (XmlAttribute_toString_extends _ _ IH).
  - by apply (XmlElement_toString_extends _ _ IH).
Qed.

Lemma toString_more_fuel (fuel fuel' : nat) (h : heap) (o : StringOptions) :
  (fuel <= fuel')%nat -> extends_rendering (toString fuel h o) (toString fuel' h o).
Proof.
  induction 1 as [|fuel' _ IH]; [by intros n r|].
  intros n r Hr. by apply toString_S, IH.
Qed.

(** Nodes that each render with some fuel all render with one fuel. *)
Lemma renders_together (h : heap) (o : StringOptions) (cs : list ref) :
  (forall c, c ∈ cs -> exists fuel s, toString fuel h o c = Some (Ok s)) ->
  exists fuel rs, renders (toString fuel h o) cs rs.
Proof.
  induction cs as [|c cs IH]; intros Hall.
  - exists O, []. constructor.
  - destruct (Hall c) as (f1 & s & Hc); [by left|].
    destruct IH as (f2 & rs & Hcs); [intros c' Hc'; apply Hall; by right|].
    exists (f1 `max` f2)%nat, (s :: rs). constructor.
    + apply (toString_more_fuel f1); [lia | done].
    + eapply Forall2_impl; [exact Hcs|]. intros c' r' Hr'.
      apply (toString_more_fuel f2); [lia | done].
Qed.

Lemma render_all_ok (render : ref -> rendering) (cs : list ref) (rs : list jsstring)
    (str : jsstring) :
  renders render cs rs -> render_all render cs str = Some (Ok (str ++ concat rs)).
Proof.
  intros Hr. revert str. induction Hr as [|c r cs rs Hc _ IH]; intros str; simpl.
  - by rewrite app_nil_r.
  - rewrite Hc, IH. by rewrite <- app_assoc.
Qed.

Lemma renders_sublist (render : ref -> rendering) (P : ref -> Prop)
    `{!forall x, Decision (P x)} (cs : list ref) (rs : list jsstring) :
  renders render cs rs -> exists rs', renders render (filter P cs) rs'.
Proof.
  induction 1 as [|c r cs rs Hc _ [rs' IH]]; [exists []; constructor|].
  rewrite filter_cons. destruct (decide (P c)); [|by exists rs'].
  exists (r :: rs'). by constructor.
Qed.

(** C9, as the code has it: in a heap a client can reach, [toString] returns
    a string, for any options, on every node that is not a direct instance of
    the base class and below which the nodes form a tree of finite depth. *)
Theorem C9_toString_returns (h : heap) (n : ref) (o : StringOptions) :
  reachable h ->
  (exists v, variant_of h n = Some v /\ kind_of v <> KNode) ->
  finite_below h n ->
  exists fuel s, toString fuel h o n = Some (Ok s).
Proof.
  intros Hr Hn Hfin. pose proof (reachable_well_classed h Hr) as Hwc.
  induction Hfin as [n _ IH].
  destruct Hn as (v & Hv & Hkind).
  assert (Hchildren : exists fuel rs, renders (toString fuel h o) (children_of h n) rs).
  { apply renders_together. intros c Hc. apply IH; [done|].
    destruct (Hwc n c Hc) as (vp & vc & Hvp & Hvc & Hacc).
    exists vc. split; [done|]. intros Hk. destruct vc; try done.
    rewrite Hv in Hvp. injection Hvp as <-. by destruct v. }
  destruct Hchildren as (fuel & rs & Hrs).
  unfold variant_of, children_of in *.
  destruct (nodes h !! n) as [nd|] eqn:Hnd; [|done]. injection Hv as <-.
  destruct (var nd) eqn:Hvar; try done;
    try (exists 1%nat; eexists; cbn [toString]; rewrite Hnd, Hvar; reflexivity).
  - exists (S fuel). eexists. cbn [toString]. rewrite Hnd, Hvar.
    unfold XmlAttribute_toString. by rewrite (render_all_ok _ _ rs).
  - destruct (renders_sublist _ (fun n => is_attribute h n = true) _ _ Hrs) as [ras Hras].
    destruct (renders_sublist _ (fun n => is_attribute h n = false) _ _ Hrs) as [rcs Hrcs].
    exists (S fuel). eexists. cbn [toString]. rewrite Hnd, Hvar.
    by rewrite (XmlElement_toString_ok _ _ _ _ _ ras rcs).
Qed.

End NeverFails.

Lemma heap_cycle_eq :
  heap_cycle = Heap [Node (VElement (js "a")) (Some 0%nat) [0%nat]] [].
Proof. reflexivity. Qed.

Lemma C9_toString_returns_witness :
  exists fuel s,
    toString (markup := plain_markup) fuel heap_a_x_b pretty_options 0%nat = Some (Ok s).
Proof.
  apply (C9_toString_returns (validation := ascii_validation) (markup := plain_markup)).
  - apply run_reachable.
  - eexists. split; [reflexivity | discriminate].
  - constructor. intros c Hc.
    change (children_of heap_a_x_b 0%nat) with [1%nat; 2%nat] in Hc.
    apply elem_of_cons in Hc as [->|Hc];
      [|apply elem_of_cons in Hc as [->|Hc]; [|by apply elem_of_nil in Hc]];
      constructor; intros c' Hc'.
    + change (children_of heap_a_x_b 1%nat) with (@nil nat) in Hc'.
      by apply elem_of_nil in Hc'.
    + change (children_of heap_a_x_b 2%nat) with (@nil nat) in Hc'.
      by apply elem_of_nil in Hc'.
Defined.

(** C9 as stated fails: the constructor of the element [a] and
    [a.insertChild(a)] both return, and [toString] of [a] calls itself on [a]
    without end, whatever the options. *)
Lemma C9_toString_returns_counterexample :
  new_XmlElement (validation := ascii_validation) (js "a") empty_heap
  = (Heap [Node (VElement (js "a")) None []] [], Ok 0%nat) /\
  insertChild 0%nat 0%nat None (Heap [Node (VElement (js "a")) None []] [])
  = (heap_cycle, Ok (Some 0%nat)) /\
  reachable (validation := ascii_validation) heap_cycle /\
  forall (o : StringOptions) (fuel : nat),
    toString (markup := plain_markup) fuel heap_cycle o 0%nat = None.
Proof.
  split; [reflexivity|]. split; [reflexivity|]. split; [apply run_reachable|].
  intros o fuel. rewrite heap_cycle_eq.
  induction fuel as [|fuel IH]; [done|].
  cbn [toString nodes lookup list_lookup var children].
  unfold XmlElement_toString.
  replace (XmlElement_attributes _ [0%nat]) with (@nil nat) by reflexivity.
  cbn [filter list_filter indexOf]. rewrite decide_True by done.
  cbn [render_attributes length]. rewrite bool_decide_eq_true_2 by lia.
  cbn [render_nodes lookup list_lookup]. by rewrite IH.
Qed.

(** ** The array given to [attribute] (C10) *)

Lemma extends_refl h : extends h h.
Proof. by split. Qed.

Lemma alloc_extends h0 v : preserves (extends h0) (alloc v).
Proof.
  intros h [Harr Hv]. unfold after. split; [done|].
  intros x vx Hx. apply (alloc_variant_at x vx v h). by apply Hv.
Qed.

Lemma detached_arrays h n h1 : detached h n h1 -> arrays h1 = arrays h.
Proof. by intros [?|?|q j ? ?]. Qed.

Lemma XmlNode_insertChild_extends h0 p n idx : preserves (extends h0) (XmlNode_insertChild p n idx).
Proof.
  intros h [Harr Hv]. unfold after.
  destruct (XmlNode_insertChild p n idx h) as [h' r] eqn:Heq.
  apply XmlNode_insertChild_cases in Heq as [[-> _]|(h1 & Hdet & -> & _)]; [done|].
  cbn [fst]. split.
  - unfold attach, update. simpl. by rewrite (detached_arrays h n).
  - intros x v Hx. rewrite variant_of_attach, (detached_variant_of h n) by done.
    by apply Hv.
Qed.

Lemma XmlAttribute_insertChild_extends h0 t n idx :
  preserves (extends h0) (XmlAttribute_insertChild t n idx).
Proof.
  intros h Hh. unfold after.
  destruct (XmlAttribute_insertChild t n idx h) as [h' r] eqn:Heq.
  apply XmlAttribute_insertChild_cases in Heq as [[-> _]|[Heq _]]; [done|].
  pose proof (XmlNode_insertChild_extends h0 t n idx h Hh) as Hc.
  unfold after in Hc. by rewrite Heq in Hc.
Qed.

Lemma XmlElement_insertChild_extends h0 e n idx :
  preserves (extends h0) (XmlElement_insertChild e n idx).
Proof.
  intros h Hh. unfold after.
  destruct (XmlElement_insertChild e n idx h) as [h' r] eqn:Heq.
  apply XmlElement_insertChild_cases in Heq as [[-> _]|[Heq _]]; [done|].
  pose proof (XmlNode_insertChild_extends h0 e n idx h Hh) as Hc.
  unfold after in Hc. by rewrite Heq in Hc.
Qed.

Section ArrayMutated.
Context {validation : Validation}.

Lemma new_XmlAttribute_extends h0 name value : preserves (extends h0) (new_XmlAttribute name value).
Proof.
  unfold new_XmlAttribute. destruct (negb (validateName name)); [apply preserves_throw|].
  apply preserves_bind; [apply alloc_extends|]. intros this.
  apply preserves_bind; [|intros _; apply preserves_ret].
  apply new_XmlAttribute_inserts. intros n idx. apply XmlAttribute_insertChild_extends.
Qed.

Lemma convert_strings_spec (a : nat) (count i : nat) (h : heap) (cur : list item) :
  arrays h !! a = Some cur ->
  exists h' cur' r,
    convert_strings a i count h = (h', r) /\
    arrays h' !! a = Some cur' /\
    length cur' = length cur /\
    (forall j, (j < i \/ i + count <= j)%nat -> cur' !! j = cur !! j) /\
    (forall j n, cur !! j = Some (INode n) -> cur' !! j = Some (INode n)) /\
    (forall j s, (i <= j < i + count)%nat -> cur !! j = Some (IStr s) ->
       (forall k s', (i <= k <= j)%nat -> cur !! k = Some (IStr s') ->
                     validateChar s' = true) ->
       exists t, cur' !! j = Some (INode t) /\ (length (nodes h) <= t)%nat /\
                 variant_of h' t = Some (VText s)) /\
    (forall j k s', (i <= k <= j)%nat -> (k < i + count)%nat ->
       cur !! k = Some (IStr s') -> validateChar s' = false ->
       cur' !! j = cur !! j) /\
    (forall x v, variant_of h x = Some v -> variant_of h' x = Some v) /\
    (length (nodes h) <= length (nodes h'))%nat /\
    (r = Ok tt \/ exists err, r = Throw err).
Proof.
  revert i h cur. induction count as [|count IH]; intros i h cur Ha.
  { exists h, cur, (Ok tt). repeat split; try done; try (intros; lia). by left. }
  cbn [convert_strings]. unfold bind at 1. unfold getArray at 1. rewrite Ha.
  destruct (cur !! i) as [[s|n]|] eqn:Hi.
  - unfold bind at 1. unfold bind at 1. unfold new_XmlText.
    destruct (validateChar s) eqn:Hs; cbn [negb].
    + assert (Hlt : (i < length cur)%nat) by (apply lookup_lt_is_Some; eauto).
      rewrite alloc_eq. unfold setItem.
      set (t := length (nodes h)).
      set (h2 := Heap (nodes (alloc (VText s) h).1)
                   (alter (fun items => <[i:=INode t]> items) a
                      (arrays (alloc (VText s) h).1))).
      assert (Ha2 : arrays h2 !! a = Some (<[i:=INode t]> cur)).
      { unfold h2. cbn [arrays alloc fst]. rewrite list_lookup_alter_eq. by rewrite Ha. }
      destruct (IH (S i) h2 (<[i:=INode t]> cur) Ha2) as
        (h' & cur' & r & Heq & Ha' & Hlen & Hout & Hnodes & Hin & Hrej & Hvar & Hgrow & Hr).
      assert (Hv2 : forall x v, variant_of h x = Some v -> variant_of h2 x = Some v).
      { intros x v Hx. apply (alloc_variant_at x v (VText s) h Hx). }
      assert (Hlen2 : length (nodes h2) = S (length (nodes h))).
      { unfold h2. cbn [nodes alloc fst]. rewrite length_app. simpl. lia. }
      exists h', cur', r. split; [exact Heq|]. split; [done|].
      split; [by rewrite Hlen, length_insert|].
      split; [|split; [|split; [|split; [|split; [|split]]]]].
      * intros j Hj. rewrite Hout by lia. apply list_lookup_insert_ne. lia.
      * intros j n Hj. apply Hnodes. rewrite list_lookup_insert_ne; [done|].
        intros <-. congruence.
      * intros j s' Hj Hjs Hok. destruct (decide (j = i)) as [->|Hne].
        -- exists t. split; [|split; [unfold t; lia|]].
           ++ rewrite Hout by lia. by apply list_lookup_insert_eq.
           ++ apply Hvar. assert (s' = s) as -> by congruence.
              change (variant_of (alloc (VText s) h).1 t = Some (VText s)).
              rewrite variant_of_alloc. by rewrite decide_True.
        -- destruct (Hin j s') as (t' & Ht' & Hfresh & Hvt); [lia| | |].
           { by rewrite list_lookup_insert_ne by done. }
           { intros k s'' Hk. rewrite list_lookup_insert_ne by lia. apply Hok. lia. }
           exists t'. split; [done|]. split; [lia | done].
      * intros j k s' Hk Hkc Hks Hbad.
        assert (k <> i) by (intros ->; congruence).
        rewrite (Hrej j k s'); try done; try lia.
        -- apply list_lookup_insert_ne. lia.
        -- by rewrite list_lookup_insert_ne by done.
      * intros x v Hx. by apply Hvar, Hv2.
      * lia.
      * done.
    + exists h, cur, (Throw InvalidCharacterData).
      repeat split; try done; try lia; [|eauto].
      intros j s' Hj Hjs Hok. rewrite (Hok i s) in Hs; [done | lia | done].
  - unfold bind at 1. unfold ret at 1.
    destruct (IH (S i) h cur Ha) as
      (h' & cur' & r & Heq & Ha' & Hlen & Hout & Hnodes & Hin & Hrej & Hvar & Hgrow & Hr).
    exists h', cur', r. split; [exact Heq|]. repeat split; try done.
    + intros j Hj. apply Hout. lia.
    + intros j s' Hj Hjs Hok. apply Hin; [|done|].
      * destruct (decide (j = i)) as [->|]; [congruence | lia].
      * intros k s'' Hk. apply Hok. lia.
    + intros j k s' Hk Hkc Hks Hbad. apply (Hrej j k s'); try done; try lia.
      destruct (decide (k = i)) as [->|]; [congruence | lia].
  - unfold bind at 1. unfold ret at 1.
    destruct (IH (S i) h cur Ha) as
      (h' & cur' & r & Heq & Ha' & Hlen & Hout & Hnodes & Hin & Hrej & Hvar & Hgrow & Hr).
    exists h', cur', r. split; [exact Heq|]. repeat split; try done.
    + intros j Hj. apply Hout. lia.
    + intros j s' Hj Hjs Hok. apply Hin; [|done|].
      * destruct (decide (j = i)) as [->|]; [congruence | lia].
      * intros k s'' Hk. apply Hok. lia.
    + intros j k s' Hk Hkc Hks Hbad. apply (Hrej j k s'); try done; try lia.
      destruct (decide (k = i)) as [->|]; [congruence | lia].
Qed.

(** C10: [attribute] called with an array writes into that array. Once the
    call is over, whether it returned or threw, the array of the caller
    holds, at the place of every string, a Text node of that string that did
    not exist before, the nodes it held are where they were, and no string is
    left in it. This is so when the constructor of a Text node accepts the
    strings; in general it is so for the strings before the first one that
    the constructor refuses, by whose exception the loop and the call end: the
    array is as it was from that place on. *)
Theorem C10_attribute_array_mutated (h : heap) (e : ref) (name : jsstring) (a : nat)
    (items : list item) (idx : option Z) :
  arrays h !! a = Some items ->
  exists items',
    arrays (after (XmlElement_attribute e name (AArr a) idx) h) !! a = Some items' /\
    length items' = length items /\
    (forall i n, items !! i = Some (INode n) -> items' !! i = Some (INode n)) /\
    (forall i s, items !! i = Some (IStr s) ->
       (forall k s', (k <= i)%nat -> items !! k = Some (IStr s') -> validateChar s' = true) ->
       exists t, items' !! i = Some (INode t) /\
                 nodes h !! t = None /\
                 variant_of (after (XmlElement_attribute e name (AArr a) idx) h) t
                 = Some (VText s)) /\
    (forall i k s', (k <= i)%nat -> items !! k = Some (IStr s') -> validateChar s' = false ->
       items' !! i = items !! i) /\
    ((forall s, IStr s ∈ items -> validateChar s = true) -> forall s, IStr s ∉ items').
Proof.
  intros Ha.
  destruct (convert_strings_spec a (length items) O h items Ha) as
    (h0 & items' & r & Heq & Ha0 & Hlen & _ & Hnodes & Hin & Hrej & _ & _ & Hr).
  assert (Hrest : forall value,
            preserves (extends h0)
              (do attribute <- new_XmlAttribute name value;
               do_ XmlElement_insertChild e attribute idx; ret attribute)).
  { intros value. apply preserves_bind; [apply new_XmlAttribute_extends|].
    intros attribute. apply preserves_bind; [apply XmlElement_insertChild_extends|].
    intros _. apply preserves_ret. }
  specialize (Hrest (AArr a) h0 (extends_refl h0)).
  assert (Hafter : extends h0 (after (XmlElement_attribute e name (AArr a) idx) h)).
  { unfold after, XmlElement_attribute. unfold bind at 1. unfold bind at 1.
    unfold getArray at 1. rewrite Ha. unfold bind at 1. rewrite Heq.
    destruct Hr as [->|[err ->]]; [exact Hrest | apply extends_refl]. }
  destruct Hafter as [Harr Hvar].
  assert (Hreplaced : forall i s, items !! i = Some (IStr s) ->
            (forall k s', (k <= i)%nat -> items !! k = Some (IStr s') ->
                          validateChar s' = true) ->
            exists t, items' !! i = Some (INode t) /\ nodes h !! t = None /\
                      variant_of (after (XmlElement_attribute e name (AArr a) idx) h) t
                      = Some (VText s)).
  { intros i s Hi Hok. destruct (Hin i s) as (t & Ht & Hfresh & Hvt); [|done| |].
    { split; [lia|]. simpl. apply lookup_lt_is_Some. eauto. }
    { intros k s' Hk. apply Hok. lia. }
    exists t. split; [done|]. split; [by apply lookup_ge_None_2 | by apply Hvar]. }
  exists items'. rewrite Harr. split; [done|]. split; [done|]. split; [done|].
  split; [done|]. split.
  - intros i k s' Hk Hks Hbad. apply (Hrej i k s'); try done; [lia|].
    simpl. apply lookup_lt_is_Some. eauto.
  - intros Hvalid s Hs. apply list_elem_of_lookup in Hs as [i Hi].
    assert (Hlt : (i < length items)%nat).
    { rewrite <- Hlen. apply lookup_lt_is_Some. eauto. }
    apply lookup_lt_is_Some in Hlt as [[s'|n] Hx].
    + destruct (Hreplaced i s' Hx) as (t & Ht & _); [|congruence].
      intros k s'' _ Hk. apply Hvalid. apply list_elem_of_lookup. eauto.
    + apply Hnodes in Hx. congruence.
Qed.

End ArrayMutated.

Lemma C10_attribute_array_mutated_witness :
  arrays heap_a_array !! 0%nat = Some [IStr (js "x"); IStr (js "y")] /\
  exists items',
    arrays (after (XmlElement_attribute (validation := ascii_validation)
                     0%nat (js "b") (AArr 0%nat) None) heap_a_array) !! 0%nat
    = Some items' /\
    forall s, IStr s ∉ items'.
Proof.
  split; [reflexivity|].
  destruct (C10_attribute_array_mutated (validation := ascii_validation)
              heap_a_array 0%nat (js "b") 0%nat [IStr (js "x"); IStr (js "y")] None)
    as (items' & Harr & _ & _ & _ & _ & Hno).
  - reflexivity.
  - exists items'. split; [done|]. apply Hno.
    intros s Hs. apply elem_of_cons in Hs as [[= ->]|Hs]; [reflexivity|].
    apply elem_of_cons in Hs as [[= ->]|Hs]; [reflexivity|]. by apply elem_of_nil in Hs.
Defined.

(** C10 as stated fails for an array with a string that the constructor of a
    Text node refuses: [a.attribute("b", ["x", "\u0001", "y"])] replaces the
    first string by a Text node and throws at the second one; the array of
    the caller then still holds its second and its third string. *)
Lemma C10_attribute_array_mutated_counterexample :
  variant_of heap_a_array_refused 0%nat = Some (VElement (js "a")) /\
  arrays heap_a_array_refused !! 0%nat = Some [IStr (js "x"); IStr [1%N]; IStr (js "y")] /\
  (XmlElement_attribute (validation := ascii_validation)
     0%nat (js "b") (AArr 0%nat) None heap_a_array_refused).2
  = Throw InvalidCharacterData /\
  arrays (after (XmlElement_attribute (validation := ascii_validation)
                   0%nat (js "b") (AArr 0%nat) None) heap_a_array_refused) !! 0%nat
  = Some [INode 1%nat; IStr [1%N]; IStr (js "y")] /\
  IStr (js "y")
  ∈ [INode 1%nat; IStr [1%N]; IStr (js "y")].
Proof.
  repeat split; try reflexivity. apply list_elem_of_In. simpl. auto.
Qed.

(** * Further properties of the operations *)

(** ** Heaps with the same nodes *)

Lemma heap_ext (h1 h2 : heap) :
  arrays h1 = arrays h2 ->
  (forall m, variant_of h1 m = variant_of h2 m) ->
  (forall m, parent_of h1 m = parent_of h2 m) ->
  (forall m, children_of h1 m = children_of h2 m) ->
  h1 = h2.
Proof.
  destruct h1 as [ns1 as1], h2 as [ns2 as2]. simpl. intros -> Hv Hp Hc.
  f_equal. apply list_eq. intros m.
  specialize (Hv m). specialize (Hp m). specialize (Hc m).
  unfold variant_of, parent_of, children_of in *. simpl in *.
  destruct (ns1 !! m) as [[v1 p1 c1]|], (ns2 !! m) as [[v2 p2 c2]|];
    simpl in *; congruence.
Qed.

Lemma splice_in_S (i : nat) (n c : ref) (cs : list ref) :
  splice_in (S i) n (c :: cs) = c :: splice_in i n cs.
Proof. reflexivity. Qed.

Lemma indexOf_splice_in (i : nat) (n : ref) (cs : list ref) :
  n ∉ cs -> (i <= length cs)%nat -> indexOf n (splice_in i n cs) = Some i.
Proof.
  revert cs. induction i as [|i IH]; intros cs Hn Hi.
  - unfold splice_in. rewrite take_0, drop_0. simpl. by rewrite decide_True.
  - destruct cs as [|c cs]; [simpl in Hi; lia|].
    apply not_elem_of_cons in Hn as [Hne Hn]. rewrite splice_in_S. simpl.
    rewrite decide_False by done. rewrite IH; [done | done | simpl in Hi; lia].
Qed.

Lemma delete_splice_in (i : nat) (n : ref) (cs : list ref) :
  (i <= length cs)%nat -> delete i (splice_in i n cs) = cs.
Proof.
  revert cs. induction i as [|i IH]; intros cs Hi.
  - unfold splice_in. by rewrite take_0, drop_0.
  - destruct cs as [|c cs]; [simpl in Hi; lia|].
    rewrite splice_in_S. simpl. rewrite IH; [done | simpl in Hi; lia].
Qed.

Lemma splice_in_delete (i : nat) (n : ref) (cs : list ref) :
  cs !! i = Some n -> splice_in i n (delete i cs) = cs.
Proof.
  revert cs. induction i as [|i IH]; intros [|c cs] Hi; try done.
  - simpl in Hi. injection Hi as ->. unfold splice_in. by rewrite take_0, drop_0.
  - simpl in Hi. cbn [delete list_delete]. rewrite splice_in_S. by rewrite IH.
Qed.

Lemma splice_in_end (n : ref) (cs : list ref) : splice_in (length cs) n cs = cs ++ [n].
Proof. unfold splice_in. by rewrite firstn_all, skipn_all. Qed.

Lemma arrays_attach p i n h : arrays (attach p i n h) = arrays h.
Proof. reflexivity. Qed.

Lemma arrays_detach p i n h : arrays (detach p i n h) = arrays h.
Proof. reflexivity. Qed.

Lemma detached_root_inv h n h1 : parent_of h n = None -> detached h n h1 -> h1 = h.
Proof. intros Hroot [?|q Hq ?|q j Hq ?]; congruence. Qed.

Lemma detach_attach (h : heap) (p n : ref) (i : nat) :
  is_Some (nodes h !! p) -> is_Some (nodes h !! n) ->
  parent_of h n = None -> (i <= length (children_of h p))%nat ->
  detach p i n (attach p i n h) = h.
Proof.
  intros Hp Hn Hroot Hi. apply heap_ext.
  - reflexivity.
  - intros m. by rewrite variant_of_detach, variant_of_attach.
  - intros m. rewrite parent_of_detach, parent_of_attach by done.
    destruct (decide (n = m)) as [<-|]; [by rewrite Hroot | done].
  - intros m. rewrite children_of_detach, children_of_attach by done.
    destruct (decide (p = m)) as [<-|]; [|done]. by apply delete_splice_in.
Qed.

Lemma attach_detach (h : heap) (p n : ref) (i : nat) :
  is_Some (nodes h !! p) -> is_Some (nodes h !! n) ->
  parent_of h n = Some p -> children_of h p !! i = Some n ->
  attach p i n (detach p i n h) = h.
Proof.
  intros Hp Hn Hpar Hi.
  assert (Hp1 : is_Some (nodes (detach p i n h) !! p)) by by apply allocated_detach.
  assert (Hn1 : is_Some (nodes (detach p i n h) !! n)) by by apply allocated_detach.
  apply heap_ext.
  - reflexivity.
  - intros m. by rewrite variant_of_attach, variant_of_detach.
  - intros m. rewrite parent_of_attach, parent_of_detach by done.
    destruct (decide (n = m)) as [<-|]; [by rewrite Hpar | done].
  - intros m. rewrite children_of_attach, children_of_detach by done.
    destruct (decide (p = m)) as [<-|]; [|done]. by apply splice_in_delete.
Qed.

(** ** Inserting a node that has no parent (X1) *)

(** X1: [XmlNode.insertChild] of a node that has no parent and is not among
    the children, at an index within the bounds: the node is returned, it is
    put at the index, the children from the index on move one place to the
    right, the node has [this] as parent, and no other node changes: neither
    its children, nor its parent, nor its class and properties. With the index
    left out the node comes last. *)
Theorem X1_insert_parentless (h : heap) (p n : ref) (idx : option Z) :
  is_Some (nodes h !! p) -> is_Some (nodes h !! n) ->
  parent_of h n = None -> n ∉ children_of h p ->
  0 <= index_or_end idx (children_of h p) <= Z.of_nat (length (children_of h p)) ->
  exists h',
    XmlNode_insertChild p n idx h = (h', Ok (Some n)) /\
    children_of h' p
    = take (Z.to_nat (index_or_end idx (children_of h p))) (children_of h p)
      ++ n :: drop (Z.to_nat (index_or_end idx (children_of h p))) (children_of h p) /\
    (idx = None -> children_of h' p = children_of h p ++ [n]) /\
    parent_of h' n = Some p /\
    (forall m, m <> p -> children_of h' m = children_of h m) /\
    (forall m, m <> n -> parent_of h' m = parent_of h m) /\
    (forall m, variant_of h' m = variant_of h m) /\
    arrays h' = arrays h.
Proof.
  intros Hp Hn Hroot Hnot Hidx.
  destruct (XmlNode_insertChild p n idx h) as [h' r] eqn:Heq.
  apply XmlNode_insertChild_cases in Heq as Hcases.
  destruct Hcases as [[-> [[-> Hin]|[e ->]]]|(h1 & Hdet & -> & -> & _)]; [done| |].
  - exfalso. revert Heq. unfold XmlNode_insertChild, bind, getNode, children_of in *.
    destruct Hp as [pd Hp], Hn as [nd Hnd]. rewrite Hp, Hnd in *.
    rewrite bool_decide_eq_false_2 by lia.
    apply indexOf_None in Hnot. rewrite Hnot, Hnd.
    unfold parent_of in Hroot. rewrite Hnd in Hroot. rewrite Hroot. done.
  - apply (detached_root_inv _ _ _ Hroot) in Hdet as ->.
    eexists. split; [reflexivity|].
    assert (Hc : children_of (attach p (Z.to_nat (index_or_end idx (children_of h p))) n h) p
                 = splice_in (Z.to_nat (index_or_end idx (children_of h p))) n
                     (children_of h p)).
    { rewrite children_of_attach by done. by rewrite decide_True. }
    split; [exact Hc|]. split; [|split; [|split; [|split; [|split]]]].
    + intros ->. rewrite Hc. simpl. rewrite Nat2Z.id. apply splice_in_end.
    + rewrite parent_of_attach by done. by rewrite decide_True.
    + intros m Hm. rewrite children_of_attach by done. by rewrite decide_False.
    + intros m Hm. rewrite parent_of_attach by done. by rewrite decide_False.
    + intros m. apply variant_of_attach.
    + reflexivity.
Qed.

Lemma X1_insert_parentless_witness :
  exists h',
    XmlNode_insertChild 0%nat 1%nat None heap_a_t = (h', Ok (Some 1%nat)) /\
    children_of h' 0%nat = [1%nat] /\ parent_of h' 1%nat = Some 0%nat.
Proof.
  destruct (X1_insert_parentless heap_a_t 0%nat 1%nat None)
    as (h' & Heq & _ & Hend & Hpar & _).
  - by eexists.
  - by eexists.
  - reflexivity.
  - vm_compute. apply not_elem_of_nil.
  - vm_compute. split; discriminate.
  - exists h'. split; [done|]. split; [by apply Hend | done].
Defined.

(** ** The bounds of the index (X2) *)

Lemma removeChild_not_InvalidIndex p n h h' :
  removeChild p n h <> (h', Throw InvalidIndex).
Proof.
  unfold removeChild, XmlAttribute_removeChild, bind, getNode.
  destruct (nodes h !! p) as [pd|]; [|done].
  destruct (var pd); try done; rewrite XmlNode_removeChild_eq;
    repeat case_match; congruence.
Qed.

(** X2: [XmlNode.insertChild] of a node, with an index given, throws the
    [RangeError] exactly when the index is negative or greater than the number
    of children, also for a node that is already among the children; the heap
    is then as before. *)
Theorem X2_insert_index_bounds (h : heap) (p n : ref) (i : Z) :
  is_Some (nodes h !! p) -> is_Some (nodes h !! n) ->
  ((i < 0 \/ i > Z.of_nat (length (children_of h p))) ->
   XmlNode_insertChild p n (Some i) h = (h, Throw InvalidIndex)) /\
  (forall h', XmlNode_insertChild p n (Some i) h = (h', Throw InvalidIndex) ->
              i < 0 \/ i > Z.of_nat (length (children_of h p))).
Proof.
  intros [pd Hp] [nd Hn]. unfold XmlNode_insertChild, bind, getNode, children_of.
  rewrite Hp, Hn. cbn [index_or_end]. split.
  - intros Hi. by rewrite bool_decide_eq_true_2.
  - intros h'. case_bool_decide as Hi; [done|].
    destruct (indexOf n (children pd)); [done|].
    rewrite Hn. destruct (parent nd) as [q|]; [|done].
    destruct (removeChild q n h) as [h1 [b|err]] eqn:Hrm; [done|].
    intros [= -> ->]. by apply removeChild_not_InvalidIndex in Hrm.
Qed.

Lemma X2_insert_index_bounds_witness :
  XmlNode_insertChild 0%nat 1%nat (Some 2) heap_a_x_b = (heap_a_x_b, Ok None) /\
  XmlNode_insertChild 0%nat 1%nat (Some 3) heap_a_x_b = (heap_a_x_b, Throw InvalidIndex).
Proof.
  split; [reflexivity|].
  apply (X2_insert_index_bounds heap_a_x_b 0%nat 1%nat 3).
  - by eexists.
  - by eexists.
  - right. vm_compute. reflexivity.
Defined.

(** ** Calls that throw, and what a call returns (X3, X4) *)

(** X3: an [insertChild], [removeChild], [removeChildAtIndex] or [remove]
    that throws has changed nothing: every [throw] of these methods, and of
    the methods they call, comes before the first write. *)
Theorem X3_failed_call_unchanged (h h' : heap) (e : error) :
  (forall p n idx, insertChild p n idx h = (h', Throw e) -> h' = h) /\
  (forall p n, removeChild p n h = (h', Throw e) -> h' = h) /\
  (forall p i, removeChildAtIndex p i h = (h', Throw e) -> h' = h) /\
  (forall n, XmlNode_remove n h = (h', Throw e) -> h' = h).
Proof.
  split; [|split; [|split]].
  - intros p n idx Heq. apply insertChild_cases in Heq as [[-> _]|[Heq _]]; [done|].
    apply XmlNode_insertChild_cases in Heq as [[-> _]|(h1 & _ & _ & Hr & _)]; done.
  - intros p n Heq. apply removeChild_cases in Heq as [[-> _]|(j & _ & _ & _ & Hr)]; done.
  - intros p i Heq.
    apply removeChildAtIndex_cases in Heq as [[-> _]|(n & _ & _ & _ & Hr)]; done.
  - intros n. unfold XmlNode_remove, bind, getNode.
    destruct (nodes h !! n) as [nd|]; [|by intros [= <-]].
    destruct (parent nd) as [q|]; [|done].
    destruct (removeChild q n h) as [h1 [b|err]] eqn:Hrm; [done|].
    intros [= <- <-]. by apply removeChild_cases in Hrm as [[-> _]|(j & _ & _ & _ & Hr)].
Qed.

Lemma X3_failed_call_unchanged_witness :
  after (insertChild 0%nat 1%nat (Some 7)) heap_a_t = heap_a_t.
Proof.
  apply (proj1 (X3_failed_call_unchanged heap_a_t _ InvalidIndex) 0%nat 1%nat (Some 7)).
  reflexivity.
Defined.

(** X4: an [insertChild] that returns gives [undefined] exactly for a node
    that is already among the children, and then nothing has changed;
    otherwise it gives the node itself, which is then among the children and
    has [this] as parent. *)
Theorem X4_insert_result (h h' : heap) (p n : ref) (idx : option Z) (r : option ref) :
  insertChild p n idx h = (h', Ok r) ->
  (r = None /\ n ∈ children_of h p /\ h' = h) \/
  (r = Some n /\ (n ∉ children_of h p) /\ n ∈ children_of h' p /\ parent_of h' n = Some p).
Proof.
  intros Heq. apply insertChild_cases in Heq as [[_ [err Herr]]|[Heq _]]; [done|].
  apply XmlNode_insertChild_cases in Heq
    as [[-> [[[= <-] Hin]|[e He]]]|(h1 & Hdet & -> & [= <-] & Hp & Hn & Hnot & _)];
    [by left | done |].
  right. split; [done|]. split; [done|].
  assert (Hp1 : is_Some (nodes h1 !! p)) by by apply (detached_allocated _ _ _ _ Hdet).
  assert (Hn1 : is_Some (nodes h1 !! n)) by by apply (detached_allocated _ _ _ _ Hdet).
  split.
  - rewrite children_of_attach, decide_True by done. apply elem_of_splice_in. by left.
  - rewrite parent_of_attach by done. by rewrite decide_True.
Qed.

Lemma X4_insert_result_witness :
  1%nat ∈ children_of heap_a_x_b 0%nat /\
  insertChild 0%nat 1%nat None heap_a_x_b = (heap_a_x_b, Ok None).
Proof.
  assert (Heq : insertChild 0%nat 1%nat None heap_a_x_b = (heap_a_x_b, Ok None))
    by reflexivity.
  destruct (X4_insert_result _ _ _ _ _ _ Heq) as [(_ & Hin & _)|(Hr & _)];
    [by split | discriminate Hr].
Defined.

(** ** Removing a child (X5, X6, X7, X8) *)

(** X5: a [removeChild] that returns gives [true] exactly for a node that is
    among the children. It has then taken the node out at its first place,
    left the other children in their order and cleared the parent of the
    node, and changed no other node; when the children had the node once, they
    have it no more. For a node that is not among the children nothing has
    changed, whatever the parent of that node is. *)
Theorem X5_removeChild (h h' : heap) (p n : ref) (b : bool) :
  removeChild p n h = (h', Ok b) ->
  (b = true <-> n ∈ children_of h p) /\
  (b = false -> h' = h) /\
  (b = true ->
   exists j,
     children_of h p !! j = Some n /\
     (n ∉ take j (children_of h p)) /\
     children_of h' p = take j (children_of h p) ++ drop (S j) (children_of h p) /\
     parent_of h' n = None /\
     (forall m, m <> p -> children_of h' m = children_of h m) /\
     (forall m, m <> n -> parent_of h' m = parent_of h m) /\
     (forall m, variant_of h' m = variant_of h m) /\
     (NoDup (children_of h p) -> n ∉ children_of h' p)).
Proof.
  intros Heq.
  apply removeChild_cases in Heq
    as [[-> [[[= ->] Hnot]|[e He]]]|(j & Hj & Hidx & -> & [= ->])]; [|done|].
  - split; [split; [done | by intros Hin]|]. split; [done | done].
  - split; [split; [intros _; apply list_elem_of_lookup; eauto | done]|].
    split; [done|]. intros _. exists j. split; [done|].
    assert (Hc : children_of (detach p j n h) p = delete j (children_of h p)).
    { rewrite children_of_detach. by rewrite decide_True. }
    split; [|split; [|split; [|split; [|split; [|split]]]]].
    + intros Hin. apply list_elem_of_lookup in Hin as [k Hk].
      assert (Hlt : (k < j)%nat).
      { apply lookup_lt_Some in Hk. rewrite length_take in Hk. lia. }
      rewrite lookup_take_lt in Hk by done.
      clear Hc. revert k j Hj Hidx Hk Hlt.
      induction (children_of h p) as [|c cs IH]; intros k j Hj Hidx Hk Hlt; [done|].
      simpl in Hidx. destruct (decide (c = n)) as [->|Hne]; [injection Hidx as <-; lia|].
      destruct (indexOf n cs) as [j'|] eqn:Hj'; [|done]. injection Hidx as <-.
      destruct k as [|k]; [simpl in Hk; congruence|].
      simpl in Hj, Hk. apply (IH k j'); try done. lia.
    + rewrite Hc. apply delete_take_drop.
    + rewrite parent_of_detach. by rewrite decide_True.
    + intros m Hm. rewrite children_of_detach. by rewrite decide_False.
    + intros m Hm. rewrite parent_of_detach. by rewrite decide_False.
    + intros m. apply variant_of_detach.
    + intros Hnd Hin. rewrite Hc in Hin.
      by apply (elem_of_delete_NoDup j n) in Hin as [_ Hin].
Qed.

Lemma X5_removeChild_witness :
  removeChild 1%nat 2%nat heap_p_q_n = (after (removeChild 1%nat 2%nat) heap_p_q_n, Ok true) /\
  parent_of (after (removeChild 1%nat 2%nat) heap_p_q_n) 2%nat = None.
Proof.
  assert (Heq : removeChild 1%nat 2%nat heap_p_q_n
                = (after (removeChild 1%nat 2%nat) heap_p_q_n, Ok true)) by reflexivity.
  split; [exact Heq|].
  destruct (X5_removeChild _ _ _ _ _ Heq) as (_ & _ & Htrue).
  destruct (Htrue eq_refl) as (j & _ & _ & _ & Hpar & _). exact Hpar.
Defined.

(** X6: [insertChild] of a node without parent, then [removeChild] of it,
    leaves the heap as it was before the two calls (of the base class, and so
    of every class that inherits both). *)
Theorem X6_insert_then_remove (h h1 : heap) (p n : ref) (idx : option Z) :
  parent_of h n = None ->
  XmlNode_insertChild p n idx h = (h1, Ok (Some n)) ->
  XmlNode_removeChild p n h1 = (h, Ok true).
Proof.
  intros Hroot Heq.
  apply XmlNode_insertChild_cases in Heq
    as [[_ [[[=] _]|[e He]]]|(h0 & Hdet & -> & _ & Hp & Hn & Hnot & Hidx)]; [done|].
  apply (detached_root_inv _ _ _ Hroot) in Hdet as ->.
  set (i := Z.to_nat (index_or_end idx (children_of h p))).
  assert (Hi : (i <= length (children_of h p))%nat) by (unfold i; lia).
  rewrite XmlNode_removeChild_eq.
  pose proof (proj2 (allocated_attach p i n h n) Hn) as [nd' Hn'].
  pose proof (proj2 (allocated_attach p i n h p) Hp) as [pd' Hp'].
  rewrite Hn', Hp'.
  assert (Hc : children pd' = splice_in i n (children_of h p)).
  { pose proof (children_of_attach p i n h p Hp) as Hc.
    unfold children_of at 1 in Hc. rewrite Hp' in Hc. by rewrite decide_True in Hc. }
  rewrite Hc, indexOf_splice_in by done.
  by rewrite detach_attach.
Qed.

Lemma X6_insert_then_remove_witness :
  XmlNode_removeChild 0%nat 1%nat (after (XmlNode_insertChild 0%nat 1%nat None) heap_a_t)
  = (heap_a_t, Ok true).
Proof.
  apply (X6_insert_then_remove heap_a_t _ 0%nat 1%nat None); reflexivity.
Defined.

Lemma XmlNode_insertChild_root (h : heap) (p n : ref) (idx : option Z) :
  is_Some (nodes h !! p) -> is_Some (nodes h !! n) ->
  parent_of h n = None -> n ∉ children_of h p ->
  0 <= index_or_end idx (children_of h p) <= Z.of_nat (length (children_of h p)) ->
  XmlNode_insertChild p n idx h
  = (attach p (Z.to_nat (index_or_end idx (children_of h p))) n h, Ok (Some n)).
Proof.
  intros [pd Hp] [nd Hnd] Hroot Hnot Hidx.
  unfold XmlNode_insertChild, bind, getNode, children_of, parent_of in *.
  rewrite Hp, Hnd in *. rewrite bool_decide_eq_false_2 by lia.
  apply indexOf_None in Hnot. rewrite Hnot, Hnd, Hroot. cbn [fst snd].
  unfold attach, setParent, spliceIn, bind. reflexivity.
Qed.

(** X7: [removeChildAtIndex], on a node of a class with children, throws the
    [RangeError] for an index that is negative or not below the number of
    children, and changes nothing then; for an index within the bounds it
    returns the child at the index, takes it out of the children, leaves the
    others in their order, clears its parent and changes no other node. *)
Theorem X7_removeChildAtIndex (h : heap) (p : ref) (v : variant) (i : Z) :
  variant_of h p = Some v -> permits_children v = true ->
  ((i < 0 \/ i >= Z.of_nat (length (children_of h p))) ->
   removeChildAtIndex p i h = (h, Throw InvalidIndex)) /\
  (0 <= i < Z.of_nat (length (children_of h p)) ->
   exists n h',
     children_of h p !! Z.to_nat i = Some n /\
     removeChildAtIndex p i h = (h', Ok n) /\
     children_of h' p
     = take (Z.to_nat i) (children_of h p) ++ drop (S (Z.to_nat i)) (children_of h p) /\
     parent_of h' n = None /\
     (forall m, m <> p -> children_of h' m = children_of h m) /\
     (forall m, m <> n -> parent_of h' m = parent_of h m) /\
     (forall m, variant_of h' m = variant_of h m)).
Proof.
  intros Hv Hperm. unfold variant_of in Hv.
  destruct (nodes h !! p) as [pd|] eqn:Hp; [|done]. injection Hv as <-.
  assert (Heq : removeChildAtIndex p i h = XmlNode_removeChildAtIndex p i h).
  { unfold removeChildAtIndex, bind, getNode. by rewrite Hp, Hperm. }
  rewrite Heq, XmlNode_removeChildAtIndex_eq. unfold children_of at 1 2 3. rewrite Hp.
  split.
  - intros Hi. by rewrite bool_decide_eq_true_2.
  - intros Hi. rewrite bool_decide_eq_false_2 by lia.
    destruct (children pd !! Z.to_nat i) as [n|] eqn:Hn.
    2:{ apply lookup_ge_None in Hn. lia. }
    exists n, (detach p (Z.to_nat i) n h). split; [done|]. split; [done|].
    assert (Hcs : children_of h p = children pd) by (unfold children_of; by rewrite Hp).
    split; [|split; [|split; [|split]]].
    + rewrite children_of_detach, decide_True, Hcs by done. apply delete_take_drop.
    + rewrite parent_of_detach. by rewrite decide_True.
    + intros m Hm. rewrite children_of_detach. by rewrite decide_False.
    + intros m Hm. rewrite parent_of_detach. by rewrite decide_False.
    + intros m. apply variant_of_detach.
Qed.

Lemma X7_removeChildAtIndex_witness :
  removeChildAtIndex 0%nat 2 heap_a_x_b = (heap_a_x_b, Throw InvalidIndex) /\
  exists h', removeChildAtIndex 0%nat 0 heap_a_x_b = (h', Ok 1%nat) /\
             children_of h' 0%nat = [2%nat].
Proof.
  destruct (X7_removeChildAtIndex heap_a_x_b 0%nat (VElement (js "a")) 2 eq_refl eq_refl)
    as [Hout _].
  destruct (X7_removeChildAtIndex heap_a_x_b 0%nat (VElement (js "a")) 0 eq_refl eq_refl)
    as [_ Hin].
  split; [apply Hout; right; vm_compute; discriminate|].
  destruct Hin as (n & h' & Hn & Heq & Hcs & _); [vm_compute; split; [discriminate | done]|].
  injection Hn as <-. exists h'. split; [exact Heq | exact Hcs].
Defined.

(** X8: in a state in which the back-references agree with the children,
    [removeChildAtIndex] and then [insertChild] of the returned node at the
    same index give back the state as it was. *)
Theorem X8_remove_at_then_insert (h h1 : heap) (p n : ref) (i : Z) :
  consistent h ->
  removeChildAtIndex p i h = (h1, Ok n) ->
  XmlNode_insertChild p n (Some i) h1 = (h, Ok (Some n)).
Proof.
  intros Hc Heq.
  apply removeChildAtIndex_cases in Heq as [[_ [e He]]|(n' & Hi & Hidx & -> & [= ->])];
    [done|].
  assert (Hin : n' ∈ children_of h p) by (apply list_elem_of_lookup; eauto).
  assert (Hpar : parent_of h n' = Some p) by by apply Hc.
  assert (Hp : is_Some (nodes h !! p)) by by apply children_of_allocated in Hin.
  assert (Hn : is_Some (nodes h !! n')) by by apply parent_of_allocated in Hpar.
  set (j := Z.to_nat i) in *.
  assert (Hcs : children_of (detach p j n' h) p = delete j (children_of h p)).
  { rewrite children_of_detach. by rewrite decide_True. }
  rewrite XmlNode_insertChild_root.
  - cbn [index_or_end]. fold j. by rewrite attach_detach.
  - by apply allocated_detach.
  - by apply allocated_detach.
  - rewrite parent_of_detach. by rewrite decide_True.
  - rewrite Hcs. intros Hin'.
    apply (elem_of_delete_NoDup j n' n') in Hin' as [_ Hne]; [done | apply Hc | done].
  - cbn [index_or_end]. rewrite Hcs, length_delete by eauto. lia.
Qed.

Lemma X8_remove_at_then_insert_witness :
  XmlNode_insertChild 0%nat 1%nat (Some 0) (after (removeChildAtIndex 0%nat 0) heap_a_x_b)
  = (heap_a_x_b, Ok (Some 1%nat)).
Proof.
  apply (X8_remove_at_then_insert heap_a_x_b _ 0%nat 1%nat 0).
  - apply (reachable_consistent (validation := ascii_validation)), run_reachable.
  - reflexivity.
Defined.

(** X9: [remove], in a state in which the back-references agree with the
    children and the classes of the children are those their parents accept,
    returns the parent the node had ([undefined] for a node without parent,
    and nothing changes then). Afterwards the node has no parent and is among
    the children of no node; the other nodes are the children they were, and
    have the parent they had. *)
Theorem X9_remove (h : heap) (n : ref) :
  consistent h -> well_classed h -> is_Some (nodes h !! n) ->
  exists h',
    XmlNode_remove n h = (h', Ok (parent_of h n)) /\
    (parent_of h n = None -> h' = h) /\
    parent_of h' n = None /\
    (forall p m, m ∈ children_of h' p <-> m ∈ children_of h p /\ m <> n) /\
    (forall m, m <> n -> parent_of h' m = parent_of h m) /\
    consistent h'.
Proof.
  intros Hc Hw [nd Hn].
  assert (Hpar : parent_of h n = parent nd) by (unfold parent_of; by rewrite Hn).
  unfold XmlNode_remove, bind, getNode. rewrite Hn, Hpar.
  destruct (parent nd) as [q|] eqn:Hq.
  - assert (Hin : n ∈ children_of h q) by by apply Hc.
    destruct (Hw q n Hin) as (vq & vn & Hvq & _ & Hacc).
    unfold variant_of in Hvq. destruct (nodes h !! q) as [qd|] eqn:Hqd; [|done].
    injection Hvq as <-.
    assert (Hperm : permits_children (var qd) = true) by by destruct (var qd).
    rewrite (removeChild_permitted q n h qd Hqd Hperm), XmlNode_removeChild_eq, Hn, Hqd.
    assert (Hcs : children_of h q = children qd) by (unfold children_of; by rewrite Hqd).
    rewrite Hcs in Hin. destruct (indexOf_elem _ _ Hin) as [j Hj]. rewrite Hj.
    apply indexOf_Some in Hj as Hlook. rewrite <- Hcs in Hlook.
    exists (detach q j n h). split; [done|]. split; [done|].
    split; [|split; [|split]].
    + rewrite parent_of_detach. by rewrite decide_True.
    + intros p m. rewrite children_of_detach. destruct (decide (q = p)) as [<-|Hne].
      * apply elem_of_delete_NoDup; [apply Hc | done].
      * split; [|by intros []]. intros Hm. split; [done|]. intros ->.
        apply Hc in Hm. congruence.
    + intros m Hm. rewrite parent_of_detach. by rewrite decide_False.
    + by apply detach_consistent.
  - exists h. split; [done|]. split; [done|]. split; [by rewrite Hpar|].
    split; [|done]. intros p m. split; [|by intros []]. intros Hm. split; [done|].
    intros ->. apply Hc in Hm. congruence.
Qed.

Lemma X9_remove_witness :
  exists h',
    XmlNode_remove 2%nat heap_p_q_n = (h', Ok (Some 1%nat)) /\
    parent_of h' 2%nat = None /\ (2%nat ∉ children_of h' 1%nat).
Proof.
  destruct (X9_remove heap_p_q_n 2%nat) as (h' & Heq & _ & Hpar & Hcs & _).
  - apply (reachable_consistent (validation := ascii_validation)), run_reachable.
  - apply (reachable_well_classed (validation := ascii_validation)), run_reachable.
  - by eexists.
  - exists h'. split; [exact Heq|]. split; [exact Hpar|].
    intros Hin. by apply Hcs in Hin as [_ Hne].
Defined.

(** ** The neighbours of a node (X10, X11) *)

Lemma indexOf_NoDup (n : ref) (cs : list ref) (j : nat) :
  NoDup cs -> cs !! j = Some n -> indexOf n cs = Some j.
Proof.
  intros Hnd Hj. destruct (indexOf_elem n cs) as [k Hk].
  { apply list_elem_of_lookup. eauto. }
  rewrite Hk. f_equal. apply indexOf_Some in Hk.
  by apply (NoDup_lookup cs k j n).
Qed.

Lemma indexOfZ_NoDup (n : ref) (cs : list ref) (j : nat) :
  NoDup cs -> cs !! j = Some n -> indexOfZ n cs = Z.of_nat j.
Proof. intros Hnd Hj. unfold indexOfZ. by rewrite (indexOf_NoDup n cs j). Qed.

Lemma XmlNode_next_at (h : heap) (n p : ref) (j : nat) :
  consistent h -> children_of h p !! j = Some n ->
  XmlNode_next n h = (h, Ok (children_of h p !! S j)).
Proof.
  intros Hc Hj.
  assert (Hin : n ∈ children_of h p) by (apply list_elem_of_lookup; eauto).
  assert (Hpar : parent_of h n = Some p) by by apply Hc.
  destruct (children_of_allocated _ _ _ Hin) as [pd Hp].
  destruct (parent_of_allocated _ _ _ Hpar) as [nd Hn].
  unfold parent_of in Hpar. rewrite Hn in Hpar.
  pose proof (proj2 Hc p) as Hnd. unfold children_of in Hj, Hnd |- *. rewrite Hp in *.
  unfold XmlNode_next, bind, getNode. rewrite Hn, Hpar, Hp.
  rewrite (indexOfZ_NoDup n (children pd) j) by done.
  pose proof (lookup_lt_Some _ _ _ Hj) as Hlt.
  case_bool_decide as Hlast.
  - unfold ret. f_equal. f_equal. symmetry. apply lookup_ge_None. lia.
  - unfold ret, at_index. rewrite bool_decide_eq_false_2 by lia.
    by replace (Z.to_nat (Z.of_nat j + 1)) with (S j) by lia.
Qed.

Lemma XmlNode_prev_at (h : heap) (n p : ref) (j : nat) :
  consistent h -> children_of h p !! j = Some n ->
  XmlNode_prev n h
  = (h, Ok (match j with O => None | S j' => children_of h p !! j' end)).
Proof.
  intros Hc Hj.
  assert (Hin : n ∈ children_of h p) by (apply list_elem_of_lookup; eauto).
  assert (Hpar : parent_of h n = Some p) by by apply Hc.
  destruct (children_of_allocated _ _ _ Hin) as [pd Hp].
  destruct (parent_of_allocated _ _ _ Hpar) as [nd Hn].
  unfold parent_of in Hpar. rewrite Hn in Hpar.
  pose proof (proj2 Hc p) as Hnd. unfold children_of in Hj, Hnd |- *. rewrite Hp in *.
  unfold XmlNode_prev, bind, getNode. rewrite Hn, Hpar, Hp.
  rewrite (indexOfZ_NoDup n (children pd) j) by done.
  destruct j as [|j'].
  - by rewrite bool_decide_eq_true_2.
  - rewrite bool_decide_eq_false_2 by lia.
    unfold ret, at_index. rewrite bool_decide_eq_false_2 by lia.
    by replace (Z.to_nat (Z.of_nat (S j') - 1)) with j' by lia.
Qed.

Lemma XmlNode_next_Some (h h' : heap) (n m : ref) :
  consistent h -> XmlNode_next n h = (h', Ok (Some m)) ->
  exists p j, children_of h p !! j = Some n /\ children_of h p !! S j = Some m.
Proof.
  intros Hc Heq.
  assert (Hpar : exists p, parent_of h n = Some p).
  { revert Heq. unfold XmlNode_next, bind, getNode, parent_of.
    destruct (nodes h !! n) as [nd|]; [|done]. destruct (parent nd); [eauto | done]. }
  destruct Hpar as [p Hpar]. apply Hc in Hpar.
  apply list_elem_of_lookup in Hpar as [j Hj]. exists p, j. split; [done|].
  rewrite (XmlNode_next_at h n p j Hc Hj) in Heq. by injection Heq as ->.
Qed.

Lemma XmlNode_prev_Some (h h' : heap) (n m : ref) :
  consistent h -> XmlNode_prev n h = (h', Ok (Some m)) ->
  exists p j, children_of h p !! S j = Some n /\ children_of h p !! j = Some m.
Proof.
  intros Hc Heq.
  assert (Hpar : exists p, parent_of h n = Some p).
  { revert Heq. unfold XmlNode_prev, bind, getNode, parent_of.
    destruct (nodes h !! n) as [nd|]; [|done]. destruct (parent nd); [eauto | done]. }
  destruct Hpar as [p Hpar]. apply Hc in Hpar.
  apply list_elem_of_lookup in Hpar as [j Hj]. exists p.
  rewrite (XmlNode_prev_at h n p j Hc Hj) in Heq.
  destruct j as [|j']; [done|]. exists j'. split; [done|]. by injection Heq as ->.
Qed.

(** X10: in a state in which the back-references agree with the children,
    [next] and [prev] of the child at the place [j] of a node return the
    children at the places [j + 1] and [j - 1], and [undefined] where there is
    no such place (for the last and for the first child); neither changes
    the state. *)
Theorem X10_next_prev_position (h : heap) (n p : ref) (j : nat) :
  consistent h -> children_of h p !! j = Some n ->
  XmlNode_next n h = (h, Ok (children_of h p !! S j)) /\
  XmlNode_prev n h = (h, Ok (match j with O => None | S j' => children_of h p !! j' end)) /\
  (j = O -> XmlNode_prev n h = (h, Ok None)) /\
  (S j = length (children_of h p) -> XmlNode_next n h = (h, Ok None)).
Proof.
  intros Hc Hj. split; [by apply XmlNode_next_at|]. split; [by apply XmlNode_prev_at|].
  split.
  - intros ->. by rewrite (XmlNode_prev_at h n p 0%nat).
  - intros Hlast. rewrite (XmlNode_next_at h n p j) by done.
    do 2 f_equal. apply lookup_ge_None. lia.
Qed.

Lemma X10_next_prev_position_witness :
  XmlNode_next 1%nat heap_a_x_b = (heap_a_x_b, Ok (Some 2%nat)) /\
  XmlNode_prev 1%nat heap_a_x_b = (heap_a_x_b, Ok None).
Proof.
  destruct (X10_next_prev_position heap_a_x_b 1%nat 0%nat 0%nat) as (Hnext & Hprev & _).
  - apply (reachable_consistent (validation := ascii_validation)), run_reachable.
  - reflexivity.
  - split; [exact Hnext | exact Hprev].
Defined.

(** X11: in such a state [prev] undoes [next] and [next] undoes [prev]: when
    [next] of a node returns a node, [prev] of that node returns the first
    one, and the other way round. *)
Theorem X11_next_prev_inverse (h : heap) (n m : ref) :
  consistent h ->
  (forall h', XmlNode_next n h = (h', Ok (Some m)) -> XmlNode_prev m h = (h, Ok (Some n))) /\
  (forall h', XmlNode_prev n h = (h', Ok (Some m)) -> XmlNode_next m h = (h, Ok (Some n))).
Proof.
  intros Hc. split; intros h' Heq.
  - apply XmlNode_next_Some in Heq as (p & j & Hn & Hm); [|done].
    rewrite (XmlNode_prev_at h m p (S j)) by done. by rewrite Hn.
  - apply XmlNode_prev_Some in Heq as (p & j & Hn & Hm); [|done].
    rewrite (XmlNode_next_at h m p j) by done. by rewrite Hn.
Qed.

Lemma X11_next_prev_inverse_witness :
  XmlNode_prev 2%nat heap_a_x_b = (heap_a_x_b, Ok (Some 1%nat)).
Proof.
  apply (X11_next_prev_inverse heap_a_x_b 1%nat 2%nat) with (h' := heap_a_x_b).
  - apply (reachable_consistent (validation := ascii_validation)), run_reachable.
  - reflexivity.
Defined.

(** ** The root of a hierarchy (X12) *)

Lemma XmlNode_top_more_fuel (h : heap) (f f' : nat) (n : ref) (r : outcome ref) :
  XmlNode_top f h n = Some r -> (f <= f')%nat -> XmlNode_top f' h n = Some r.
Proof.
  revert f' n. induction f as [|f IH]; intros f' n Hr Hf; [done|].
  destruct f' as [|f']; [lia|]. simpl in Hr |- *.
  destruct (nodes h !! n) as [nd|]; [|done]. destruct (parent nd) as [p|]; [|done].
  apply IH; [done | lia].
Qed.

Lemma XmlNode_top_root (h : heap) (f : nat) (n r : ref) :
  XmlNode_top f h n = Some (Ok r) ->
  rtc (fun a b => parent_of h a = Some b) n r /\ parent_of h r = None.
Proof.
  revert n. induction f as [|f IH]; intros n Hr; [done|]. simpl in Hr.
  destruct (nodes h !! n) as [nd|] eqn:Hn; [|done].
  destruct (parent nd) as [p|] eqn:Hp.
  - destruct (IH p Hr) as [Hrtc Hroot]. split; [|done].
    apply rtc_l with p; [|done]. unfold parent_of. by rewrite Hn.
  - injection Hr as <-. split; [done|]. unfold parent_of. by rewrite Hn.
Qed.

Lemma XmlNode_top_no_throw (h : heap) (fuel : nat) (n : ref) (e : error) :
  consistent h -> is_Some (nodes h !! n) -> XmlNode_top fuel h n <> Some (Throw e).
Proof.
  intros Hc. revert n. induction fuel as [|fuel IH]; intros n [nd Hn]; [done|].
  simpl. rewrite Hn. destruct (parent nd) as [p|] eqn:Hp; [|done].
  apply IH. apply (consistent_parent_allocated h n p Hc). unfold parent_of. by rewrite Hn.
Qed.

Lemma root_unique (h : heap) (n r r' : ref) :
  rtc (fun a b => parent_of h a = Some b) n r -> parent_of h r = None ->
  rtc (fun a b => parent_of h a = Some b) n r' -> parent_of h r' = None ->
  r' = r.
Proof.
  intros Hr Hroot. revert r'. induction Hr as [n|n p r Hstep Hr IH]; intros r' Hr' Hroot'.
  - destruct Hr' as [|n p r' Hstep _]; [done | congruence].
  - destruct Hr' as [|n p' r' Hstep' Hr']; [congruence|].
    apply IH; [done| |done]. by replace p with p' by congruence.
Qed.

(** X12: [top], in a state in which the back-references agree with the
    children, returns a node exactly when that node is reached from this one
    by going from parent to parent and has no parent itself; there is at most
    one such node, the root of the hierarchy. When there is none, because the
    parents of this node run in a cycle, the calls nest without end: at no
    depth does the method return. *)
Theorem X12_top (h : heap) (n : ref) :
  consistent h -> is_Some (nodes h !! n) ->
  (forall r, (exists fuel, XmlNode_top fuel h n = Some (Ok r)) <->
             rtc (fun a b => parent_of h a = Some b) n r /\ parent_of h r = None) /\
  (forall r r',
     rtc (fun a b => parent_of h a = Some b) n r -> parent_of h r = None ->
     rtc (fun a b => parent_of h a = Some b) n r' -> parent_of h r' = None ->
     r' = r) /\
  ((forall r, rtc (fun a b => parent_of h a = Some b) n r -> parent_of h r <> None) ->
   forall fuel, XmlNode_top fuel h n = None).
Proof.
  intros Hc Hn. split; [|split].
  - intros r. split; [intros [fuel Hr]; by apply (XmlNode_top_root h fuel)|].
    intros [Hrtc Hroot]. induction Hrtc as [n|n p r Hstep Hrtc IH].
    + destruct Hn as [nd Hn]. exists 1%nat. simpl. rewrite Hn.
      unfold parent_of in Hroot. rewrite Hn in Hroot. by rewrite Hroot.
    + destruct IH as [fuel Hr]; [by apply (consistent_parent_allocated h n p) | done |].
      exists (S fuel). simpl. unfold parent_of in Hstep.
      destruct (nodes h !! n) as [nd|]; [|done]. by rewrite Hstep.
  - intros r r'. apply root_unique.
  - intros Hcycle fuel. destruct (XmlNode_top fuel h n) as [[r|e]|] eqn:Htop; [| |done].
    + apply XmlNode_top_root in Htop as [Hrtc Hroot]. by apply Hcycle in Hrtc.
    + by apply XmlNode_top_no_throw in Htop.
Qed.

Lemma X12_top_witness :
  (exists fuel, XmlNode_top fuel heap_a_x_b 1%nat = Some (Ok 0%nat)) /\
  (forall fuel, XmlNode_top fuel heap_cycle 0%nat = None).
Proof.
  split.
  - destruct (X12_top heap_a_x_b 1%nat) as (Hroot & _).
    + apply (reachable_consistent (validation := ascii_validation)), run_reachable.
    + by eexists.
    + apply Hroot. split; [|reflexivity].
      apply rtc_l with 0%nat; [reflexivity | apply rtc_refl].
  - destruct (X12_top heap_cycle 0%nat) as (_ & _ & Hcycle).
    + apply (reachable_consistent (validation := ascii_validation)), run_reachable.
    + by eexists.
    + apply Hcycle. intros r Hr.
      assert (Hr0 : forall x, rtc (fun a b => parent_of heap_cycle a = Some b) x r ->
                              x = 0%nat -> r = 0%nat).
      { clear. intros x Hx. induction Hx as [|x y z Hstep _ IH]; [done|].
        intros ->. apply IH. vm_compute in Hstep. congruence. }
      by rewrite (Hr0 0%nat Hr eq_refl).
Defined.

(** ** Nodes without children (X13) *)

(** X13: an [XmlCdata] node, in every state a client can reach, has no
    children and is the parent of no node; [children], [insertChild],
    [removeChild] and [removeChildAtIndex] throw on it, whatever their
    arguments, and change nothing. *)
Theorem X13_cdata_leaf {validation : Validation} (h : heap) (n : ref) (d : jsstring) :
  reachable h -> variant_of h n = Some (VCdata d) ->
  children_of h n = [] /\
  (forall m, parent_of h m <> Some n) /\
  children_method n h = (h, Throw UnsupportedOperation) /\
  (forall c idx, insertChild n c idx h = (h, Throw UnsupportedOperation)) /\
  (forall c, removeChild n c h = (h, Throw UnsupportedOperation)) /\
  (forall i, removeChildAtIndex n i h = (h, Throw UnsupportedOperation)).
Proof.
  intros Hr Hv.
  pose proof (reachable_consistent h Hr) as Hc.
  pose proof (reachable_well_classed h Hr) as Hw.
  assert (Hempty : forall c, c ∉ children_of h n).
  { intros c Hin. destruct (Hw n c Hin) as (vp & vc & Hvp & _ & Hacc).
    rewrite Hv in Hvp. by injection Hvp as <-. }
  split; [|split].
  - destruct (children_of h n) as [|c cs]; [done|]. destruct (Hempty c). by left.
  - intros m Hm. apply Hc in Hm. by apply Hempty in Hm.
  - unfold variant_of in Hv. destruct (nodes h !! n) as [nd|] eqn:Hn; [|done].
    injection Hv as Hv.
    unfold children_method, insertChild, removeChild, removeChildAtIndex, bind, getNode.
    rewrite Hn, Hv. done.
Qed.

Lemma X13_cdata_leaf_witness :
  children_of (run (validation := ascii_validation)
                 [NewXmlElement (js "a"); Cdata 0%nat (js "d") None]) 1%nat = [].
Proof.
  apply (X13_cdata_leaf (validation := ascii_validation) _ 1%nat (js "d")).
  - apply run_reachable.
  - reflexivity.
Defined.

(** ** The children of an Element (X14) *)

(** X14: in every state a client can reach, the children of an [XmlElement]
    are of the eight classes its [insertChild] accepts, have the element as
    parent, and are pairwise distinct; and the two filters of [toString]
    share them out: the children are the [attributes()] and the content
    nodes, every child in exactly one of the two. *)
Theorem X14_element_children {validation : Validation} (h : heap) (e : ref)
    (name : jsstring) :
  reachable h -> variant_of h e = Some (VElement name) ->
  let attributes := XmlElement_attributes h (children_of h e) in
  let content := filter (fun node => indexOf node attributes = None) (children_of h e) in
  (forall c, c ∈ children_of h e ->
             parent_of h c = Some e /\
             exists vc, variant_of h c = Some vc /\ element_child vc = true) /\
  NoDup (children_of h e) /\
  attributes ++ content ≡ₚ children_of h e /\
  (forall c, c ∈ attributes -> c ∉ content).
Proof.
  intros Hr Hv attributes content.
  pose proof (reachable_consistent h Hr) as Hc.
  pose proof (reachable_well_classed h Hr) as Hw.
  split; [|split; [apply Hc|split]].
  - intros c Hin. split; [by apply Hc|].
    destruct (Hw e c Hin) as (vp & vc & Hvp & Hvc & Hacc).
    rewrite Hv in Hvp. injection Hvp as <-. by exists vc.
  - unfold content, attributes. rewrite toString_nodes. unfold XmlElement_attributes.
    rewrite (filter_ext_elem (fun n => is_attribute h n = false)
               (fun n => ~ is_attribute h n = true)).
    + apply filter_app_complement.
    + intros n _. by destruct (is_attribute h n).
  - intros c. unfold content, attributes. rewrite toString_nodes.
    unfold XmlElement_attributes. rewrite !list_elem_of_filter. intros [Ha _] [Hna _].
    congruence.
Qed.

Lemma X14_element_children_witness :
  XmlElement_attributes heap_a_attr_x (children_of heap_a_attr_x 0%nat)
  ++ filter (fun node =>
               indexOf node (XmlElement_attributes heap_a_attr_x
                               (children_of heap_a_attr_x 0%nat)) = None)
       (children_of heap_a_attr_x 0%nat)
  ≡ₚ children_of heap_a_attr_x 0%nat.
Proof.
  destruct (X14_element_children (validation := ascii_validation) heap_a_attr_x 0%nat (js "a"))
    as (_ & _ & Hperm & _).
  - apply run_reachable.
  - reflexivity.
  - exact Hperm.
Defined.

(** ** The setters of the payload (X15) *)

Lemma with_var_frame (n : ref) (v : variant) (h : heap) :
  (forall m, children_of (update n (with_var v) h) m = children_of h m) /\
  (forall m, parent_of (update n (with_var v) h) m = parent_of h m) /\
  (forall m, m <> n -> variant_of (update n (with_var v) h) m = variant_of h m).
Proof.
  split; [|split]; intros m; unfold children_of, parent_of, variant_of;
    rewrite nodes_update; destruct (decide (n = m)) as [->|]; try done;
    by destruct (nodes h !! m).
Qed.

(** X15: the [name] setter of [XmlElement] and the [data] setter of
    [XmlCdata] touch nothing but the payload of their node: after the call,
    whether it returned or threw, every node has the children and the parent
    it had, every other node its payload, every node its class, and the
    arrays of the caller are as they were; a setter that throws has changed
    nothing at all. *)
Theorem X15_setters_frame {validation : Validation} (h h' : heap) (n : ref) (s : jsstring)
    (r : outcome unit) :
  XmlElement_set_name n s h = (h', r) \/ XmlCdata_set_data n s h = (h', r) ->
  (forall m, children_of h' m = children_of h m) /\
  (forall m, parent_of h' m = parent_of h m) /\
  (forall m, m <> n -> variant_of h' m = variant_of h m) /\
  (forall m, kind_at h' m = kind_at h m) /\
  arrays h' = arrays h /\
  (forall e, r = Throw e -> h' = h).
Proof.
  assert (Hsame : h' = h ->
    (forall m, children_of h' m = children_of h m) /\
    (forall m, parent_of h' m = parent_of h m) /\
    (forall m, m <> n -> variant_of h' m = variant_of h m) /\
    (forall m, kind_at h' m = kind_at h m) /\
    arrays h' = arrays h /\
    (forall e, r = Throw e -> h' = h)) by by intros ->.
  assert (Hset : forall v nd,
    nodes h !! n = Some nd -> kind_of v = kind_of (var nd) ->
    h' = update n (with_var v) h -> r = Ok tt ->
    (forall m, children_of h' m = children_of h m) /\
    (forall m, parent_of h' m = parent_of h m) /\
    (forall m, m <> n -> variant_of h' m = variant_of h m) /\
    (forall m, kind_at h' m = kind_at h m) /\
    arrays h' = arrays h /\
    (forall e, r = Throw e -> h' = h)).
  { intros v nd Hn Hk -> ->. destruct (with_var_frame n v h) as (Hcs & Hp & Hv).
    split; [done|]. split; [done|]. split; [done|]. split; [|by split].
    intros m. unfold kind_at. destruct (decide (m = n)) as [->|Hne]; [|by rewrite Hv].
    unfold variant_of. rewrite nodes_update, decide_True, Hn by done. simpl. by rewrite Hk. }
  intros [Heq|Heq]; revert Heq.
  - unfold XmlElement_set_name, bind, getNode.
    destruct (nodes h !! n) as [nd|] eqn:Hn; [|intros [= <- <-]; by apply Hsame].
    destruct (var nd) eqn:Hv; try (intros [= <- <-]; by apply Hsame).
    destruct (validateName s); cbn [negb]; intros [= <- <-]; [|by apply Hsame].
    apply (Hset (VElement s) nd); try done. by rewrite Hv.
  - unfold XmlCdata_set_data, bind, getNode.
    destruct (nodes h !! n) as [nd|] eqn:Hn; [|intros [= <- <-]; by apply Hsame].
    destruct (var nd) eqn:Hv; try (intros [= <- <-]; by apply Hsame).
    destruct (XmlCdata_check_data s) as [[]|e]; intros [= <- <-]; [|by apply Hsame].
    apply (Hset (VCdata s) nd); try done. by rewrite Hv.
Qed.

Lemma X15_setters_frame_witness :
  children_of (after (XmlElement_set_name (validation := ascii_validation) 0%nat (js "z"))
                 heap_a_x_b) 0%nat
  = children_of heap_a_x_b 0%nat.
Proof.
  refine (proj1 (X15_setters_frame (validation := ascii_validation)
                   heap_a_x_b _ 0%nat (js "z") (Ok tt) _) 0%nat).
  left. reflexivity.
Defined.

(** ** The methods of [XmlElement] that construct and insert (X16, X17) *)

Lemma parent_of_alloc v h m : parent_of (alloc v h).1 m = parent_of h m.
Proof.
  unfold parent_of. rewrite nodes_alloc.
  destruct (decide (m = length (nodes h))) as [->|]; [|done].
  by rewrite (lookup_ge_None_2 (nodes h)) by lia.
Qed.

Lemma XmlElement_insertChild_new (h : heap) (e : ref) (v : variant) (idx : option Z) :
  is_Some (nodes h !! e) -> element_child v = true -> instanceof_XmlAttribute v = false ->
  XmlElement_insertChild e (length (nodes h)) idx (alloc v h).1
  = XmlNode_insertChild e (length (nodes h)) idx (alloc v h).1.
Proof.
  intros [ed He] Hv Hna. unfold XmlElement_insertChild.
  rewrite !nodes_alloc, decide_True by done. cbn [var]. rewrite Hv. cbn [negb].
  apply lookup_lt_Some in He as Hlt. rewrite decide_False by lia. rewrite He.
  by destruct v.
Qed.

Lemma new_child_inserted (h : heap) (e : ref) (v : variant) (idx : option Z) :
  is_Some (nodes h !! e) -> (length (nodes h) ∉ children_of h e) ->
  element_child v = true -> instanceof_XmlAttribute v = false ->
  0 <= index_or_end idx (children_of h e) <= Z.of_nat (length (children_of h e)) ->
  (do x <- alloc v; do_ XmlElement_insertChild e x idx; ret x) h
  = (attach e (Z.to_nat (index_or_end idx (children_of h e))) (length (nodes h))
       (alloc v h).1, Ok (length (nodes h))).
Proof.
  intros He Hfresh Hv Hna Hidx. unfold bind at 1. rewrite alloc_eq.
  unfold bind. rewrite XmlElement_insertChild_new by done.
  rewrite XmlNode_insertChild_root; rewrite ?children_of_alloc; try done.
  - destruct He as [ed He]. rewrite nodes_alloc.
    apply lookup_lt_Some in He as Hlt. rewrite decide_False by lia. by eexists.
  - rewrite nodes_alloc, decide_True by done. by eexists.
  - rewrite parent_of_alloc. unfold parent_of.
    by rewrite (lookup_ge_None_2 (nodes h)) by lia.
Qed.

Lemma new_child_out_of_range (h : heap) (e : ref) (v : variant) (i : Z) :
  is_Some (nodes h !! e) ->
  element_child v = true -> instanceof_XmlAttribute v = false ->
  i < 0 \/ i > Z.of_nat (length (children_of h e)) ->
  (do x <- alloc v; do_ XmlElement_insertChild e x (Some i); ret x) h
  = ((alloc v h).1, Throw InvalidIndex).
Proof.
  intros He Hv Hna Hidx. unfold bind at 1. rewrite alloc_eq.
  unfold bind. rewrite XmlElement_insertChild_new by done.
  destruct He as [ed He]. apply lookup_lt_Some in He as Hlt.
  assert (He0 : nodes (alloc v h).1 !! e = Some ed)
    by (rewrite nodes_alloc, decide_False by lia; done).
  assert (Hn0 : nodes (alloc v h).1 !! length (nodes h) = Some (Node v None []))
    by (rewrite nodes_alloc, decide_True by done; done).
  unfold XmlNode_insertChild, bind, getNode. rewrite He0, Hn0.
  cbn [index_or_end]. unfold children_of in Hidx. rewrite He in Hidx.
  by rewrite bool_decide_eq_true_2.
Qed.

(** X16: [cdata] and [element] of an [XmlElement], with a payload that the
    constructor accepts, in a state in which the back-references agree with
    the children. With an index within the bounds, or none, the method
    returns a node that did not exist before, of the class and with the
    payload asked for, without children, with the element as parent and at
    the index among its children (last, without index); no other node
    changes. With an index out of the bounds it throws the [RangeError], and
    every node has the children and the parent it had. *)
Theorem X16_cdata_element_factories {validation : Validation} (h : heap) (e : ref)
    (ename : jsstring) (idx : option Z) (v : variant) (m : M ref) :
  consistent h -> variant_of h e = Some (VElement ename) ->
  (exists d, XmlCdata_check_data d = Ok tt /\ v = VCdata d /\ m = XmlElement_cdata e d idx) \/
  (exists nm, validateName nm = true /\ v = VElement nm /\ m = XmlElement_element e nm idx) ->
  let n := length (nodes h) in
  let cs := children_of h e in
  let i := index_or_end idx cs in
  (0 <= i <= Z.of_nat (length cs) ->
   exists h',
     m h = (h', Ok n) /\
     variant_of h n = None /\ variant_of h' n = Some v /\
     parent_of h' n = Some e /\ children_of h' n = [] /\
     children_of h' e = take (Z.to_nat i) cs ++ n :: drop (Z.to_nat i) cs /\
     (idx = None -> children_of h' e = cs ++ [n]) /\
     (forall x, x <> e -> children_of h' x = children_of h x) /\
     (forall x, x <> n -> parent_of h' x = parent_of h x
                          /\ variant_of h' x = variant_of h x)) /\
  (i < 0 \/ i > Z.of_nat (length cs) ->
   exists h',
     m h = (h', Throw InvalidIndex) /\
     (forall x, children_of h' x = children_of h x) /\
     (forall x, parent_of h' x = parent_of h x)).
Proof.
  intros Hc He Hm n cs i.
  assert (Hv : element_child v = true /\ instanceof_XmlAttribute v = false).
  { by destruct Hm as [(d & _ & -> & _)|(nm & _ & -> & _)]. }
  destruct Hv as [Hv Hna].
  assert (Hrun : m h = (do x <- alloc v; do_ XmlElement_insertChild e x idx; ret x) h).
  { destruct Hm as [(d & Hd & -> & ->)|(nm & Hnm & -> & ->)].
    - unfold XmlElement_cdata, new_XmlCdata. by rewrite Hd.
    - unfold XmlElement_element, new_XmlElement. by rewrite Hnm. }
  assert (Hal : is_Some (nodes h !! e)) by (apply variant_of_is_Some; by rewrite He).
  assert (Hne : e <> n).
  { destruct Hal as [ed Hed]. apply lookup_lt_Some in Hed. unfold n. lia. }
  assert (Hfresh : n ∉ children_of h e).
  { intros Hin. apply Hc in Hin. apply parent_of_allocated in Hin as [nd Hnd].
    apply lookup_lt_Some in Hnd. unfold n in Hnd. lia. }
  assert (Hn0 : is_Some (nodes (alloc v h).1 !! n)).
  { rewrite nodes_alloc, decide_True by done. by eexists. }
  assert (He0 : is_Some (nodes (alloc v h).1 !! e)).
  { destruct Hal as [ed Hed]. rewrite nodes_alloc, decide_False by done. by eexists. }
  split.
  - intros Hi. rewrite Hrun, new_child_inserted by done. fold n cs i.
    eexists. split; [reflexivity|].
    assert (Hcs : children_of (attach e (Z.to_nat i) n (alloc v h).1) e
                  = splice_in (Z.to_nat i) n cs).
    { rewrite children_of_attach, decide_True, children_of_alloc by done. done. }
    split; [apply variant_of_fresh|].
    split; [by rewrite variant_of_attach, variant_of_alloc, decide_True|].
    split; [by rewrite parent_of_attach, decide_True|].
    split.
    { rewrite children_of_attach, decide_False, children_of_alloc by done.
      unfold children_of. by rewrite (lookup_ge_None_2 (nodes h)) by (unfold n; lia). }
    split; [exact Hcs|]. split.
    { intros ->. rewrite Hcs. unfold i. cbn [index_or_end]. rewrite Nat2Z.id.
      apply splice_in_end. }
    split.
    + intros x Hx. by rewrite children_of_attach, decide_False, children_of_alloc.
    + intros x Hx. rewrite parent_of_attach, decide_False, parent_of_alloc by done.
      rewrite variant_of_attach, variant_of_alloc, decide_False by done. done.
  - intros Hi. destruct idx as [i'|]; [|unfold i in Hi; cbn [index_or_end] in Hi; lia].
    rewrite Hrun, new_child_out_of_range by done.
    eexists. split; [reflexivity|]. split; intros x.
    + apply children_of_alloc.
    + apply parent_of_alloc.
Qed.

Lemma X16_cdata_element_factories_witness :
  exists h',
    XmlElement_cdata (validation := ascii_validation) 0%nat (js "d") (Some 1) heap_a_x_b
    = (h', Ok 3%nat) /\
    children_of h' 0%nat = [1%nat; 3%nat; 2%nat].
Proof.
  destruct (X16_cdata_element_factories (validation := ascii_validation) heap_a_x_b 0%nat
              (js "a") (Some 1) (VCdata (js "d"))
              (XmlElement_cdata (validation := ascii_validation) 0%nat (js "d") (Some 1)))
    as [Hin _].
  - apply (reachable_consistent (validation := ascii_validation)), run_reachable.
  - reflexivity.
  - left. exists (js "d"). by split.
  - destruct Hin as (h' & Heq & _ & _ & _ & _ & Hcs & _); [vm_compute; split; discriminate|].
    exists h'. split; [exact Heq | exact Hcs].
Defined.

(** X17: [e = new XmlElement(name); e.cdata(d)], with a name and character
    data that the constructors accept, and then [e.toString(options)]: the
    result is the name in its two tags around the CDATA section; with
    [pretty] set the section comes after a newline, each of its lines
    prefixed with one indent unit (the lines as [lines_of] gives them, not
    as the program splits them), and a newline follows it. This holds in
    every state, and from the second nested call on. *)
Theorem X17_element_with_cdata {validation : Validation} {markup : LeafMarkup} (h : heap)
    (name d : jsstring) (o : StringOptions) (fuel : nat) :
  validateName name = true -> XmlCdata_check_data d = Ok tt ->
  exists h1 h2 e c icd,
    new_XmlElement name h = (h1, Ok e) /\
    XmlElement_cdata e d None h1 = (h2, Ok c) /\
    children_of h2 e = [c] /\
    indented o (js "<![CDATA[" ++ d ++ js "]]>") icd /\
    toString (S (S fuel)) h2 o e
    = Some (Ok (js "<" ++ name ++ js ">"
                ++ (if pretty o then newline o ++ icd ++ newline o
                    else js "<![CDATA[" ++ d ++ js "]]>")
                ++ js "</" ++ name ++ js ">")).
Proof.
  intros Hname Hd.
  set (e := length (nodes h)). set (h1 := (alloc (VElement name) h).1).
  set (c := length (nodes h1)). set (h0 := (alloc (VCdata d) h1).1).
  assert (He1 : nodes h1 !! e = Some (Node (VElement name) None [])).
  { unfold h1. by rewrite nodes_alloc, decide_True. }
  assert (Hcs1 : children_of h1 e = []) by (unfold children_of; by rewrite He1).
  assert (Hce : e <> c).
  { apply lookup_lt_Some in He1. unfold c. lia. }
  assert (Hrun : XmlElement_cdata e d None h1 = (attach e 0 c h0, Ok c)).
  { unfold XmlElement_cdata, new_XmlCdata. rewrite Hd.
    assert (Hfresh : length (nodes h1) ∉ children_of h1 e)
      by (rewrite Hcs1; apply not_elem_of_nil).
    assert (Hidx : 0 <= index_or_end None (children_of h1 e)
                   <= Z.of_nat (length (children_of h1 e))) by by rewrite Hcs1.
    rewrite (new_child_inserted h1 e (VCdata d) None (mk_is_Some _ _ He1) Hfresh
               eq_refl eq_refl Hidx).
    by rewrite Hcs1. }
  exists h1, (attach e 0 c h0), e, c, (indent_lines o (js "<![CDATA[" ++ d ++ js "]]>")).
  assert (Hcs : children_of (attach e 0 c h0) e = [c]).
  { rewrite children_of_attach, decide_True by (done || (unfold h0;
      rewrite nodes_alloc, decide_False by done; by eexists)).
    unfold h0. rewrite children_of_alloc, Hcs1. done. }
  split; [unfold new_XmlElement; by rewrite Hname|]. split; [done|]. split; [done|].
  split; [apply indent_lines_indented|].
  assert (Hvc : variant_of (attach e 0 c h0) c = Some (VCdata d)).
  { unfold h0. by rewrite variant_of_attach, variant_of_alloc, decide_True. }
  assert (Hve : variant_of (attach e 0 c h0) e = Some (VElement name)).
  { unfold h0, h1. rewrite variant_of_attach, !variant_of_alloc.
    rewrite decide_False by done. by rewrite decide_True. }
  rewrite (toString_element (S fuel) _ o e name Hve), Hcs.
  unfold variant_of in Hvc.
  destruct (nodes (attach e 0 c h0) !! c) as [cd|] eqn:Hc; [|done].
  injection Hvc as Hvc.
  assert (Hattr : is_attribute (attach e 0 c h0) c = false).
  { unfold is_attribute. by rewrite Hc, Hvc. }
  assert (Hline : same_line_node (attach e 0 c h0) c = false).
  { unfold same_line_node. by rewrite Hc, Hvc. }
  rewrite (XmlElement_toString_ok _ _ o name [c] [] [js "<![CDATA[" ++ d ++ js "]]>"]).
  - rewrite filter_cons_True, filter_nil by done.
    cbn [fmap list_fmap zip zip_with appended allSameLineNodes forallb].
    rewrite Hline. cbn [negb andb]. unfold open_tag. cbn [fmap list_fmap concat].
    rewrite !andb_true_r. destruct (pretty o); cbn [andb negb];
      by rewrite <- ?app_assoc, ?app_nil_r, ?app_nil_l.
  - unfold XmlElement_attributes. rewrite filter_cons_False, filter_nil by congruence.
    constructor.
  - rewrite filter_cons_True, filter_nil by done. constructor; [|constructor].
    cbn [toString]. by rewrite Hc, Hvc.
Qed.

Lemma X17_element_with_cdata_witness :
  exists h1 h2 e c,
    new_XmlElement (validation := ascii_validation) (js "a") empty_heap = (h1, Ok e) /\
    XmlElement_cdata (validation := ascii_validation) e [120%N; 10%N; 121%N] None h1
    = (h2, Ok c) /\
    toString (markup := plain_markup) 2 h2 pretty_options e
    = Some (Ok (js "<a>" ++ [10%N] ++ js "  <![CDATA[x" ++ [10%N] ++ js "  y]]>"
                ++ [10%N] ++ js "</a>")).
Proof.
  destruct (X17_element_with_cdata (validation := ascii_validation) (markup := plain_markup)
              empty_heap (js "a") [120%N; 10%N; 121%N] pretty_options 0)
    as (h1 & h2 & e & c & icd & Hnew & Hcdata & _ & Hicd & Hstr);
    [reflexivity | reflexivity |].
  exists h1, h2, e, c. split; [exact Hnew|]. split; [exact Hcdata|].
  assert (Hlines : indented pretty_options (js "<![CDATA[" ++ [120%N; 10%N; 121%N] ++ js "]]>")
                     (js "  <![CDATA[x" ++ [10%N] ++ js "  y]]>")).
  { apply indented_lines; [done|].
    exists [js "<![CDATA[x"; js "y]]>"]. split; [|reflexivity].
    apply (lines_more [10%N] (js "<![CDATA[x")); [by apply first_at_contains|].
    apply lines_last. intros Hocc. by apply (proj2 (contains_spec _ _)) in Hocc. }
  rewrite (indented_unique _ _ _ _ Hicd Hlines) in Hstr. rewrite Hstr. reflexivity.
Defined.

(** ** Options without [pretty] (X18) *)

Section PlainOptions.
Variables render render' : ref -> rendering.
Hypothesis Hrender : forall n, render n = render' n.

Lemma render_attributes_ext attrs str :
  render_attributes render attrs str = render_attributes render' attrs str.
Proof.
  revert str. induction attrs as [|a attrs IH]; intros str; [done|].
  simpl. rewrite <- Hrender. destruct (render a) as [[s|e]|]; [apply IH | done | done].
Qed.

Lemma render_all_ext cs str : render_all render cs str = render_all render' cs str.
Proof.
  revert str. induction cs as [|c cs IH]; intros str; [done|].
  simpl. rewrite <- Hrender. destruct (render c) as [[s|e]|]; [apply IH | done | done].
Qed.

Lemma render_nodes_plain h o o' nodes count i str :
  pretty o = false -> pretty o' = false ->
  render_nodes render h o nodes count i str = render_nodes render' h o' nodes count i str.
Proof.
  intros Ho Ho'. revert i str. induction count as [|count IH]; intros i str; [done|].
  cbn [render_nodes]. destruct (nodes !! i) as [next|]; [|done].
  rewrite <- Hrender. destruct (render next) as [[s|e]|]; [|done|done].
  rewrite Ho, Ho'. cbn [andb]. apply IH.
Qed.

Lemma XmlElement_toString_plain h o o' name cs :
  pretty o = false -> pretty o' = false ->
  XmlElement_toString render h o name cs = XmlElement_toString render' h o' name cs.
Proof.
  intros Ho Ho'. unfold XmlElement_toString.
  rewrite <- render_attributes_ext.
  destruct (render_attributes render (XmlElement_attributes h cs) (js "<" ++ name))
    as [[str|e]|]; [|done|done].
  case_bool_decide; [|done].
  rewrite <- (render_nodes_plain h o o') by done.
  rewrite Ho, Ho'. done.
Qed.

End PlainOptions.

(** X18: without [pretty] the options [indent] and [newline] have no
    influence on what [toString] does, for a node of any class and at any
    depth of the hierarchy below it: two calls whose options both leave
    [pretty] unset return the same string, throw the same exception, or both
    nest deeper than the depth allowed. *)
Theorem X18_plain_options {markup : LeafMarkup} (h : heap) (o o' : StringOptions)
    (fuel : nat) (n : ref) :
  pretty o = false -> pretty o' = false ->
  toString fuel h o n = toString fuel h o' n.
Proof.
  intros Ho Ho'. revert n. induction fuel as [|fuel IH]; intros n; [done|].
  cbn [toString]. destruct (nodes h !! n) as [nd|]; [|done].
  destruct (var nd); try done.
  - unfold XmlAttribute_toString. by rewrite (render_all_ext _ _ IH).
  - by apply XmlElement_toString_plain.
Qed.

Lemma X18_plain_options_witness :
  toString (markup := plain_markup) 3 heap_a_x_b
    {| indent := js "  "; newline := [10%N]; pretty := false |} 0%nat
  = toString (markup := plain_markup) 3 heap_a_x_b
      {| indent := []; newline := [13%N; 10%N]; pretty := false |} 0%nat.
Proof.
  apply (X18_plain_options (markup := plain_markup)); reflexivity.
Defined.

(** ** The payloads in the states a client can reach (X19) *)

Section PayloadsLegal.
Context {validation : Validation}.

Lemma variants_kept_legal {A} (m : M A) :
  (forall h x, variant_of (after m h) x = variant_of h x) -> preserves payloads_legal m.
Proof. intros Hm h Hh n v. rewrite Hm. apply Hh. Qed.

Lemma alloc_legal v : legal_payload v = true -> preserves payloads_legal (alloc v).
Proof.
  intros Hv h Hh n v'. unfold after. rewrite variant_of_alloc.
  destruct (decide (n = length (nodes h))); [by intros [= <-] | apply Hh].
Qed.

Lemma with_var_legal n v :
  legal_payload v = true ->
  preserves payloads_legal (fun h => (update n (with_var v) h, Ok tt)).
Proof.
  intros Hv h Hh m v'. unfold after. cbn [fst]. unfold variant_of. rewrite nodes_update.
  destruct (decide (n = m)) as [->|]; [|apply Hh].
  destruct (nodes h !! m); [by intros [= <-] | done].
Qed.

Lemma setItem_legal a i x : preserves payloads_legal (setItem a i x).
Proof. by intros h Hh. Qed.

Lemma newArray_legal items : preserves payloads_legal (newArray items).
Proof. by intros h Hh. Qed.

Ltac legal_side :=
  cbn [legal_payload]; try done;
  repeat match goal with
         | H : negb _ = false |- _ => apply negb_false_iff in H
         end;
  try done;
  match goal with
  | H : XmlCdata_check_data _ = _ |- _ => by rewrite H
  end.

Ltac legal_step :=
  first
    [ apply preserves_ret | apply preserves_throw | apply preserves_getNode
    | apply preserves_getArray
    | apply alloc_legal; legal_side | apply with_var_legal; legal_side
    | apply setItem_legal | apply newArray_legal
    | apply variants_kept_legal; first
        [ apply XmlElement_insertChild_variants | apply XmlAttribute_insertChild_variants
        | apply insertChild_variants | apply removeChild_variants
        | apply removeChildAtIndex_variants | apply XmlNode_remove_variants ]
    | apply preserves_bind; [|intros ?]
    | match goal with
      | |- preserves _ (if ?b then _ else _) => destruct b eqn:?
      | |- preserves _ (match ?x with _ => _ end) => destruct x eqn:?
      end ].
Ltac legal_calls := repeat legal_step.

Lemma XmlAttribute_insert_all_legal a items :
  preserves payloads_legal (XmlAttribute_insert_all a items).
Proof. induction items as [|[s|n] items IH]; simpl; legal_calls. apply IH. Qed.

Lemma new_XmlText_legal text : preserves payloads_legal (new_XmlText text).
Proof. unfold new_XmlText. legal_calls. Qed.

Lemma convert_strings_legal a i count : preserves payloads_legal (convert_strings a i count).
Proof.
  revert i. induction count as [|count IH]; intros i; simpl; legal_calls;
    try apply new_XmlText_legal; apply IH.
Qed.

Lemma new_XmlAttribute_legal name value : preserves payloads_legal (new_XmlAttribute name value).
Proof. unfold new_XmlAttribute. legal_calls; apply XmlAttribute_insert_all_legal. Qed.

Lemma exec_legal (c : call) (h : heap) : payloads_legal h -> payloads_legal (exec c h).
Proof.
  destruct c; cbn [exec];
    match goal with |- _ -> payloads_legal (after ?m _) =>
      generalize h; change (preserves payloads_legal m) end;
    unfold on_element, new_XmlElement, new_XmlCdata, new_XmlComment, new_XmlCharRef,
      new_XmlEntityRef, new_XmlProcInst, new_XmlDtdEntity, XmlElement_set_name,
      XmlCdata_set_data, set_text, XmlText_set_text, XmlDtdEntity_set_text,
      XmlElement_attribute, XmlElement_cdata, XmlElement_charRef, XmlElement_comment,
      XmlElement_element, XmlElement_entityRef, XmlElement_procInst, XmlElement_text,
      new_XmlElement, new_XmlCdata, new_XmlComment, new_XmlCharRef,
      new_XmlEntityRef, new_XmlProcInst;
    legal_calls;
    try apply new_XmlText_legal; try apply new_XmlAttribute_legal;
    try apply convert_strings_legal.
Qed.

Lemma reachable_legal (h : heap) : reachable h -> payloads_legal h.
Proof.
  induction 1 as [|h c _ IH]; [|by apply exec_legal].
  intros n v. unfold variant_of. simpl. done.
Qed.

End PayloadsLegal.

(** X19: in every state a client can reach, whatever calls returned or threw
    on the way, every [XmlElement] has a name that [validateName] accepts, and
    every [XmlCdata] has data that [validateChar] accepts and in which the
    end of a CDATA section does not occur; its [toString] returns the data
    between the two delimiters. *)
Theorem X19_payloads_legal {validation : Validation} {markup : LeafMarkup} (h : heap)
    (n : ref) :
  reachable h ->
  (forall name, variant_of h n = Some (VElement name) -> validateName name = true) /\
  (forall d, variant_of h n = Some (VCdata d) ->
             validateChar d = true /\ contains (js "]]>") d = false /\
             forall o fuel, toString (S fuel) h o n
                            = Some (Ok (js "<![CDATA[" ++ d ++ js "]]>"))).
Proof.
  intros Hr. pose proof (reachable_legal h Hr) as Hl. split.
  - intros name Hv. exact (Hl n _ Hv).
  - intros d Hv. pose proof (Hl n _ Hv) as Hd. cbn [legal_payload] in Hd.
    unfold XmlCdata_check_data in Hd.
    destruct (validateChar d); [|done]. cbn [negb] in Hd.
    destruct (contains (js "]]>") d); [done|].
    split; [done|]. split; [done|]. intros o fuel.
    unfold variant_of in Hv. cbn [toString].
    destruct (nodes h !! n) as [nd|]; [|done]. injection Hv as ->. done.
Qed.

Lemma X19_payloads_legal_witness :
  contains (js "]]>") (js "d") = false /\
  toString (markup := plain_markup) 1
    (run (validation := ascii_validation) [NewXmlCdata (js "d"); SetData 0%nat (js "]]>")])
    pretty_options 0%nat
  = Some (Ok (js "<![CDATA[d]]>")).
Proof.
  destruct (X19_payloads_legal (validation := ascii_validation) (markup := plain_markup)
              (run (validation := ascii_validation)
                 [NewXmlCdata (js "d"); SetData 0%nat (js "]]>")]) 0%nat)
    as [_ Hcdata]; [apply run_reachable|].
  destruct (Hcdata (js "d") eq_refl) as (_ & Hno & Hstr).
  split; [exact Hno | exact (Hstr pretty_options 0%nat)].
Defined.
